(** * roblox-ts: class lowering, call-site macros and the source-file wrapper

    A shallow embedding of [transpileClass] (class lowering),
    [transpileCallExpression] / [transpilePropertyCallExpression]
    (src/transpiler/call.ts) and [transpileSourceFile]
    (src/transpiler/sourceFile.ts), with the properties of their output.

    The transpiler functions take a mutable [TranspilerState] and either
    return text or throw; they are embedded in a state-and-exception monad
    [M] in which a throw keeps the mutations made so far.  The functions
    imported from the rest of the transpiler are the fields of the class
    [Collaborators]. *)

From Stdlib Require Import String Ascii List Bool Arith Lia DecimalString.
Import ListNotations.
Open Scope string_scope.
Open Scope list_scope.

Set Implicit Arguments.

(** String concatenation ([+] on strings, and the juxtaposition inside a
    template literal); [++] is kept for lists. *)
Infix "+:+" := String.append (at level 60, right associativity).

(** ** Text *)

(** The characters the template literals of the source escape. *)
Definition LF : string := String (ascii_of_nat 10) EmptyString.
Definition TAB : string := String (ascii_of_nat 9) EmptyString.
Definition DQUOTE : string := String (ascii_of_nat 34) EmptyString.

(** A template literal ending in a line feed. *)
Definition line (s : string) : string := s +:+ LF.

(** [s.length > 0] *)
Definition nonEmpty (s : string) : bool := negb (s =? EmptyString).

(** [s.startsWith(p)] *)
Definition startsWith (s p : string) : bool := String.prefix p s.

(** [xs.indexOf(x) !== -1] on an array of strings *)
Definition includes (xs : list string) (x : string) : bool :=
  existsb (String.eqb x) xs.

(** [sub] occurs in [s]. *)
Definition occursIn (sub s : string) : Prop :=
  exists pre post, s = pre +:+ sub +:+ post.

(** Decidable version of [occursIn], for literals. *)
Fixpoint occursInb (sub s : string) : bool :=
  String.prefix sub s ||
  match s with
  | EmptyString => false
  | String _ s' => occursInb sub s'
  end.

(** A piece of emitted text, with its provenance in the template literal
    that produced it: [Lit] is text written in the transpiler's own source,
    [Val] is an interpolated value (the indentation, a name, the text
    returned by another lowering routine). *)
Inductive Tok : Type :=
| Lit (s : string)
| Val (s : string).

Definition tokText (t : Tok) : string :=
  match t with Lit s => s | Val s => s end.

(** The emitted string. *)
Fixpoint render (ts : list Tok) : string :=
  match ts with
  | [] => EmptyString
  | t :: ts' => tokText t +:+ render ts'
  end.

(** The literal pieces of an emission, in order. *)
Fixpoint lits (ts : list Tok) : list string :=
  match ts with
  | [] => []
  | Lit s :: ts' => s :: lits ts'
  | Val _ :: ts' => lits ts'
  end.

(** How many times the literal [x] was emitted. *)
Definition countLit (x : string) (ts : list Tok) : nat :=
  List.length (filter (String.eqb x) (lits ts)).

(** ** The syntax tree (ts-morph), as far as the lowering reads it *)

Inductive SyntaxKind : Type :=
| MethodDeclaration
| MethodSignature
| PropertyDeclaration
| GetAccessor
| SetAccessor
| ParameterDeclaration
| ExpressionStatement
| OtherKind (tag : nat).

Definition SyntaxKind_eqb (a b : SyntaxKind) : bool :=
  match a, b with
  | MethodDeclaration, MethodDeclaration => true
  | MethodSignature, MethodSignature => true
  | PropertyDeclaration, PropertyDeclaration => true
  | GetAccessor, GetAccessor => true
  | SetAccessor, SetAccessor => true
  | ParameterDeclaration, ParameterDeclaration => true
  | ExpressionStatement, ExpressionStatement => true
  | OtherKind m, OtherKind n => Nat.eqb m n
  | _, _ => false
  end.

(** [ts.Symbol] *)
Module Symbol.
Record t : Type := mk {
  getName : string;
  getEscapedName : string;
  (** the kinds of [getDeclarations()] *)
  getDeclarations : list SyntaxKind
}.
End Symbol.

(** [ts.Type] *)
Module TsType.
Record t : Type := mk {
  getText : string;
  isString : bool;
  isStringLiteral : bool;
  getSymbol : option Symbol.t
}.
End TsType.

(** [ts.Expression]: the two kinds the call lowering distinguishes, and the
    others, whose lowering belongs to [transpileExpression]. *)
Inductive Expression : Type :=
| PropertyAccessExpression (expression : Expression) (name : string) (type : TsType.t)
| SuperExpression (type : TsType.t)
| OtherExpression (text : string) (type : TsType.t).

Module Expr.
Definition getType (e : Expression) : TsType.t :=
  match e with
  | PropertyAccessExpression _ _ ty => ty
  | SuperExpression ty => ty
  | OtherExpression _ ty => ty
  end.
Definition isPropertyAccessExpression (e : Expression) : bool :=
  match e with PropertyAccessExpression _ _ _ => true | _ => false end.
Definition isSuperExpression (e : Expression) : bool :=
  match e with SuperExpression _ => true | _ => false end.
End Expr.

(** [ts.CallExpression] *)
Module CallExpression.
Record t : Type := mk {
  getExpression : Expression;
  getArguments : list Expression;
  getReturnType : TsType.t;
  (** the kind of [getParent()] *)
  getParentKind : SyntaxKind
}.
End CallExpression.

(** A member of a class body: a method, a property, an accessor, or a
    parameter property of the constructor. *)
Module ClassMember.
Record t : Type := mk {
  getKind : SyntaxKind;
  getName : string;
  isStatic : bool;
  getBody : option string;
  getInitializer : option Expression
}.
Definition isMethodDeclaration (m : t) : bool := SyntaxKind_eqb (getKind m) MethodDeclaration.
Definition isGetAccessorDeclaration (m : t) : bool := SyntaxKind_eqb (getKind m) GetAccessor.
Definition isSetAccessorDeclaration (m : t) : bool := SyntaxKind_eqb (getKind m) SetAccessor.
Definition isParameterDeclaration (m : t) : bool := SyntaxKind_eqb (getKind m) ParameterDeclaration.
(** ts-morph's class property types: properties, accessors, parameter
    properties. *)
Definition isClassPropertyType (m : t) : bool :=
  match getKind m with
  | PropertyDeclaration | GetAccessor | SetAccessor | ParameterDeclaration => true
  | _ => false
  end.
(** [ts.TypeGuards.isInitializerExpressionableNode] on a class member *)
Definition isInitializerExpressionableNode (m : t) : bool :=
  match getKind m with
  | PropertyDeclaration | ParameterDeclaration => true
  | _ => false
  end.
(** [prop.getParent() === node]: a parameter property's parent is the
    constructor, every other member's parent is the class. *)
Definition parentIsClass (m : t) : bool := negb (isParameterDeclaration m).
End ClassMember.

(** [ts.ConstructorDeclaration], opaque to the class lowering. *)
Record ConstructorDeclaration : Type := mkConstructor {
  constructorText : string
}.

Inductive ClassKind : Type := ClassDeclaration | ClassExpression.

(** [ts.ClassDeclaration | ts.ClassExpression] *)
Module ClassNode.
#[local] Unset Elimination Schemes.
Inductive t : Type := mk {
  getClassKind : ClassKind;
  (** [getName()]; [getNameNode()] is present exactly when it is *)
  getName : option string;
  getBaseTypes : list TsType.t;
  (** [getHeritageClauseByKind(ExtendsKeyword)], as the expressions of its
      [getTypeNodes()] *)
  getExtendsTypeNodes : option (list Expression);
  getBaseClass : option t;
  (** the members with parameter properties, constructors apart *)
  getAllMembers : list ClassMember.t;
  getConstructors : list ConstructorDeclaration;
  isAbstract : bool
}.
#[local] Set Elimination Schemes.

Definition isClassDeclaration (c : t) : bool :=
  match getClassKind c with ClassDeclaration => true | ClassExpression => false end.
Definition isClassExpression (c : t) : bool :=
  match getClassKind c with ClassDeclaration => false | ClassExpression => true end.

(** ts-morph's views of the member list. *)
Definition getStaticMembers (c : t) : list ClassMember.t :=
  filter (fun m => negb (ClassMember.isParameterDeclaration m) && ClassMember.isStatic m)
         (getAllMembers c).
Definition getInstanceMembers (c : t) : list ClassMember.t :=
  filter (fun m => ClassMember.isParameterDeclaration m || negb (ClassMember.isStatic m))
         (getAllMembers c).
Definition getStaticProperties (c : t) : list ClassMember.t :=
  filter ClassMember.isClassPropertyType (getStaticMembers c).
Definition getStaticMethods (c : t) : list ClassMember.t :=
  filter ClassMember.isMethodDeclaration (getStaticMembers c).
Definition getInstanceProperties (c : t) : list ClassMember.t :=
  filter ClassMember.isClassPropertyType (getInstanceMembers c).
Definition getInstanceMethods (c : t) : list ClassMember.t :=
  filter ClassMember.isMethodDeclaration (getInstanceMembers c).
Definition getMethods (c : t) : list ClassMember.t :=
  filter ClassMember.isMethodDeclaration (getAllMembers c).
Definition getMethod (c : t) (name : string) : option ClassMember.t :=
  find (fun m => ClassMember.getName m =? name) (getMethods c).

(** The chain of [getBaseClass()], nearest first. *)
Fixpoint ancestors (c : t) : list t :=
  match getBaseClass c with
  | Some b => b :: ancestors b
  | None => []
  end.
End ClassNode.

(** [ts.ExportAssignment]: [export = e] or [export default e] *)
Record ExportAssignment : Type := mkExportAssignment {
  isExportEquals : bool
}.

(** [ts.SourceFile] *)
Module SourceFile.
Record t : Type := mk {
  getFilePath : string;
  (** [getDescendantsOfKind(ts.SyntaxKind.ExportAssignment)], in source
      order *)
  getExportAssignments : list ExportAssignment
}.
End SourceFile.

(** The node an error is reported at. *)
Inductive Node : Type :=
| ClassNodeOf (c : ClassNode.t)
| ClassMemberOf (m : ClassMember.t)
| CallExpressionOf (c : CallExpression.t)
| SourceFileOf (f : SourceFile.t)
| IdentifierOf (text : string).

(** ** Errors *)

(** Modelled from the spec: [TranspilerErrorType] of
    errors/TranspilerError, which is not among the sources.  The first six
    are the kinds the three files raise themselves; [CollaboratorErrorType]
    stands for the kinds only other lowering routines raise. *)
Inductive TranspilerErrorType : Type :=
| RoactSubClassesNotSupported
| UndefinableMetamethod
| ExpectedPropertyAccessExpression
| NoMacroMathExpressionStatement
| ExportInNonModuleScript
| MultipleExportEquals
| CollaboratorErrorType (tag : nat).

(** What a lowering function throws: a [TranspilerError] (message, node,
    kind), or an error of the JavaScript runtime or of ts-morph
    ([undefined.add], [getSymbolOrThrow]). *)
Inductive Exception : Type :=
| TranspilerError (message : string) (node : Node) (type : TranspilerErrorType)
| RuntimeError (message : string).

Inductive Result (A : Type) : Type :=
| Ok (a : A)
| Throw (e : Exception).
Arguments Throw {A} e.

(** ** The transpilation state *)

(** Modelled from the spec: the script-context and script-kind
    enumerations of ../utility, which is not among the sources. *)
Inductive ScriptContext : Type :=
| ContextNone | ContextClient | ContextServer | ContextBoth.
Inductive ScriptType : Type :=
| ScriptServer | ScriptClient | ScriptModule.

(** Modelled from the spec: the fields of [TranspilerState] the three files
    read or write ([indent], [hoistStack], [usesTSLibrary], [isModule],
    [scriptContext]), and the identifier counter and export registry the
    spec names; the class itself is not among the sources. *)
Record TranspilerState : Type := mkState {
  indent : string;
  hoistStack : list (list string);
  usesTSLibrary : bool;
  isModule : bool;
  scriptContext : ScriptContext;
  idCounter : nat;
  exports : list string
}.

Definition set_indent (i : string) (st : TranspilerState) : TranspilerState :=
  mkState i (hoistStack st) (usesTSLibrary st) (isModule st) (scriptContext st)
          (idCounter st) (exports st).
Definition set_hoistStack (h : list (list string)) (st : TranspilerState) : TranspilerState :=
  mkState (indent st) h (usesTSLibrary st) (isModule st) (scriptContext st)
          (idCounter st) (exports st).
Definition set_usesTSLibrary (b : bool) (st : TranspilerState) : TranspilerState :=
  mkState (indent st) (hoistStack st) b (isModule st) (scriptContext st)
          (idCounter st) (exports st).
Definition set_isModule (b : bool) (st : TranspilerState) : TranspilerState :=
  mkState (indent st) (hoistStack st) (usesTSLibrary st) b (scriptContext st)
          (idCounter st) (exports st).
Definition set_scriptContext (c : ScriptContext) (st : TranspilerState) : TranspilerState :=
  mkState (indent st) (hoistStack st) (usesTSLibrary st) (isModule st) c
          (idCounter st) (exports st).

(** [Set.prototype.add] on a set kept in insertion order. *)
Definition setAdd (x : string) (s : list string) : list string :=
  if existsb (String.eqb x) s then s else s ++ [x].

(** ** The monad of lowering functions *)

(** A lowering function reads and mutates the state and returns or throws;
    the mutations made before a throw stay. *)
Definition M (A : Type) : Type := TranspilerState -> TranspilerState * Result A.

Definition ret {A} (a : A) : M A := fun st => (st, Ok a).
Definition throw {A} (e : Exception) : M A := fun st => (st, Throw e).
Definition bind {A B} (m : M A) (f : A -> M B) : M B :=
  fun st =>
    match m st with
    | (st1, Ok a) => f a st1
    | (st1, Throw e) => (st1, Throw e)
    end.
Definition gets {A} (f : TranspilerState -> A) : M A := fun st => (st, Ok (f st)).
Definition modify (f : TranspilerState -> TranspilerState) : M unit :=
  fun st => (f st, Ok tt).
(** A check that takes no state. *)
Definition liftResult {A} (r : Result A) : M A := fun st => (st, r).

Notation "x <- m ;; k" := (bind m (fun x => k))
  (at level 61, m at next level, right associativity).
Notation "' pat <- m ;; k" := (bind m (fun x => match x with pat => k end))
  (at level 61, pat pattern, m at next level, right associativity).
Notation "m ;; k" := (bind m (fun _ => k))
  (at level 61, right associativity).

(** [for (const x of xs) { result += f(x) }] and
    [xs.forEach(x => { result += f(x) })]: the pieces appended, in order;
    a throw of [f] ends the loop. *)
Fixpoint forEach {A} (f : A -> M (list Tok)) (xs : list A) : M (list Tok) :=
  match xs with
  | [] => ret []
  | x :: xs' =>
      r <- f x ;;
      rs <- forEach f xs' ;;
      ret (r ++ rs)
  end.

(** [state.hoistStack[state.hoistStack.length - 1].add(name)]; on an empty
    stack the element is [undefined] and the call throws. *)
Definition hoist (name : string) : M unit :=
  fun st =>
    match rev (hoistStack st) with
    | [] => (st, Throw (RuntimeError "Cannot read property 'add' of undefined"))
    | top :: below => (set_hoistStack (rev (setAdd name top :: below)) st, Ok tt)
    end.

(** [type.getSymbolOrThrow()] *)
Definition getSymbolOrThrow (ty : TsType.t) : M Symbol.t :=
  match TsType.getSymbol ty with
  | Some sym => ret sym
  | None => throw (RuntimeError "Expected to find a symbol.")
  end.

(** ** The rest of the transpiler *)

(** What the three files import and do not define: the lowering routines
    and checks of the transpiler's index module, the methods of
    [TranspilerState], ../typeUtilities and ../utility. *)
Class Collaborators : Type := {
  checkReserved : string -> Node -> Result unit;
  checkMethodReserved : string -> Node -> Result unit;
  inheritsFromRoact : TsType.t -> bool;
  ROACT_COMPONENT_TYPE : string;
  ROACT_PURE_COMPONENT_TYPE : string;
  transpileAccessorDeclaration : ClassMember.t -> string -> M string;
  transpileConstructorDeclaration :
    string -> option ConstructorDeclaration -> list string -> bool -> M string;
  transpileExpression : Expression -> M string;
  transpileMethodDeclaration : ClassMember.t -> M string;
  transpileRoactClassDeclaration : string -> string -> ClassNode.t -> M string;
  transpileArguments : list Expression -> M string;
  validateApiAccess : Node -> M unit;
  transpileStatementedNode : SourceFile.t -> M string;
  getNewId : M string;
  pushExport : string -> ClassNode.t -> M unit;
  pushIndent : TranspilerState -> TranspilerState;
  popIndent : TranspilerState -> TranspilerState;
  isArrayType : TsType.t -> bool;
  isTupleType : TsType.t -> bool;
  getScriptContext : SourceFile.t -> ScriptContext;
  getScriptType : SourceFile.t -> ScriptType
}.

(** ** Class lowering: what does not depend on the other routines *)

(** [xs.length > 0] *)
Definition some {A} (xs : list A) : bool := Nat.ltb 0 (List.length xs).

Definition LUA_RESERVED_METAMETHODS : list string :=
  [ "__index"; "__newindex"; "__add"; "__sub"; "__mul"; "__div"; "__mod";
    "__pow"; "__unm"; "__eq"; "__lt"; "__le"; "__call"; "__concat";
    "__tostring"; "__len"; "__metatable"; "__mode" ].

Definition LUA_UNDEFINABLE_METAMETHODS : list string :=
  [ "__index"; "__newindex"; "__mode" ].

Fixpoint getClassMethod (classDec : ClassNode.t) (methodName : string)
  : option ClassMember.t :=
  match ClassNode.getMethod classDec methodName with
  | Some method => Some method
  | None =>
      match ClassNode.getBaseClass classDec with
      | Some baseClass =>
          match getClassMethod baseClass methodName with
          | Some baseMethod => Some baseMethod
          | None => None
          end
      | None => None
      end
  end.

(** [for (const constructor of node.getConstructors()) return constructor] *)
Definition getConstructor (node : ClassNode.t) : option ConstructorDeclaration :=
  match ClassNode.getConstructors node with
  | constructor :: _ => Some constructor
  | [] => None
  end.

(** The conditions of the ancestor walk (lines 123-137). *)
Definition declaresStatic (c : ClassNode.t) : bool :=
  some (ClassNode.getStaticMembers c)
  || some (ClassNode.getStaticProperties c)
  || some (ClassNode.getStaticMethods c).

Definition declaresInstance (c : ClassNode.t) : bool :=
  some (ClassNode.getInstanceMembers c)
  || some (ClassNode.getInstanceProperties c)
  || some (ClassNode.getInstanceMethods c).

(** The [while (currentBaseClass)] loop (lines 120-140) over the chain of
    base classes; [flags] is ([hasStaticInheritance],
    [hasInstanceInheritance]). *)
Fixpoint inheritanceLoop (chain : list ClassNode.t) (flags : bool * bool) : bool * bool :=
  match chain with
  | [] => flags
  | currentBaseClass :: rest =>
      let hasStaticInheritance :=
        if declaresStatic currentBaseClass then true else fst flags in
      let hasInstanceInheritance :=
        if declaresInstance currentBaseClass then true else snd flags in
      inheritanceLoop rest (hasStaticInheritance, hasInstanceInheritance)
  end.

Definition hasStaticInheritance (node : ClassNode.t) : bool :=
  fst (inheritanceLoop (ClassNode.ancestors node) (false, false)).
Definition hasInstanceInheritance (node : ClassNode.t) : bool :=
  snd (inheritanceLoop (ClassNode.ancestors node) (false, false)).

(** The get-accessors and set-accessors the lowering collects (lines
    268-270, 320-322). *)
Definition gettersOf (c : ClassNode.t) : list ClassMember.t :=
  filter ClassMember.isGetAccessorDeclaration (ClassNode.getInstanceProperties c).
Definition settersOf (c : ClassNode.t) : list ClassMember.t :=
  filter ClassMember.isSetAccessorDeclaration (ClassNode.getInstanceProperties c).

(** The [while (!ancestorHasGetters && ancestorClass !== undefined)] walk
    (lines 271-283, 323-335): up the chain until an ancestor has an
    accessor of the kind. *)
Fixpoint ancestorLoop (accessors : ClassNode.t -> list ClassMember.t)
         (chain : list ClassNode.t) : bool :=
  match chain with
  | [] => false
  | ancestorClass :: rest =>
      if some (accessors ancestorClass) then true
      else ancestorLoop accessors rest
  end.

Definition ancestorHasGetters (node : ClassNode.t) : bool :=
  ancestorLoop gettersOf (ClassNode.ancestors node).
Definition ancestorHasSetters (node : ClassNode.t) : bool :=
  ancestorLoop settersOf (ClassNode.ancestors node).

(** The instance properties whose initializers become constructor
    statements (lines 187-192). *)
Definition instancePropsOf (node : ClassNode.t) : list ClassMember.t :=
  filter (fun prop => negb (ClassMember.isSetAccessorDeclaration prop))
    (filter (fun prop => negb (ClassMember.isGetAccessorDeclaration prop))
       (filter ClassMember.parentIsClass (ClassNode.getInstanceProperties node))).

Definition hasBody (method : ClassMember.t) : bool :=
  match ClassMember.getBody method with Some _ => true | None => false end.

(** The metamethod trampoline (line 234), after the indentation. *)
Definition trampoline (id metamethod : string) : list Tok :=
  [ Val id; Lit "."; Val metamethod;
    Lit " = function(self, ...) return self:"; Val metamethod;
    Lit (line "(...); end;") ].

(** The three lines of the [new] factory (lines 239-243), each after its
    indentation. *)
Definition factoryHead (id : string) : list Tok :=
  [ Val id; Lit (line ".new = function(...)") ].
Definition factoryBody (id : string) : list Tok :=
  [ Lit "return "; Val id; Lit ".constructor(setmetatable({}, "; Val id;
    Lit (line "), ...);") ].
Definition factoryEnd : list Tok := [ Lit (line "end;") ].

(** The lines of the [__index] function (lines 303-317) and of the
    [__newindex] function (lines 354-367), each without its indentation. *)
Definition indexDispatcherLines (id : string) : list (list Tok) :=
  [ [Lit "local __index = "; Val id; Lit (line ".__index;")];
    [Val id; Lit (line ".__index = function(self, index)")];
    [Lit "local getter = "; Val id; Lit (line "._getters[index];")];
    [Lit (line "if getter then")];
    [Lit (line "return getter(self);")];
    [Lit (line "else")];
    [Lit (line "return __index[index];")];
    [Lit (line "end;")];
    [Lit (line "end;")] ].

Definition newindexDispatcherLines (id : string) : list (list Tok) :=
  [ [Val id; Lit (line ".__newindex = function(self, index, value)")];
    [Lit "local setter = "; Val id; Lit (line "._setters[index];")];
    [Lit (line "if setter then")];
    [Lit (line "setter(self, value);")];
    [Lit (line "else")];
    [Lit (line "rawset(self, index, value);")];
    [Lit (line "end;")];
    [Lit (line "end;")] ].

(** Lines of text, each written after an indentation of its own. *)
Fixpoint indented (indents : list string) (lines : list (list Tok)) : list Tok :=
  match indents, lines with
  | ind :: indents', l :: lines' => Val ind :: l ++ indented indents' lines'
  | _, _ => []
  end.

(** ** Class lowering *)

Section ClassLowering.
Context {collab : Collaborators}.

(** [result += state.indent + ...]: one emitted piece, after the current
    indentation. *)
Definition emit (ts : list Tok) : M (list Tok) :=
  fun st => (st, Ok (Val (indent st) :: ts)).
(** [state.pushIndent()], [state.popIndent()]: nothing is emitted. *)
Definition indentIn : M (list Tok) := fun st => (pushIndent st, Ok []).
Definition indentOut : M (list Tok) := fun st => (popIndent st, Ok []).
(** Statements run in order, their pieces appended. *)
Definition block (ms : list (M (list Tok))) : M (list Tok) :=
  forEach (fun m => m) ms.

(** The outcome of the loop over the heritage types (lines 76-94). *)
Inductive HeritageScan : Type :=
| RoactComponent | RoactPureComponent | RoactSubClass | NotRoact.

Fixpoint scanBaseTypes (baseTypes : list TsType.t) : HeritageScan :=
  match baseTypes with
  | [] => NotRoact
  | baseType :: rest =>
      let baseTypeText := TsType.getText baseType in
      if startsWith baseTypeText ROACT_COMPONENT_TYPE then RoactComponent
      else if startsWith baseTypeText ROACT_PURE_COMPONENT_TYPE then RoactPureComponent
      else if inheritsFromRoact baseType then RoactSubClass
      else scanBaseTypes rest
  end.

(** Lines 66-70: the emitted name, and the check of a written one. *)
Definition resolveName (node : ClassNode.t) : M string :=
  name <- match ClassNode.getName node with
          | Some n => if nonEmpty n then ret n else getNewId
          | None => getNewId
          end ;;
  match ClassNode.getName node with
  | Some n => liftResult (checkReserved name (IdentifierOf n))
  | None => ret tt
  end ;;
  ret name.

(** Lines 98-105. *)
Definition emitOpening (name : string) (node : ClassNode.t) : M (list Tok) :=
  block [ (if ClassNode.isClassExpression node
           then ret [Lit (line "(function()")]
           else result <- emit [Lit (line "do")] ;; hoist name ;; ret result);
          indentIn ].

(** Lines 107-114. *)
Definition lowerBaseClassName (node : ClassNode.t) : M string :=
  match ClassNode.getExtendsTypeNodes node with
  | Some (typeNode :: _) => transpileExpression typeNode
  | _ => ret EmptyString
  end.

(** Lines 142-144. *)
Definition emitSuperAlias (node : ClassNode.t) (baseClassName : string) : M (list Tok) :=
  if hasStaticInheritance node || hasInstanceInheritance node
  then emit [Lit "local super = "; Val baseClassName; Lit (line ";")]
  else ret [].

(** The method loops (lines 159-167, 207-215): [seen] is
    [hasStaticMembers], [hasIndexMembers]; a line feed goes before the
    first method. *)
Fixpoint methodsLoop (one : ClassMember.t -> M (list Tok))
         (methods : list ClassMember.t) (seen : bool) : M (bool * list Tok) :=
  match methods with
  | [] => ret (seen, [])
  | method :: rest =>
      let feed := if seen then [] else [Lit LF] in
      r <- one method ;;
      ' (seen', rs) <- methodsLoop one rest true ;;
      ret (seen', feed ++ r ++ rs)
  end.

(** Lines 146-175. *)
Definition emitStaticTable (id : string) (node : ClassNode.t) : M (list Tok) :=
  let prefix := if ClassNode.isClassExpression node then "local " else EmptyString in
  opening <- emit [Lit prefix; Val id;
                   Lit (if hasStaticInheritance node then " = setmetatable({" else " = {")] ;;
  indentIn ;;
  ' (hasStaticMembers, methods) <-
      methodsLoop (fun method =>
                     ind <- gets indent ;;
                     s <- transpileMethodDeclaration method ;;
                     ret [Val ind; Val s])
                  (filter hasBody (ClassNode.getStaticMethods node)) false ;;
  indentOut ;;
  ind <- gets indent ;;
  ret (opening ++ methods ++
       [ Val (if hasStaticMembers : bool then ind else EmptyString);
         Lit (if hasStaticInheritance node
              then line "}, {__index = super});" else line "};") ]).

(** Lines 186-205: the checks of the instance properties, and their
    initializers as constructor statements. *)
Fixpoint instancePropsLoop (props : list ClassMember.t) : M (list string) :=
  match props with
  | [] => ret []
  | prop :: rest =>
      let propName := ClassMember.getName prop in
      here <- (if nonEmpty propName then
                 liftResult (checkMethodReserved propName (ClassMemberOf prop)) ;;
                 if ClassMember.isInitializerExpressionableNode prop then
                   match ClassMember.getInitializer prop with
                   | Some initializer =>
                       v <- transpileExpression initializer ;;
                       ret ["self." +:+ propName +:+ " = " +:+ v +:+ line ";"]
                   | None => ret []
                   end
                 else ret []
               else ret []) ;;
      more <- instancePropsLoop rest ;;
      ret (here ++ more)
  end.

(** Lines 177-223: the instance table, and [extraInitializers]. *)
Definition emitInstanceTable (id : string) (node : ClassNode.t)
  : M (list Tok * list string) :=
  opening <- emit [Val id;
                   Lit (if hasInstanceInheritance node
                        then ".__index = setmetatable({" else ".__index = {")] ;;
  indentIn ;;
  extraInitializers <- instancePropsLoop (instancePropsOf node) ;;
  ' (hasIndexMembers, methods) <-
      methodsLoop (fun method =>
                     s <- transpileMethodDeclaration method ;;
                     ret [Val s])
                  (filter hasBody (ClassNode.getInstanceMethods node)) false ;;
  indentOut ;;
  ind <- gets indent ;;
  ret (opening ++ methods ++
       [ Val (if hasIndexMembers : bool then ind else EmptyString);
         Lit (if hasInstanceInheritance node
              then line "}, super);" else line "};") ],
       extraInitializers).

(** Lines 225-236. *)
Definition emitMetamethods (id : string) (node : ClassNode.t) : M (list Tok) :=
  forEach
    (fun metamethod =>
       match getClassMethod node metamethod with
       | Some _ =>
           if includes LUA_UNDEFINABLE_METAMETHODS metamethod then
             throw (TranspilerError
                      ("Cannot use undefinable Lua metamethod as identifier '"
                         +:+ metamethod +:+ "' for a class")
                      (ClassNodeOf node) UndefinableMetamethod)
           else emit (trampoline id metamethod)
       | None => ret []
       end)
    LUA_RESERVED_METAMETHODS.

(** Lines 238-244. *)
Definition emitNewFactory (id : string) (node : ClassNode.t) : M (list Tok) :=
  if negb (ClassNode.isAbstract node) then
    block [ emit (factoryHead id);
            indentIn;
            emit (factoryBody id);
            indentOut;
            emit factoryEnd ]
  else ret [].

(** Lines 246-252. *)
Definition emitConstructor (id : string) (node : ClassNode.t)
           (extraInitializers : list string) : M (list Tok) :=
  s <- transpileConstructorDeclaration id (getConstructor node) extraInitializers
         (hasInstanceInheritance node) ;;
  ret [Val s].

(** Lines 254-266. *)
Definition emitStaticProperties (id : string) (node : ClassNode.t) : M (list Tok) :=
  forEach
    (fun prop =>
       let propName := ClassMember.getName prop in
       liftResult (checkMethodReserved propName (ClassMemberOf prop)) ;;
       propValue <- (if ClassMember.isInitializerExpressionableNode prop then
                       match ClassMember.getInitializer prop with
                       | Some initializer =>
                           v <- transpileExpression initializer ;; ret (Val v)
                       | None => ret (Lit "nil")
                       end
                     else ret (Lit "nil")) ;;
       emit [Val id; Lit "."; Val propName; Lit " = "; propValue; Lit (line ";")])
    (ClassNode.getStaticProperties node).

(** Lines 286-302 and 337-353: the accessor table, [table] being
    [_getters] or [_setters]. *)
Definition emitAccessorTable (id table : string) (accessors : list ClassMember.t)
           (ancestorHas : bool) : M (list Tok) :=
  if some accessors then
    indentIn ;;
    entries <- forEach (fun accessor =>
                          s <- transpileAccessorDeclaration accessor
                                 (ClassMember.getName accessor) ;;
                          ret [Val s])
                       accessors ;;
    indentOut ;;
    ind <- gets indent ;;
    let content := [Lit LF] ++ entries ++ [Val ind] in
    if ancestorHas then
      opening <- emit [Val id; Lit ("." +:+ table +:+ " = setmetatable({")] ;;
      ret (opening ++ content ++
           [Lit ("}, { __index = super." +:+ table +:+ line " });")])
    else
      opening <- emit [Val id; Lit ("." +:+ table +:+ " = {")] ;;
      ret (opening ++ content ++ [Lit (line "};")])
  else
    emit [Val id; Lit ("." +:+ table +:+ " = super." +:+ table +:+ line ";")].

(** Lines 303-317: the [__index] function. *)
Definition emitIndexDispatcher (id : string) : M (list Tok) :=
  block [ emit [Lit "local __index = "; Val id; Lit (line ".__index;")];
          emit [Val id; Lit (line ".__index = function(self, index)")];
          indentIn;
          emit [Lit "local getter = "; Val id; Lit (line "._getters[index];")];
          emit [Lit (line "if getter then")];
          indentIn;
          emit [Lit (line "return getter(self);")];
          indentOut;
          emit [Lit (line "else")];
          indentIn;
          emit [Lit (line "return __index[index];")];
          indentOut;
          emit [Lit (line "end;")];
          indentOut;
          emit [Lit (line "end;")] ].

(** Lines 354-367: the [__newindex] function. *)
Definition emitNewindexDispatcher (id : string) : M (list Tok) :=
  block [ emit [Val id; Lit (line ".__newindex = function(self, index, value)")];
          indentIn;
          emit [Lit "local setter = "; Val id; Lit (line "._setters[index];")];
          emit [Lit (line "if setter then")];
          indentIn;
          emit [Lit (line "setter(self, value);")];
          indentOut;
          emit [Lit (line "else")];
          indentIn;
          emit [Lit (line "rawset(self, index, value);")];
          indentOut;
          emit [Lit (line "end;")];
          indentOut;
          emit [Lit (line "end;")] ].

(** Lines 268-318. *)
Definition emitGetters (id : string) (node : ClassNode.t) : M (list Tok) :=
  let getters := gettersOf node in
  if some getters || ancestorHasGetters node then
    block [ emitAccessorTable id "_getters" getters (ancestorHasGetters node);
            emitIndexDispatcher id ]
  else ret [].

(** Lines 320-368. *)
Definition emitSetters (id : string) (node : ClassNode.t) : M (list Tok) :=
  let setters := settersOf node in
  if some setters || ancestorHasSetters node then
    block [ emitAccessorTable id "_setters" setters (ancestorHasSetters node);
            emitNewindexDispatcher id ]
  else ret [].

(** Lines 370-375. *)
Definition emitClosing (node : ClassNode.t) : M (list Tok) :=
  block [ indentOut;
          (if ClassNode.isClassExpression node
           then emit [Lit "end)()"]
           else emit [Lit (line "end;")]) ].

(** Lines 96-223: the block opening, the [super] alias and the two
    tables; returns the text so far and [extraInitializers]. *)
Definition emitTables (name : string) (node : ClassNode.t)
  : M (list Tok * list string) :=
  opening <- emitOpening name node ;;
  baseClassName <- lowerBaseClassName node ;;
  let id := name in
  superAlias <- emitSuperAlias node baseClassName ;;
  staticTable <- emitStaticTable id node ;;
  ' (instanceTable, extraInitializers) <- emitInstanceTable id node ;;
  ret (opening ++ superAlias ++ staticTable ++ instanceTable, extraInitializers).

(** Lines 225-377: metamethods, factory, constructor, static fields,
    accessors, and the end of the block. *)
Definition emitGlue (id : string) (node : ClassNode.t)
           (extraInitializers : list string) : M (list Tok) :=
  block [ emitMetamethods id node;
          emitNewFactory id node;
          emitConstructor id node extraInitializers;
          emitStaticProperties id node;
          emitGetters id node;
          emitSetters id node;
          emitClosing node ].

(** [transpileClass], with the provenance of each piece of its result. *)
Definition transpileClassTokens (node : ClassNode.t) : M (list Tok) :=
  name <- resolveName node ;;
  (if ClassNode.isClassDeclaration node then pushExport name node else ret tt) ;;
  match scanBaseTypes (ClassNode.getBaseTypes node) with
  | RoactComponent =>
      s <- transpileRoactClassDeclaration "Component" name node ;; ret [Val s]
  | RoactPureComponent =>
      s <- transpileRoactClassDeclaration "PureComponent" name node ;; ret [Val s]
  | RoactSubClass =>
      throw (TranspilerError "Derived Classes are not supported in Roact!"
                             (ClassNodeOf node) RoactSubClassesNotSupported)
  | NotRoact =>
      ' (tables, extraInitializers) <- emitTables name node ;;
      glue <- emitGlue name node extraInitializers ;;
      ret (tables ++ glue)
  end.

Definition transpileClass (node : ClassNode.t) : M string :=
  ts <- transpileClassTokens node ;; ret (render ts).

Definition transpileClassDeclaration (node : ClassNode.t) : M string :=
  transpileClass node.
Definition transpileClassExpression (node : ClassNode.t) : M string :=
  transpileClass node.

(** [m] returns when run from [st]. *)
Definition returns {A} (m : M A) (st : TranspilerState) : Prop :=
  exists st' a, m st = (st', Ok a).

(** The other routines do not fail on what the lowering of [node] from
    [st] hands them: the name checks pass on the names of the class, the
    lowering routines return, and a class declaration finds a hoist scope
    once its name is resolved and exported. *)
Record Cooperative (node : ClassNode.t) (st : TranspilerState) : Prop := {
  coop_getNewId : forall s, returns getNewId s;
  coop_checkReserved :
    forall name n,
      ClassNode.getName node = Some n ->
      (nonEmpty n = true -> name = n) ->
      checkReserved name (IdentifierOf n) = Ok tt;
  coop_pushExport : forall name s, returns (pushExport name node) s;
  coop_hoistScope :
    forall name s1 s2,
      ClassNode.isClassExpression node = false ->
      resolveName node st = (s1, Ok name) ->
      pushExport name node s1 = (s2, Ok tt) ->
      hoistStack s2 <> [];
  coop_checkMethodReserved :
    forall m, In m (ClassNode.getAllMembers node) ->
              checkMethodReserved (ClassMember.getName m) (ClassMemberOf m) = Ok tt;
  coop_expression : forall e s, returns (transpileExpression e) s;
  coop_method : forall m s, returns (transpileMethodDeclaration m) s;
  coop_accessor : forall m name s, returns (transpileAccessorDeclaration m name) s;
  coop_constructor :
    forall id c inits inherits s,
      returns (transpileConstructorDeclaration id c inits inherits) s
}.

(** Neither the class nor an ancestor has a method with a non-overridable
    metamethod name. *)
Definition definable (node : ClassNode.t) : Prop :=
  forall m, includes LUA_UNDEFINABLE_METAMETHODS m = true ->
            getClassMethod node m = None.

End ClassLowering.

(** ** Call lowering (src/transpiler/call.ts) *)

Definition STRING_MACRO_METHODS : list string :=
  [ "byte"; "find"; "format"; "gmatch"; "gsub"; "len"; "lower"; "match";
    "rep"; "reverse"; "sub"; "upper" ].

Definition RBX_MATH_CLASSES : list string :=
  [ "CFrame"; "UDim"; "UDim2"; "Vector2"; "Vector2int16"; "Vector3";
    "Vector3int16" ].

(** [dec => isMethodDeclaration(dec) || isMethodSignature(dec)] *)
Definition isMethodDec (dec : SyntaxKind) : bool :=
  SyntaxKind_eqb dec MethodDeclaration || SyntaxKind_eqb dec MethodSignature.

Section CallLowering.
Context {collab : Collaborators}.

(** Lines 132-140. *)
Definition validateMathCall (node : CallExpression.t)
           (subExpTypeName property : string) : M unit :=
  if SyntaxKind_eqb (CallExpression.getParentKind node) ExpressionStatement then
    throw (TranspilerError
             (subExpTypeName +:+ "." +:+ property
                +:+ "() cannot be an expression statement!")
             (CallExpressionOf node) NoMacroMathExpressionStatement)
  else ret tt.

(** Lines 161-188: the member call no macro claimed. *)
Definition defaultMemberCall (node : CallExpression.t) (doNotWrapTupleReturn : bool)
           (expression subExp : Expression) (property accessPath params : string)
  : M string :=
  let symbol := TsType.getSymbol (Expr.getType expression) in
  let isSuper := Expr.isSuperExpression subExp in
  ' (accessPath, params, sep) <-
      (if match symbol with
          | Some sym => existsb isMethodDec (Symbol.getDeclarations sym)
          | None => false
          end
       then
         if isSuper then
           sym <- getSymbolOrThrow (Expr.getType subExp) ;;
           let className := Symbol.getName sym in
           ret (className +:+ ".__index",
                "self" +:+ (if nonEmpty params then ", " else EmptyString) +:+ params,
                ".")
         else ret (accessPath, params, ":")
       else ret (accessPath, params, ".")) ;;
  let result := accessPath +:+ sep +:+ property +:+ "(" +:+ params +:+ ")" in
  ret (if negb doNotWrapTupleReturn && isTupleType (CallExpression.getReturnType node)
       then "{ " +:+ result +:+ " }"
       else result).

(** Lines 91-159: the forms selected by the name of the receiver's type
    symbol; a form that does not apply falls through to the next, and at
    last to the default member call. *)
Definition namedTypeCall (node : CallExpression.t) (subExpTypeName : string)
           (property accessPath params : string) (fallThrough : M string)
  : M string :=
  if (subExpTypeName =? "Promise") && (property =? "then") then
    ret (accessPath +:+ ":andThen(" +:+ params +:+ ")")
  else if (subExpTypeName =? "SymbolConstructor") && (property =? "for") then
    ret (accessPath +:+ ".getFor(" +:+ params +:+ ")")
  else if (subExpTypeName =? "Map") || (subExpTypeName =? "ReadonlyMap")
          || (subExpTypeName =? "WeakMap") then
    let paramStr := if nonEmpty params then accessPath +:+ ", " +:+ params
                    else accessPath in
    modify (set_usesTSLibrary true) ;;
    ret ("TS.map_" +:+ property +:+ "(" +:+ paramStr +:+ ")")
  else if (subExpTypeName =? "Set") || (subExpTypeName =? "ReadonlySet")
          || (subExpTypeName =? "WeakSet") then
    let paramStr := if nonEmpty params then accessPath +:+ ", " +:+ params
                    else accessPath in
    modify (set_usesTSLibrary true) ;;
    ret ("TS.set_" +:+ property +:+ "(" +:+ paramStr +:+ ")")
  else if subExpTypeName =? "ObjectConstructor" then
    modify (set_usesTSLibrary true) ;;
    ret ("TS.Object_" +:+ property +:+ "(" +:+ params +:+ ")")
  else if includes RBX_MATH_CLASSES subExpTypeName then
    if property =? "add" then
      validateMathCall node subExpTypeName property ;;
      ret ("(" +:+ accessPath +:+ " + (" +:+ params +:+ "))")
    else if property =? "sub" then
      validateMathCall node subExpTypeName property ;;
      ret ("(" +:+ accessPath +:+ " - (" +:+ params +:+ "))")
    else if property =? "mul" then
      validateMathCall node subExpTypeName property ;;
      ret ("(" +:+ accessPath +:+ " * (" +:+ params +:+ "))")
    else if property =? "div" then
      validateMathCall node subExpTypeName property ;;
      ret ("(" +:+ accessPath +:+ " / (" +:+ params +:+ "))")
    else fallThrough
  else fallThrough.

Definition transpilePropertyCallExpression (node : CallExpression.t)
           (doNotWrapTupleReturn : bool) : M string :=
  let expression := CallExpression.getExpression node in
  match expression with
  | PropertyAccessExpression subExp property _ =>
      validateApiAccess (IdentifierOf property) ;;
      let subExpType := Expr.getType subExp in
      accessPath <- transpileExpression subExp ;;
      params <- transpileArguments (CallExpression.getArguments node) ;;
      if isArrayType subExpType then
        let paramStr := if nonEmpty params then accessPath +:+ ", " +:+ params
                        else accessPath in
        modify (set_usesTSLibrary true) ;;
        ret ("TS.array_" +:+ property +:+ "(" +:+ paramStr +:+ ")")
      else if TsType.isString subExpType || TsType.isStringLiteral subExpType then
        let paramStr := if nonEmpty params then accessPath +:+ ", " +:+ params
                        else accessPath in
        if includes STRING_MACRO_METHODS property then
          ret ("string." +:+ property +:+ "(" +:+ paramStr +:+ ")")
        else
          modify (set_usesTSLibrary true) ;;
          ret ("TS.string_" +:+ property +:+ "(" +:+ paramStr +:+ ")")
      else
        let default :=
          defaultMemberCall node doNotWrapTupleReturn expression subExp property
                            accessPath params in
        match TsType.getSymbol subExpType with
        | Some subExpTypeSym =>
            namedTypeCall node (Symbol.getEscapedName subExpTypeSym) property
                          accessPath params default
        | None => default
        end
  | _ =>
      throw (TranspilerError "Expected PropertyAccessExpression"
                             (CallExpressionOf node) ExpectedPropertyAccessExpression)
  end.

Definition transpileCallExpression (node : CallExpression.t)
           (doNotWrapTupleReturn : bool) : M string :=
  let exp := CallExpression.getExpression node in
  match exp with
  | PropertyAccessExpression _ _ _ =>
      transpilePropertyCallExpression node doNotWrapTupleReturn
  | SuperExpression _ =>
      params <- transpileArguments (CallExpression.getArguments node) ;;
      let params := if nonEmpty params then ", " +:+ params else params in
      let params := "self" +:+ params in
      sym <- getSymbolOrThrow (Expr.getType exp) ;;
      let className := Symbol.getName sym in
      ret (className +:+ ".constructor(" +:+ params +:+ ")")
  | OtherExpression _ _ =>
      callPath <- transpileExpression exp ;;
      params <- transpileArguments (CallExpression.getArguments node) ;;
      let result := callPath +:+ "(" +:+ params +:+ ")" in
      ret (if negb doNotWrapTupleReturn && isTupleType (CallExpression.getReturnType node)
           then "{ " +:+ result +:+ " }"
           else result)
  end.

End CallLowering.

(** ** The source-file wrapper (src/transpiler/sourceFile.ts) *)

Definition IMP_STR : string :=
  "local TS = require(" +:+ LF
  +:+ TAB +:+ "game:GetService(" +:+ DQUOTE +:+ "ReplicatedStorage" +:+ DQUOTE +:+ ")" +:+ LF
  +:+ TAB +:+ TAB +:+ ":WaitForChild(" +:+ DQUOTE +:+ "RobloxTS" +:+ DQUOTE +:+ ")" +:+ LF
  +:+ TAB +:+ TAB +:+ ":WaitForChild(" +:+ DQUOTE +:+ "Include" +:+ DQUOTE +:+ ")" +:+ LF
  +:+ TAB +:+ TAB +:+ ":WaitForChild(" +:+ DQUOTE +:+ "RuntimeLib" +:+ DQUOTE +:+ ")" +:+ LF
  +:+ ");" +:+ LF.

Definition ScriptType_eqb (a b : ScriptType) : bool :=
  match a, b with
  | ScriptServer, ScriptServer | ScriptClient, ScriptClient
  | ScriptModule, ScriptModule => true
  | _, _ => false
  end.

(** Lines 29-41: the loop over the export assignments of the file. *)
Fixpoint exportEqualsLoop (node : SourceFile.t) (descendants : list ExportAssignment)
         (hasExportEquals : bool) : M bool :=
  match descendants with
  | [] => ret hasExportEquals
  | Descendant :: rest =>
      if hasExportEquals then
        throw (TranspilerError
                 "ModuleScript contains multiple ExportEquals. You can only do `export = ` once."
                 (SourceFileOf node) MultipleExportEquals)
      else
        exportEqualsLoop node rest
          (if isExportEquals Descendant then true else hasExportEquals)
  end.

Section SourceFileWrapper.
Context {collab : Collaborators}.

Definition transpileSourceFile (node : SourceFile.t) : M string :=
  modify (set_scriptContext (getScriptContext node)) ;;
  let scriptType := getScriptType node in
  body <- transpileStatementedNode node ;;
  let result := EmptyString +:+ body in
  module <- gets isModule ;;
  result <-
    (if module : bool then
       if negb (ScriptType_eqb scriptType ScriptModule) then
         throw (TranspilerError "Attempted to export in a non-ModuleScript!"
                                (SourceFileOf node) ExportInNonModuleScript)
       else
         hasExportEquals <-
           exportEqualsLoop node (SourceFile.getExportAssignments node) false ;;
         ind <- gets indent ;;
         let result :=
           if hasExportEquals : bool
           then ind +:+ line "local _exports;" +:+ result
           else ind +:+ line "local _exports = {};" +:+ result in
         ret (result +:+ ind +:+ line "return _exports;")
     else
       if ScriptType_eqb scriptType ScriptModule then
         ind <- gets indent ;;
         ret (result +:+ ind +:+ line "return nil;")
       else ret result) ;;
  uses <- gets usesTSLibrary ;;
  ind <- gets indent ;;
  ret (if uses : bool then ind +:+ IMP_STR +:+ result else result).

End SourceFileWrapper.

(** ** The [typeof] lowering (the second part of src/transpiler/sourceFile.ts) *)

(** [ts.TypeOfExpression] *)
Module TypeOfExpression.
Record t : Type := mk {
  getExpression : Expression
}.
End TypeOfExpression.

Section TypeOfLowering.
Context {collab : Collaborators}.

Definition transpileTypeOfExpression (node : TypeOfExpression.t) : M string :=
  expStr <- transpileExpression (TypeOfExpression.getExpression node) ;;
  modify (set_usesTSLibrary true) ;;
  ret ("TS.typeof(" +:+ expStr +:+ ")").

End TypeOfLowering.

(** ** The literal skeleton of a lowered class

    The literals class lowering writes, in order, as the class alone
    determines them: the text between them is interpolated. *)

Definition tableLits (opening : string) (methods : list ClassMember.t)
           (closing : string) : list string :=
  [opening] ++ (if some methods then [LF] else []) ++ [closing].

Definition staticPropertyLits (prop : ClassMember.t) : list string :=
  ["."; " = "]
  ++ (if ClassMember.isInitializerExpressionableNode prop then
        match ClassMember.getInitializer prop with
        | Some _ => []
        | None => ["nil"]
        end
      else ["nil"])
  ++ [line ";"].

Definition accessorTableLits (table : string) (accessors : list ClassMember.t)
           (ancestorHas : bool) : list string :=
  if some accessors then
    if ancestorHas then
      [ "." +:+ table +:+ " = setmetatable({"; LF;
        "}, { __index = super." +:+ table +:+ line " });" ]
    else [ "." +:+ table +:+ " = {"; LF; line "};" ]
  else [ "." +:+ table +:+ " = super." +:+ table +:+ line ";" ].

Definition tablesLits (node : ClassNode.t) : list string :=
  [ if ClassNode.isClassExpression node then line "(function()" else line "do" ]
  ++ (if hasStaticInheritance node || hasInstanceInheritance node
      then ["local super = "; line ";"] else [])
  ++ (if ClassNode.isClassExpression node then "local " else EmptyString)
     :: tableLits (if hasStaticInheritance node then " = setmetatable({" else " = {")
                  (filter hasBody (ClassNode.getStaticMethods node))
                  (if hasStaticInheritance node
                   then line "}, {__index = super});" else line "};")
  ++ tableLits (if hasInstanceInheritance node
                then ".__index = setmetatable({" else ".__index = {")
               (filter hasBody (ClassNode.getInstanceMethods node))
               (if hasInstanceInheritance node then line "}, super);" else line "};").

Definition glueLits (node : ClassNode.t) : list string :=
  flat_map (fun metamethod =>
              match getClassMethod node metamethod with
              | Some _ => lits (trampoline EmptyString metamethod)
              | None => []
              end)
           LUA_RESERVED_METAMETHODS
  ++ (if ClassNode.isAbstract node then []
      else lits (factoryHead EmptyString ++ factoryBody EmptyString ++ factoryEnd))
  ++ flat_map staticPropertyLits (ClassNode.getStaticProperties node)
  ++ (if some (gettersOf node) || ancestorHasGetters node
      then accessorTableLits "_getters" (gettersOf node) (ancestorHasGetters node)
           ++ flat_map lits (indexDispatcherLines EmptyString)
      else [])
  ++ (if some (settersOf node) || ancestorHasSetters node
      then accessorTableLits "_setters" (settersOf node) (ancestorHasSetters node)
           ++ flat_map lits (newindexDispatcherLines EmptyString)
      else [])
  ++ [ if ClassNode.isClassExpression node then "end)()" else line "end;" ].

Definition classLits (node : ClassNode.t) : list string :=
  tablesLits node ++ glueLits node.

(** ** The Lua of the two dispatchers

    The fragment of Lua the [__index] and [__newindex] functions are
    written in: its syntax, its printing, and what running a function body
    does, over any values with a truth test, field access and indexing. *)









Section LuaRun.
Variable Value : Type.
(** neither [nil] nor [false] *)
Variable truthy : Value -> bool.
(** [t.name] and [t[key]] *)
Variable getField : Value -> string -> Value.
Variable getIndex : Value -> Value -> Value.








End LuaRun.

(** ** The emitted text the properties speak of *)

(** [<id>.<metamethod> = function(self, ...) return self:<metamethod>(...); end;] *)
Definition trampolineText (id metamethod : string) : string :=
  id +:+ "." +:+ metamethod +:+ " = function(self, ...) return self:"
     +:+ metamethod +:+ line "(...); end;".

(** The [new] factory, its three lines after the indentations [i1], [i2],
    [i3]. *)
Definition factoryText (i1 i2 i3 id : string) : string :=
  i1 +:+ id +:+ line ".new = function(...)"
  +:+ i2 +:+ "return " +:+ id +:+ ".constructor(setmetatable({}, " +:+ id
  +:+ line "), ...);"
  +:+ i3 +:+ line "end;".



(** A class declares a static member, an instance member, an instance
    get-accessor, an instance set-accessor. *)
Definition declaresStaticMember (c : ClassNode.t) : Prop :=
  ClassNode.getStaticMembers c <> [].
Definition declaresInstanceMember (c : ClassNode.t) : Prop :=
  ClassNode.getInstanceMembers c <> [].
Definition declaresInstanceAccessor (kind : SyntaxKind) (c : ClassNode.t) : Prop :=
  exists m, In m (ClassNode.getAllMembers c)
            /\ ClassMember.getKind m = kind /\ ClassMember.isStatic m = false.

(** A literal that wires nothing to a base class: it does not name
    [super], and names [setmetatable] only as the [new] factory does. *)
Definition unwired (s : string) : Prop :=
  occursInb "super" s = false
  /\ (occursInb "setmetatable" s = true -> s = ".constructor(setmetatable({}, ").

(** ** The call forms the properties speak of *)

(** One of the forms selected by the name of the receiver's type symbol
    (lines 96-158) applies to the member [property]. *)
Definition namedTypeForm (subExpTypeName property : string) : bool :=
  ((subExpTypeName =? "Promise") && (property =? "then"))
  || ((subExpTypeName =? "SymbolConstructor") && (property =? "for"))
  || includes ["Map"; "ReadonlyMap"; "WeakMap"; "Set"; "ReadonlySet"; "WeakSet";
               "ObjectConstructor"] subExpTypeName
  || (includes RBX_MATH_CLASSES subExpTypeName
      && includes ["add"; "sub"; "mul"; "div"] property).

(** Section "Collaborators" apart, whether a member call on a receiver of
    type [subExpType] is left to the default member call: the receiver is
    not array-like, not a string, and no named-type form applies. *)
Definition leftToDefault (arrayLike : bool) (subExpType : TsType.t)
           (property : string) : bool :=
  negb arrayLike
  && negb (TsType.isString subExpType || TsType.isStringLiteral subExpType)
  && match TsType.getSymbol subExpType with
     | Some subExpTypeSym =>
         negb (namedTypeForm (Symbol.getEscapedName subExpTypeSym) property)
     | None => true
     end.

(** [{ <result> }] when the return type is a tuple type and wrapping is not
    suppressed (lines 43-45, 185-187). *)
Definition wrapped (doNotWrapTupleReturn tuple : bool) (result : string) : string :=
  if negb doNotWrapTupleReturn && tuple then "{ " +:+ result +:+ " }" else result.

(** The operator of a math macro. *)
Definition mathOperator (property : string) : option string :=
  if property =? "add" then Some "+"
  else if property =? "sub" then Some "-"
  else if property =? "mul" then Some "*"
  else if property =? "div" then Some "/"
  else None.

(** ** The export assignments the properties speak of *)

(** How many of the export assignments are [export =]. *)
Definition countExportEquals (descendants : list ExportAssignment) : nat :=
  List.length (filter isExportEquals descendants).

(** Some export assignment, of either form, comes after an [export =]. *)
Fixpoint followsExportEquals (descendants : list ExportAssignment) : bool :=
  match descendants with
  | [] => false
  | d :: rest => if isExportEquals d then some rest else followsExportEquals rest
  end.

(** ** A small instance of the rest of the transpiler

    Concrete collaborators, for running the lowering on sample input: Lua
    keywords are refused as names, expressions lower to their text, and the
    indentation is a run of tabs. *)

Module Demo.

Definition LUA_KEYWORDS : list string :=
  [ "and"; "break"; "do"; "else"; "elseif"; "end"; "false"; "for";
    "function"; "if"; "in"; "local"; "nil"; "not"; "or"; "repeat";
    "return"; "then"; "true"; "until"; "while" ].

Definition check (name : string) (node : Node) : Result unit :=
  if includes LUA_KEYWORDS name
  then Throw (TranspilerError ("Cannot use '" +:+ name +:+ "' as identifier")
                              node (CollaboratorErrorType 0))
  else Ok tt.

Fixpoint exprText (e : Expression) : string :=
  match e with
  | PropertyAccessExpression sub name _ => exprText sub +:+ "." +:+ name
  | SuperExpression _ => "super"
  | OtherExpression text _ => text
  end.

Definition newId : M string :=
  fun st =>
    (mkState (indent st) (hoistStack st) (usesTSLibrary st) (isModule st)
             (scriptContext st) (S (idCounter st)) (exports st),
     Ok ("_" +:+ NilZero.string_of_uint (Nat.to_uint (idCounter st)))).

Definition export (name : string) (node : ClassNode.t) : M unit :=
  fun st =>
    (mkState (indent st) (hoistStack st) (usesTSLibrary st) true
             (scriptContext st) (idCounter st) (exports st ++ [name]),
     Ok tt).

Definition popTab (s : string) : string :=
  match s with
  | EmptyString => EmptyString
  | String _ s' => s'
  end.

Definition symbolNamed (name : string) (ty : TsType.t) : bool :=
  match TsType.getSymbol ty with
  | Some sym => Symbol.getName sym =? name
  | None => false
  end.

Definition collaborators : Collaborators := {|
  checkReserved := check;
  checkMethodReserved := check;
  inheritsFromRoact := fun ty => occursInb "Roact" (TsType.getText ty);
  ROACT_COMPONENT_TYPE := "Roact.Component";
  ROACT_PURE_COMPONENT_TYPE := "Roact.PureComponent";
  transpileAccessorDeclaration := fun accessor name =>
    ind <- gets indent ;;
    ret (ind +:+ name +:+ line " = function(self) end;");
  transpileConstructorDeclaration := fun id ctor extraInitializers inherits =>
    ind <- gets indent ;;
    ret (ind +:+ id +:+ ".constructor = function(self, ...) "
           +:+ String.concat EmptyString extraInitializers +:+ line "return self; end;");
  transpileExpression := fun e => ret (exprText e);
  transpileMethodDeclaration := fun method =>
    ret (ClassMember.getName method +:+ line " = function(self) end;");
  transpileRoactClassDeclaration := fun tag name node =>
    ret ("local " +:+ name +:+ " = Roact." +:+ tag +:+ ":extend(" +:+ DQUOTE
           +:+ name +:+ DQUOTE +:+ line ");");
  transpileArguments := fun args => ret (String.concat ", " (map exprText args));
  validateApiAccess := fun _ => ret tt;
  transpileStatementedNode := fun file =>
    modify (set_isModule (some (SourceFile.getExportAssignments file))) ;;
    ret (line ("-- " +:+ SourceFile.getFilePath file));
  getNewId := newId;
  pushExport := export;
  pushIndent := fun st => set_indent (indent st +:+ TAB) st;
  popIndent := fun st => set_indent (popTab (indent st)) st;
  isArrayType := symbolNamed "Array";
  isTupleType := fun ty => startsWith (TsType.getText ty) "[";
  getScriptContext := fun _ => ContextNone;
  getScriptType := fun file =>
    if occursInb ".server." (SourceFile.getFilePath file) then ScriptServer
    else if occursInb ".client." (SourceFile.getFilePath file) then ScriptClient
    else ScriptModule
|}.

(** A state to start from: no indentation, one hoist scope. *)
Definition start : TranspilerState :=
  mkState EmptyString [[]] false false ContextNone 0 [].

Definition anyType : TsType.t := TsType.mk "any" false false None.
Definition typeNamed (name : string) : TsType.t :=
  TsType.mk name false false (Some (Symbol.mk name name [])).
Definition ident (text : string) : Expression := OtherExpression text anyType.

Definition method (name : string) (static : bool) : ClassMember.t :=
  ClassMember.mk MethodDeclaration name static (Some "{}") None.
Definition accessor (kind : SyntaxKind) (name : string) (static : bool) : ClassMember.t :=
  ClassMember.mk kind name static (Some "{}") None.
Definition field (name : string) (static : bool) (init : option Expression)
  : ClassMember.t :=
  ClassMember.mk PropertyDeclaration name static None init.

(** [class <name> { <members> }], a declaration with no heritage. *)
Definition class (name : string) (abstract : bool) (members : list ClassMember.t)
  : ClassNode.t :=
  ClassNode.mk ClassDeclaration (Some name) [] None None members [] abstract.

(** [class <name> extends <base> { <members> }] *)
Definition subclass (name : string) (base : ClassNode.t) (baseName : string)
           (members : list ClassMember.t) : ClassNode.t :=
  ClassNode.mk ClassDeclaration (Some name) [typeNamed baseName]
               (Some [ident baseName]) (Some base) members [] false.

(** Sample classes. *)
Definition vec : ClassNode.t :=
  class "Vec" false
        [ method "__add" false; field "x" false (Some (ident "0"));
          accessor GetAccessor "len" false; accessor SetAccessor "len" false ].
Definition indexer : ClassNode.t := class "Indexer" false [ method "__index" false ].
Definition shape : ClassNode.t := class "Shape" true [ method "area" false ].
Definition animal : ClassNode.t :=
  class "Animal" false [ field "legs" false (Some (ident "4")) ].
Definition dog : ClassNode.t := subclass "Dog" animal "Animal" [].

(** Sample calls: [arr.map(f)], [Object.keys(o)], [v.add(w)] as an operand
    and as a statement, [pair()] returning a tuple, [super(x)],
    [super.speak(x)] in a class extending [Animal], and [super.set(k, v)]
    in a class extending [Map]. *)
Definition methodType : TsType.t :=
  TsType.mk "(x: any) => void" false false
            (Some (Symbol.mk "speak" "speak" [MethodDeclaration])).
Definition arrMap : CallExpression.t :=
  CallExpression.mk
    (PropertyAccessExpression (OtherExpression "arr" (typeNamed "Array")) "map" methodType)
    [ident "f"] (typeNamed "Array") (OtherKind 0).
Definition objectKeys : CallExpression.t :=
  CallExpression.mk
    (PropertyAccessExpression (OtherExpression "Object" (typeNamed "ObjectConstructor"))
                              "keys" methodType)
    [ident "o"] (typeNamed "Array") (OtherKind 0).
Definition vecAdd (parent : SyntaxKind) : CallExpression.t :=
  CallExpression.mk
    (PropertyAccessExpression (OtherExpression "v" (typeNamed "Vector3")) "add" methodType)
    [ident "w"] (typeNamed "Vector3") parent.
Definition pairCall : CallExpression.t :=
  CallExpression.mk (ident "pair") [] (TsType.mk "[number, string]" false false None)
                    (OtherKind 0).
Definition superCall : CallExpression.t :=
  CallExpression.mk (SuperExpression (typeNamed "Animal")) [ident "x"] anyType
                    ExpressionStatement.
Definition superSpeak : CallExpression.t :=
  CallExpression.mk
    (PropertyAccessExpression (SuperExpression (typeNamed "Animal")) "speak" methodType)
    [ident "x"] anyType ExpressionStatement.
Definition superMapSet : CallExpression.t :=
  CallExpression.mk
    (PropertyAccessExpression (SuperExpression (typeNamed "Map")) "set" methodType)
    [ident "k"; ident "v"] anyType ExpressionStatement.

(** Sample files: two [export =]; one [export =] followed by an
    [export default]; a single [export =]. *)
Definition twoExportEquals : SourceFile.t :=
  SourceFile.mk "shared/twice.ts" [mkExportAssignment true; mkExportAssignment true].
Definition exportEqualsThenDefault : SourceFile.t :=
  SourceFile.mk "shared/mixed.ts" [mkExportAssignment true; mkExportAssignment false].
Definition oneExportEquals : SourceFile.t :=
  SourceFile.mk "shared/once.ts" [mkExportAssignment true].

End Demo.

(** ** More of what the properties speak of *)

Definition isSome {A} (o : option A) : bool :=
  match o with Some _ => true | None => false end.

(** The class and its ancestors, nearest first. *)
Definition lineage (node : ClassNode.t) : list ClassNode.t :=
  node :: ClassNode.ancestors node.

(** The receiver followed by the arguments, as the macros pass them
    ([paramStr], lines 71-74, 80-83, 110-113, 119-122). *)
Definition receiverFirst (accessPath params : string) : string :=
  if nonEmpty params then accessPath +:+ ", " +:+ params else accessPath.

(** The member resolves to a method declaration or signature (lines
    166-171). *)
Definition resolvesToMethod (expression : Expression) : bool :=
  match TsType.getSymbol (Expr.getType expression) with
  | Some sym => existsb isMethodDec (Symbol.getDeclarations sym)
  | None => false
  end.

(** How the default member call reaches the member of a receiver other
    than [super] (lines 165-182): with a colon when the member resolves to
    a method declaration or signature, with a dot otherwise. *)
Definition memberSeparator (expression : Expression) : string :=
  match TsType.getSymbol (Expr.getType expression) with
  | Some sym => if existsb isMethodDec (Symbol.getDeclarations sym) then ":" else "."
  | None => "."
  end.

(** A property that can take an initializer and has one. *)
Definition initialized (prop : ClassMember.t) : bool :=
  ClassMember.isInitializerExpressionableNode prop
  && isSome (ClassMember.getInitializer prop).

(** The top scope of the hoist stack with [name] added. *)
Definition hoisted (name : string) (stack : list (list string)) : list (list string) :=
  match rev stack with
  | [] => stack
  | top :: below => rev (setAdd name top :: below)
  end.

(** The import line is written before [text] when the runtime library was
    used (lines 54-56). *)
Definition withImport (st : TranspilerState) (text : string) : string :=
  if usesTSLibrary st then indent st +:+ IMP_STR +:+ text else text.

Section Preservation.
Context {collab : Collaborators}.

(** The routines the lowering of the class [node] calls keep the property
    [P] of the state whenever they return. *)
Record Preserves (P : TranspilerState -> Prop) (node : ClassNode.t) : Prop := {
  pres_getNewId :
    forall s s' name, P s -> getNewId s = (s', Ok name) -> P s';
  pres_pushExport :
    forall name s s', P s -> pushExport name node s = (s', Ok tt) -> P s';
  pres_expression :
    forall e s s' v, P s -> transpileExpression e s = (s', Ok v) -> P s';
  pres_method :
    forall m s s' v, P s -> transpileMethodDeclaration m s = (s', Ok v) -> P s';
  pres_accessor :
    forall m name s s' v,
      P s -> transpileAccessorDeclaration m name s = (s', Ok v) -> P s';
  pres_constructor :
    forall id c inits inherits s s' v,
      P s -> transpileConstructorDeclaration id c inits inherits s = (s', Ok v) -> P s'
}.

End Preservation.

(** An ancestor of the class declares an instance accessor of the kind. *)
Definition inheritsInstanceAccessor (kind : SyntaxKind) (node : ClassNode.t) : Prop :=
  exists a, In a (ClassNode.ancestors node) /\ declaresInstanceAccessor kind a.

(** The three forms of an accessor table (lines 286-302, 337-353), [table]
    being [_getters] or [_setters]: a table of the entries; a table of the
    entries whose metatable looks up the table of [super]; the table of
    [super] itself. *)
Definition plainAccessorTable (id table ind : string) (entries : list Tok) : list Tok :=
  [Val ind; Val id; Lit ("." +:+ table +:+ " = {"); Lit LF]
  ++ entries ++ [Val ind; Lit (line "};")].
Definition chainedAccessorTable (id table ind : string) (entries : list Tok) : list Tok :=
  [Val ind; Val id; Lit ("." +:+ table +:+ " = setmetatable({"); Lit LF]
  ++ entries
  ++ [Val ind; Lit ("}, { __index = super." +:+ table +:+ line " });")].
Definition sharedAccessorTable (id table ind : string) : list Tok :=
  [Val ind; Val id; Lit ("." +:+ table +:+ " = super." +:+ table +:+ line ";")].

(** The assignment of a static property (line 265), after the indentation
    [ind]. *)
Definition staticPropertyLine (id : string) (prop : ClassMember.t) (ind : string)
           (value : Tok) : list Tok :=
  [Val ind; Val id; Lit "."; Val (ClassMember.getName prop); Lit " = "; value;
   Lit (line ";")].

(** The pieces [segment] are written one after the other, and their text
    is in the output. *)
Definition segmentWritten (segment toks : list Tok) (out : string) : Prop :=
  exists pre post, toks = pre ++ segment ++ post /\ occursIn (render segment) out.

Section Written.
Context {collab : Collaborators}.

(** The entries of an accessor table: what the accessors lower to, under
    their names, in order. *)
Definition accessorEntries (accessors : list ClassMember.t) (entries : list Tok) : Prop :=
  Forall2 (fun accessor entry =>
             exists text s s',
               transpileAccessorDeclaration accessor (ClassMember.getName accessor) s
               = (s', Ok text)
               /\ entry = Val text)
          accessors entries.

(** The accessor table of the class [node], emitted as [id], in the
    pieces [toks] of the output [out]: which of the three forms is written
    follows from the instance accessors of the kind that the class
    declares ([accessors], in order) and that its ancestors declare; with
    neither, no literal of the output names the table; otherwise one of
    the three assignments is written, and only one. *)
Definition accessorTableWritten (kind : SyntaxKind) (table : string)
           (accessors : list ClassMember.t) (node : ClassNode.t) (id : string)
           (toks : list Tok) (out : string) : Prop :=
  (declaresInstanceAccessor kind node -> ~ inheritsInstanceAccessor kind node ->
   exists ind entries,
     accessorEntries accessors entries
     /\ segmentWritten (plainAccessorTable id table ind entries) toks out)
  /\ (declaresInstanceAccessor kind node -> inheritsInstanceAccessor kind node ->
      exists ind entries,
        accessorEntries accessors entries
        /\ segmentWritten (chainedAccessorTable id table ind entries) toks out)
  /\ (~ declaresInstanceAccessor kind node -> inheritsInstanceAccessor kind node ->
      exists ind, segmentWritten (sharedAccessorTable id table ind) toks out)
  /\ (~ declaresInstanceAccessor kind node -> ~ inheritsInstanceAccessor kind node ->
      Forall (fun literal => occursInb table literal = false) (lits toks))
  /\ (declaresInstanceAccessor kind node \/ inheritsInstanceAccessor kind node ->
      countLit ("." +:+ table +:+ " = {") toks
      + countLit ("." +:+ table +:+ " = setmetatable({") toks
      + countLit ("." +:+ table +:+ " = super." +:+ table +:+ line ";") toks
      = 1).

(** The assignment written for the static property [prop] of the class
    emitted as [id]: [<id>.<name> = <value>;], the value being [nil] when
    the property has no initializer, and what its initializer lowers to
    when it has one. *)
Definition staticPropertyWritten (id : string) (prop : ClassMember.t)
           (assignment : list Tok) : Prop :=
  exists ind value,
    assignment = staticPropertyLine id prop ind value
    /\ (initialized prop = false -> value = Lit "nil")
    /\ (initialized prop = true ->
        exists initializer v s s',
          ClassMember.getInitializer prop = Some initializer
          /\ transpileExpression initializer s = (s', Ok v)
          /\ value = Val v).

End Written.

(** ** More sample input *)

Module Sample.

Definition stringType : TsType.t := TsType.mk "string" true false None.
Definition fieldType : TsType.t :=
  TsType.mk "() => void" false false
            (Some (Symbol.mk "callback" "callback" [PropertyDeclaration])).

(** [<receiver>.<name>(<args>)] *)
Definition memberCall (receiver : Expression) (name : string) (memberType : TsType.t)
           (args : list Expression) (parent : SyntaxKind) : CallExpression.t :=
  CallExpression.mk (PropertyAccessExpression receiver name memberType) args
                    Demo.anyType parent.

Definition receiver (text typeName : string) : Expression :=
  OtherExpression text (Demo.typeNamed typeName).

(** [s.sub(1, 2)] and [s.split(sep)] on a string [s]. *)
Definition strSub : CallExpression.t :=
  memberCall (OtherExpression "s" stringType) "sub" Demo.methodType
             [Demo.ident "1"; Demo.ident "2"] (OtherKind 0).
Definition strSplit : CallExpression.t :=
  memberCall (OtherExpression "s" stringType) "split" Demo.methodType
             [Demo.ident "sep"] (OtherKind 0).

(** [m.get(k)] on a [Map], [seen.has(x)] on a [Set], [p.then(f)] on a
    [Promise], [Symbol.for(k)]. *)
Definition mapGet : CallExpression.t :=
  memberCall (receiver "m" "Map") "get" Demo.methodType [Demo.ident "k"] (OtherKind 0).
Definition setHas : CallExpression.t :=
  memberCall (receiver "seen" "Set") "has" Demo.methodType [Demo.ident "x"] (OtherKind 0).
Definition promiseThen : CallExpression.t :=
  memberCall (receiver "p" "Promise") "then" Demo.methodType [Demo.ident "f"]
             ExpressionStatement.
Definition symbolFor : CallExpression.t :=
  memberCall (receiver "Symbol" "SymbolConstructor") "for" Demo.methodType
             [Demo.ident "k"] (OtherKind 0).

(** [v.Dot(w);] on a [Vector3], as a statement. *)
Definition vecDot : CallExpression.t :=
  memberCall (receiver "v" "Vector3") "Dot" Demo.methodType [Demo.ident "w"]
             ExpressionStatement.

(** [obj.run(x)], [run] a method, and [obj.callback(x)], [callback] a
    property holding a function. *)
Definition methodCall : CallExpression.t :=
  memberCall (receiver "obj" "Runner") "run" Demo.methodType [Demo.ident "x"] (OtherKind 0).
Definition callbackCall : CallExpression.t :=
  memberCall (receiver "obj" "Runner") "callback" fieldType [Demo.ident "x"] (OtherKind 0).

(** [obj.pair()] returning a tuple, [pair] a method. *)
Definition pairMethod : CallExpression.t :=
  CallExpression.mk
    (PropertyAccessExpression (receiver "obj" "Runner") "pair" Demo.methodType)
    [] (TsType.mk "[number, string]" false false None) (OtherKind 0).

(** [arr.pop()] returning a tuple, on an array. *)
Definition arrPop : CallExpression.t :=
  CallExpression.mk
    (PropertyAccessExpression (receiver "arr" "Array") "pop" Demo.methodType)
    [] (TsType.mk "[number, string]" false false None) (OtherKind 0).

(** [super(x)] where the base class is an expression of type [any]. *)
Definition superAny : CallExpression.t :=
  CallExpression.mk (SuperExpression Demo.anyType) [Demo.ident "x"] Demo.anyType
                    ExpressionStatement.

(** [typeof x] *)
Definition typeofX : TypeOfExpression.t := TypeOfExpression.mk (Demo.ident "x").

(** A state in which the runtime library was already used. *)
Definition usedLibrary : TranspilerState := set_usesTSLibrary true Demo.start.

(** Sample files: a server script that exports, a server script that does
    not, a module that exports nothing, a module with an [export default]. *)
Definition serverExports : SourceFile.t :=
  SourceFile.mk "server/main.server.ts" [mkExportAssignment true; mkExportAssignment true].
Definition serverPlain : SourceFile.t := SourceFile.mk "server/main.server.ts" [].
Definition moduleNoExports : SourceFile.t := SourceFile.mk "shared/util.ts" [].
Definition exportDefault : SourceFile.t :=
  SourceFile.mk "shared/default.ts" [mkExportAssignment false].

(** Sample classes: [class Vec2 extends Vec {}], a class named [end], a
    Roact component and a class derived from one, a class expression, and
    a class with static properties. *)
Definition vec2 : ClassNode.t := Demo.subclass "Vec2" Demo.vec "Vec" [].
Definition reserved : ClassNode.t := Demo.class "end" false [].
Definition button : ClassNode.t :=
  ClassNode.mk ClassDeclaration (Some "Button")
               [TsType.mk "Roact.Component<{}>" false false None]
               (Some [Demo.ident "Roact.Component"]) None [] [] false.
Definition fancyButton : ClassNode.t :=
  ClassNode.mk ClassDeclaration (Some "FancyButton")
               [TsType.mk "MyRoactButton" false false None]
               (Some [Demo.ident "MyRoactButton"]) None [] [] false.
Definition anonymous : ClassNode.t :=
  ClassNode.mk ClassExpression None [] None None [Demo.method "run" false] [] false.
Definition settings : ClassNode.t :=
  Demo.class "Settings" false
             [ Demo.field "version" true (Some (Demo.ident "1"));
               Demo.field "cache" true None;
               Demo.accessor GetAccessor "size" true ].

(** The indentation of the sample collaborators at depth [n]. *)
Fixpoint tabs (n : nat) : string :=
  match n with
  | 0 => EmptyString
  | S k => TAB +:+ tabs k
  end.

End Sample.


(** * Facts *)

(** ** Text *)

Lemma append_nil_r (s : string) : s +:+ EmptyString = s.
Proof. induction s as [|c s IH]; simpl; [reflexivity | now rewrite IH]. Qed.

Lemma append_assoc (a b c : string) : (a +:+ b) +:+ c = a +:+ b +:+ c.
Proof. induction a as [|x a IH]; simpl; [reflexivity | now rewrite IH]. Qed.

Lemma render_app (xs ys : list Tok) : render (xs ++ ys) = render xs +:+ render ys.
Proof.
  induction xs as [|t xs IH]; simpl; [reflexivity|].
  now rewrite IH, append_assoc.
Qed.

Lemma occursIn_refl (s : string) : occursIn s s.
Proof. exists EmptyString, EmptyString. simpl. now rewrite append_nil_r. Qed.

Lemma occursIn_middle (pre sub post : string) : occursIn sub (pre +:+ sub +:+ post).
Proof. now exists pre, post. Qed.

Lemma occursIn_trans (a b c : string) : occursIn a b -> occursIn b c -> occursIn a c.
Proof.
  intros (p1 & q1 & ->) (p2 & q2 & ->).
  exists (p2 +:+ p1), (q1 +:+ q2).
  now rewrite !append_assoc.
Qed.


(** A run of pieces of the emission occurs in the emitted string. *)
Lemma occursIn_render (pre mid post : list Tok) :
  occursIn (render mid) (render (pre ++ mid ++ post)).
Proof. rewrite !render_app. apply occursIn_middle. Qed.

Lemma lits_app (xs ys : list Tok) : lits (xs ++ ys) = lits xs ++ lits ys.
Proof.
  induction xs as [|[s|s] xs IH]; simpl; [reflexivity| |assumption].
  now rewrite IH.
Qed.

Lemma countLit_lits (x : string) (ts : list Tok) :
  countLit x ts = List.length (filter (String.eqb x) (lits ts)).
Proof. reflexivity. Qed.

Lemma filter_flat_map_nil {A B} (p : B -> bool) (f : A -> list B) (l : list A) :
  (forall a, filter p (f a) = []) -> filter p (flat_map f l) = [].
Proof.
  intros H. induction l as [|a l IH]; simpl; [reflexivity|].
  now rewrite filter_app, H, IH.
Qed.

Lemma Forall_flat_map_intro {A B} (P : B -> Prop) (f : A -> list B) (l : list A) :
  (forall a, Forall P (f a)) -> Forall P (flat_map f l).
Proof.
  intros H. induction l as [|a l IH]; simpl; [constructor|].
  apply Forall_app. split; [apply H | exact IH].
Qed.

Lemma some_filter {A} (p : A -> bool) (l : list A) :
  some (filter p l) = true -> some l = true.
Proof.
  destruct l as [|a l]; simpl; [discriminate | reflexivity].
Qed.

Lemma some_false_nil {A} (l : list A) : some l = false -> l = [].
Proof. destruct l; [reflexivity | discriminate]. Qed.

(** ** The monad *)

Lemma bind_Ok {A B} (m : M A) (f : A -> M B) st st' b :
  bind m f st = (st', Ok b) ->
  exists a st1, m st = (st1, Ok a) /\ f a st1 = (st', Ok b).
Proof.
  unfold bind. destruct (m st) as [st1 [a|e]]; [eauto | discriminate].
Qed.

Lemma bind_step {A B} (m : M A) (f : A -> M B) st st1 a :
  m st = (st1, Ok a) -> bind m f st = f a st1.
Proof. unfold bind. now intros ->. Qed.

Lemma bind_Throw {A B} (m : M A) (f : A -> M B) st st1 e :
  m st = (st1, Throw e) -> bind m f st = (st1, Throw e).
Proof. unfold bind. now intros ->. Qed.

Lemma ret_Ok {A} (a b : A) st st' : ret a st = (st', Ok b) -> st' = st /\ b = a.
Proof. unfold ret. intros H. inversion H. auto. Qed.

Lemma gets_Ok {A} (f : TranspilerState -> A) b st st' :
  gets f st = (st', Ok b) -> st' = st /\ b = f st.
Proof. unfold gets. intros H. inversion H. auto. Qed.

Lemma modify_Ok f u st st' : modify f st = (st', Ok u) -> st' = f st.
Proof. unfold modify. intros H. now inversion H. Qed.

Lemma liftResult_Ok {A} (r : Result A) a st st' :
  liftResult r st = (st', Ok a) -> st' = st /\ r = Ok a.
Proof. unfold liftResult. intros H. inversion H. auto. Qed.

Ltac pair_inv :=
  repeat match goal with
         | E : (_, _) = (_, _) |- _ => inversion E; subst; clear E
         end.

(** Decides the comparisons of string literals in the goal. *)
Ltac eval_eqb :=
  repeat match goal with
         | |- context [String.eqb ?a ?b] =>
             let v := eval vm_compute in (String.eqb a b) in
             match v with
             | true => change (String.eqb a b) with true
             | false => change (String.eqb a b) with false
             end
         end.

(** Inversion of a successful run, one statement at a time. *)
Ltac run_inv H :=
  match type of H with
  | bind _ _ _ = (_, Ok _) =>
      let a := fresh "r" in
      let st := fresh "st" in
      let H1 := fresh "Hrun" in
      apply bind_Ok in H; destruct H as (a & st & H1 & H);
      run_inv H1; run_inv H
  | ret _ _ = (_, Ok _) =>
      apply ret_Ok in H; destruct H as [? ?]; subst; pair_inv
  | gets _ _ = (_, Ok _) =>
      apply gets_Ok in H; destruct H as [? ?]; subst
  | modify _ _ = (_, Ok _) =>
      apply modify_Ok in H; subst
  | liftResult _ _ = (_, Ok _) =>
      apply liftResult_Ok in H; destruct H as [? ?]; subst
  | throw _ _ = (_, Ok _) =>
      unfold throw in H; discriminate H
  | emit _ _ = (_, Ok _) =>
      unfold emit in H; inversion H; subst; clear H
  | indentIn _ = (_, Ok _) =>
      unfold indentIn in H; inversion H; subst; clear H
  | indentOut _ = (_, Ok _) =>
      unfold indentOut in H; inversion H; subst; clear H
  | (_, Ok _) = (_, Ok _) =>
      inversion H; subst; clear H
  | (match ?x with (_, _) => _ end) _ = (_, Ok _) =>
      destruct x; run_inv H
  | _ => idtac
  end.

(** A loop whose every round keeps a property of the pieces keeps it. *)
Lemma forEach_lits {A} (f : A -> M (list Tok)) (g : A -> list string) :
  (forall x st st' r, f x st = (st', Ok r) -> lits r = g x) ->
  forall xs st st' r,
    forEach f xs st = (st', Ok r) -> lits r = flat_map g xs.
Proof.
  intros Hf. induction xs as [|x xs IH]; simpl; intros st st' r H.
  - run_inv H. reflexivity.
  - run_inv H. rewrite lits_app.
    erewrite Hf by eassumption. erewrite IH by eassumption. reflexivity.
Qed.

(** ** Class lowering: the runs of the blocks *)

Section ClassFacts.
Context {collab : Collaborators}.

Lemma emit_run (ts : list Tok) st : emit ts st = (st, Ok (Val (indent st) :: ts)).
Proof. reflexivity. Qed.

Lemma emit_Ok (ts r : list Tok) st st' :
  emit ts st = (st', Ok r) -> st' = st /\ r = Val (indent st) :: ts.
Proof. unfold emit. intros H. inversion H. auto. Qed.

Lemma block_cons (m : M (list Tok)) (ms : list (M (list Tok))) :
  block (m :: ms) = (r <- m ;; rs <- block ms ;; ret (r ++ rs)).
Proof. reflexivity. Qed.

Lemma block_nil : block [] = ret [].
Proof. reflexivity. Qed.

(** The metamethod loop over any list of names: it leaves the state, and
    writes a trampoline for each name the class or an ancestor has a
    method for. *)
Lemma metamethods_Ok (id : string) (node : ClassNode.t) (names : list string) st st' r :
  forEach
    (fun metamethod =>
       match getClassMethod node metamethod with
       | Some _ =>
           if includes LUA_UNDEFINABLE_METAMETHODS metamethod then
             throw (TranspilerError
                      ("Cannot use undefinable Lua metamethod as identifier '"
                         +:+ metamethod +:+ "' for a class")
                      (ClassNodeOf node) UndefinableMetamethod)
           else emit (trampoline id metamethod)
       | None => ret []
       end) names st = (st', Ok r) ->
  st' = st
  /\ r = flat_map (fun m => match getClassMethod node m with
                            | Some _ => Val (indent st) :: trampoline id m
                            | None => []
                            end) names
  /\ (forall m, In m names -> getClassMethod node m <> None ->
                includes LUA_UNDEFINABLE_METAMETHODS m = false).
Proof.
  revert st st' r. induction names as [|x names IH]; cbn [forEach flat_map]; intros st st' r H.
  - run_inv H. repeat split. intros m [].
  - apply bind_Ok in H. destruct H as (r1 & st1 & H1 & H).
    apply bind_Ok in H. destruct H as (r2 & st2 & H2 & H).
    run_inv H. apply IH in H2. destruct H2 as (-> & -> & Hdef).
    destruct (getClassMethod node x) as [method|] eqn:Hx.
    + destruct (includes LUA_UNDEFINABLE_METAMETHODS x) eqn:Hu; [run_inv H1|].
      apply emit_Ok in H1. destruct H1 as [-> ->].
      repeat split.
      intros m [<-|Hin] Hm; [assumption | now apply Hdef].
    + run_inv H1. repeat split.
      intros m [<-|Hin] Hm; [congruence | now apply Hdef].
Qed.

Lemma metamethods_Throw (id : string) (node : ClassNode.t) (names : list string) m st :
  In m names -> includes LUA_UNDEFINABLE_METAMETHODS m = true ->
  getClassMethod node m <> None ->
  exists m',
    In m' names /\ includes LUA_UNDEFINABLE_METAMETHODS m' = true
    /\ getClassMethod node m' <> None
    /\ forEach
         (fun metamethod =>
            match getClassMethod node metamethod with
            | Some _ =>
                if includes LUA_UNDEFINABLE_METAMETHODS metamethod then
                  throw (TranspilerError
                           ("Cannot use undefinable Lua metamethod as identifier '"
                              +:+ metamethod +:+ "' for a class")
                           (ClassNodeOf node) UndefinableMetamethod)
                else emit (trampoline id metamethod)
            | None => ret []
            end) names st
       = (st, Throw (TranspilerError
                       ("Cannot use undefinable Lua metamethod as identifier '"
                          +:+ m' +:+ "' for a class")
                       (ClassNodeOf node) UndefinableMetamethod)).
Proof.
  intros Hin Hu Hm. induction names as [|x names IH]; [destruct Hin|].
  cbn [forEach].
  destruct (getClassMethod node x) as [method|] eqn:Hx.
  - destruct (includes LUA_UNDEFINABLE_METAMETHODS x) eqn:Hux.
    + exists x. refine (conj _ (conj _ (conj _ _)));
        [now left | assumption | congruence | reflexivity].
    + destruct Hin as [->|Hin]; [congruence|].
      destruct (IH Hin) as (m' & Hin' & Hu' & Hm' & Hrun).
      exists m'. refine (conj _ (conj _ (conj _ _)));
        [now right | assumption | assumption |].
      erewrite bind_step by apply emit_run.
      erewrite bind_Throw by exact Hrun. reflexivity.
  - destruct Hin as [->|Hin]; [congruence|].
    destruct (IH Hin) as (m' & Hin' & Hu' & Hm' & Hrun).
    exists m'. refine (conj _ (conj _ (conj _ _)));
      [now right | assumption | assumption |].
    erewrite bind_step by reflexivity.
    erewrite bind_Throw by exact Hrun. reflexivity.
Qed.

Lemma emitOpening_lits name node st st' r :
  emitOpening name node st = (st', Ok r) ->
  lits r = [ if ClassNode.isClassExpression node then line "(function()" else line "do" ].
Proof.
  unfold emitOpening, block. cbn [forEach]. intros H.
  destruct (ClassNode.isClassExpression node); run_inv H; reflexivity.
Qed.

Lemma emitSuperAlias_Ok node baseClassName st st' r :
  emitSuperAlias node baseClassName st = (st', Ok r) ->
  st' = st
  /\ r = if hasStaticInheritance node || hasInstanceInheritance node
         then [Val (indent st); Lit "local super = "; Val baseClassName; Lit (line ";")]
         else [].
Proof.
  unfold emitSuperAlias.
  destruct (hasStaticInheritance node || hasInstanceInheritance node); intros H.
  - apply emit_Ok in H. exact H.
  - run_inv H. auto.
Qed.

(** A method loop whose rounds write no literal writes at most the line
    feed before the first method. *)
Lemma methodsLoop_lits (one : ClassMember.t -> M (list Tok)) :
  (forall m st st' r, one m st = (st', Ok r) -> lits r = []) ->
  forall methods seen st st' seen' rs,
    methodsLoop one methods seen st = (st', Ok (seen', rs)) ->
    seen' = seen || some methods
    /\ lits rs = if seen then [] else if some methods then [LF] else [].
Proof.
  intros Hone. induction methods as [|m methods IH]; cbn [methodsLoop];
    intros seen st st' seen' rs H.
  - run_inv H.
    rewrite orb_false_r. split; [reflexivity | now destruct seen].
  - apply bind_Ok in H. destruct H as (r & st1 & H1 & H).
    apply bind_Ok in H. destruct H as ([seen2 rs2] & st2 & H2 & H).
    run_inv H.
    apply IH in H2. destruct H2 as [-> Hl].
    apply Hone in H1.
    rewrite !lits_app, H1, Hl. cbn [orb app].
    split; [now rewrite orb_true_r | now destruct seen].
Qed.

Lemma emitStaticTable_lits id node st st' r :
  emitStaticTable id node st = (st', Ok r) ->
  lits r =
    (if ClassNode.isClassExpression node then "local " else EmptyString)
    :: tableLits (if hasStaticInheritance node then " = setmetatable({" else " = {")
                 (filter hasBody (ClassNode.getStaticMethods node))
                 (if hasStaticInheritance node
                  then line "}, {__index = super});" else line "};").
Proof.
  unfold emitStaticTable. intros H.
  apply bind_Ok in H. destruct H as (opening & st1 & H1 & H). run_inv H1.
  apply bind_Ok in H. destruct H as (u & st2 & H2 & H). run_inv H2.
  apply bind_Ok in H. destruct H as ([seen methods] & st3 & H3 & H).
  apply methodsLoop_lits in H3.
  2:{ intros m s s' x Hx. run_inv Hx. reflexivity. }
  destruct H3 as [-> Hl].
  run_inv H.
  cbn [lits]. rewrite ?lits_app, Hl. reflexivity.
Qed.

Lemma emitInstanceTable_lits id node st st' r inits :
  emitInstanceTable id node st = (st', Ok (r, inits)) ->
  lits r =
    tableLits (if hasInstanceInheritance node
               then ".__index = setmetatable({" else ".__index = {")
              (filter hasBody (ClassNode.getInstanceMethods node))
              (if hasInstanceInheritance node then line "}, super);" else line "};").
Proof.
  unfold emitInstanceTable. intros H.
  apply bind_Ok in H. destruct H as (opening & st1 & H1 & H). run_inv H1.
  apply bind_Ok in H. destruct H as (u & st2 & H2 & H). run_inv H2.
  apply bind_Ok in H. destruct H as (extra & st3 & _ & H).
  apply bind_Ok in H. destruct H as ([seen methods] & st4 & H4 & H).
  apply methodsLoop_lits in H4.
  2:{ intros m s s' x Hx. run_inv Hx. reflexivity. }
  destruct H4 as [-> Hl].
  run_inv H.
  cbn [lits]. rewrite ?lits_app, Hl. reflexivity.
Qed.

Lemma emitTables_lits name node st st' tables inits :
  emitTables name node st = (st', Ok (tables, inits)) ->
  lits tables = tablesLits node.
Proof.
  unfold emitTables. intros H.
  apply bind_Ok in H. destruct H as (opening & st1 & H1 & H).
  apply bind_Ok in H. destruct H as (base & st2 & _ & H).
  apply bind_Ok in H. destruct H as (alias & st3 & H3 & H).
  apply bind_Ok in H. destruct H as (static & st4 & H4 & H).
  apply bind_Ok in H. destruct H as ([inst extra] & st5 & H5 & H).
  run_inv H.
  apply emitOpening_lits in H1. apply emitSuperAlias_Ok in H3. destruct H3 as [-> ->].
  apply emitStaticTable_lits in H4. apply emitInstanceTable_lits in H5.
  unfold tablesLits. rewrite !lits_app, H1, H4, H5.
  now destruct (hasStaticInheritance node || hasInstanceInheritance node).
Qed.

Lemma emitNewFactory_run id node st :
  emitNewFactory id node st =
    if ClassNode.isAbstract node then (st, Ok [])
    else (popIndent (pushIndent st),
          Ok (indented [ indent st; indent (pushIndent st);
                         indent (popIndent (pushIndent st)) ]
                       [ factoryHead id; factoryBody id; factoryEnd ])).
Proof.
  unfold emitNewFactory. destruct (ClassNode.isAbstract node); reflexivity.
Qed.

Lemma emitConstructor_Ok id node inits st st' r :
  emitConstructor id node inits st = (st', Ok r) -> exists s, r = [Val s].
Proof. unfold emitConstructor. intros H. run_inv H. eauto. Qed.

Lemma emitStaticProperties_lits id node st st' r :
  emitStaticProperties id node st = (st', Ok r) ->
  lits r = flat_map staticPropertyLits (ClassNode.getStaticProperties node).
Proof.
  unfold emitStaticProperties. apply forEach_lits.
  clear. intros prop st st' r H. unfold staticPropertyLits.
  apply bind_Ok in H. destruct H as (u & st1 & _ & H).
  apply bind_Ok in H. destruct H as (v & st2 & Hv & H). run_inv H.
  destruct (ClassMember.isInitializerExpressionableNode prop);
    [destruct (ClassMember.getInitializer prop)|]; run_inv Hv; reflexivity.
Qed.

Lemma emitAccessorTable_lits id table accessors ancestorHas st st' r :
  emitAccessorTable id table accessors ancestorHas st = (st', Ok r) ->
  lits r = accessorTableLits table accessors ancestorHas.
Proof.
  unfold emitAccessorTable, accessorTableLits. intros H.
  destruct (some accessors).
  - apply bind_Ok in H. destruct H as (u & st1 & H1 & H). run_inv H1.
    apply bind_Ok in H. destruct H as (entries & st2 & H2 & H).
    apply forEach_lits with (g := fun _ => []) in H2.
    2:{ intros a s s' x Hx. run_inv Hx. reflexivity. }
    assert (Hnil : lits entries = []).
    { rewrite H2. clear. induction accessors; [reflexivity | assumption]. }
    apply bind_Ok in H. destruct H as (u2 & st3 & H3 & H). run_inv H3.
    apply bind_Ok in H. destruct H as (ind & st4 & H4 & H). run_inv H4.
    destruct ancestorHas; run_inv H;
      cbn [lits app]; rewrite ?lits_app, Hnil; reflexivity.
  - run_inv H. reflexivity.
Qed.

Lemma emitIndexDispatcher_run id st :
  exists indents st',
    List.length indents = 9
    /\ emitIndexDispatcher id st
       = (st', Ok (indented indents (indexDispatcherLines id))).
Proof.
  eexists [_; _; _; _; _; _; _; _; _]. eexists. split; reflexivity.
Qed.

Lemma emitNewindexDispatcher_run id st :
  exists indents st',
    List.length indents = 8
    /\ emitNewindexDispatcher id st
       = (st', Ok (indented indents (newindexDispatcherLines id))).
Proof.
  eexists [_; _; _; _; _; _; _; _]. eexists. split; reflexivity.
Qed.

Lemma lits_indented indents lines :
  List.length indents = List.length lines ->
  lits (indented indents lines) = flat_map lits lines.
Proof.
  revert lines. induction indents as [|i indents IH]; intros [|l lines] Hlen;
    try discriminate; [reflexivity|].
  cbn [indented flat_map lits]. rewrite lits_app, IH; [reflexivity|].
  now inversion Hlen.
Qed.

Lemma emitGetters_Ok id node st st' r :
  emitGetters id node st = (st', Ok r) ->
  if some (gettersOf node) || ancestorHasGetters node then
    exists table indents,
      r = table ++ indented indents (indexDispatcherLines id)
      /\ List.length indents = 9
      /\ lits table
         = accessorTableLits "_getters" (gettersOf node) (ancestorHasGetters node)
  else r = [].
Proof.
  unfold emitGetters. cbv zeta.
  destruct (some (gettersOf node) || ancestorHasGetters node); intros H.
  - rewrite block_cons in H.
    apply bind_Ok in H. destruct H as (table & st1 & H1 & H).
    apply bind_Ok in H. destruct H as (rest & st2 & H2 & H). run_inv H.
    rewrite block_cons, block_nil in H2.
    apply bind_Ok in H2. destruct H2 as (disp & st3 & H3 & H2). run_inv H2.
    destruct (emitIndexDispatcher_run id st1) as (indents & st4 & Hlen & Hd).
    rewrite Hd in H3. inversion H3; subst.
    exists table, indents. rewrite app_nil_r.
    split; [reflexivity|]. split; [assumption|].
    eapply emitAccessorTable_lits; eassumption.
  - run_inv H. reflexivity.
Qed.

Lemma emitSetters_Ok id node st st' r :
  emitSetters id node st = (st', Ok r) ->
  if some (settersOf node) || ancestorHasSetters node then
    exists table indents,
      r = table ++ indented indents (newindexDispatcherLines id)
      /\ List.length indents = 8
      /\ lits table
         = accessorTableLits "_setters" (settersOf node) (ancestorHasSetters node)
  else r = [].
Proof.
  unfold emitSetters. cbv zeta.
  destruct (some (settersOf node) || ancestorHasSetters node); intros H.
  - rewrite block_cons in H.
    apply bind_Ok in H. destruct H as (table & st1 & H1 & H).
    apply bind_Ok in H. destruct H as (rest & st2 & H2 & H). run_inv H.
    rewrite block_cons, block_nil in H2.
    apply bind_Ok in H2. destruct H2 as (disp & st3 & H3 & H2). run_inv H2.
    destruct (emitNewindexDispatcher_run id st1) as (indents & st4 & Hlen & Hd).
    rewrite Hd in H3. inversion H3; subst.
    exists table, indents. rewrite app_nil_r.
    split; [reflexivity|]. split; [assumption|].
    eapply emitAccessorTable_lits; eassumption.
  - run_inv H. reflexivity.
Qed.

Lemma emitClosing_Ok node st st' r :
  emitClosing node st = (st', Ok r) ->
  r = [ Val (indent (popIndent st));
        Lit (if ClassNode.isClassExpression node then "end)()" else line "end;") ].
Proof.
  unfold emitClosing, block. cbn [forEach]. intros H.
  destruct (ClassNode.isClassExpression node); run_inv H; reflexivity.
Qed.

(** ** Class lowering: the run as a whole *)

Lemma emitGlue_inv id node inits st st' glue :
  emitGlue id node inits st = (st', Ok glue) ->
  exists meta factory ctor props getters setters closing st2 st3 st4 st5 st6,
    emitMetamethods id node st = (st, Ok meta)
    /\ emitNewFactory id node st = (st2, Ok factory)
    /\ emitConstructor id node inits st2 = (st3, Ok ctor)
    /\ emitStaticProperties id node st3 = (st4, Ok props)
    /\ emitGetters id node st4 = (st5, Ok getters)
    /\ emitSetters id node st5 = (st6, Ok setters)
    /\ emitClosing node st6 = (st', Ok closing)
    /\ glue = meta ++ factory ++ ctor ++ props ++ getters ++ setters ++ closing.
Proof.
  unfold emitGlue. rewrite !block_cons, block_nil. intros H.
  apply bind_Ok in H. destruct H as (meta & st1 & H1 & H).
  apply bind_Ok in H. destruct H as (r1 & s1 & H & E1). run_inv E1.
  apply bind_Ok in H. destruct H as (factory & st2 & H2 & H).
  apply bind_Ok in H. destruct H as (r2 & s2 & H & E2). run_inv E2.
  apply bind_Ok in H. destruct H as (ctor & st3 & H3 & H).
  apply bind_Ok in H. destruct H as (r3 & s3 & H & E3). run_inv E3.
  apply bind_Ok in H. destruct H as (props & st4 & H4 & H).
  apply bind_Ok in H. destruct H as (r4 & s4 & H & E4). run_inv E4.
  apply bind_Ok in H. destruct H as (getters & st5 & H5 & H).
  apply bind_Ok in H. destruct H as (r5 & s5 & H & E5). run_inv E5.
  apply bind_Ok in H. destruct H as (setters & st6 & H6 & H).
  apply bind_Ok in H. destruct H as (r6 & s6 & H & E6). run_inv E6.
  apply bind_Ok in H. destruct H as (closing & st7 & H7 & H). run_inv H.
  assert (st1 = st) as ->.
  { unfold emitMetamethods in H1. now apply metamethods_Ok in H1. }
  exists meta, factory, ctor, props, getters, setters, closing, st2, st3, st4, st5, st6.
  rewrite app_nil_r. repeat (split; [assumption|]). reflexivity.
Qed.

Lemma transpileClassTokens_inv node st st' toks :
  scanBaseTypes (ClassNode.getBaseTypes node) = NotRoact ->
  transpileClassTokens node st = (st', Ok toks) ->
  exists name st1 st2 st3 tables inits glue,
    resolveName node st = (st1, Ok name)
    /\ (if ClassNode.isClassDeclaration node then pushExport name node else ret tt) st1
       = (st2, Ok tt)
    /\ emitTables name node st2 = (st3, Ok (tables, inits))
    /\ emitGlue name node inits st3 = (st', Ok glue)
    /\ toks = tables ++ glue.
Proof.
  unfold transpileClassTokens. intros -> H.
  apply bind_Ok in H. destruct H as (name & st1 & H1 & H).
  apply bind_Ok in H. destruct H as ([] & st2 & H2 & H).
  apply bind_Ok in H. destruct H as ([tables inits] & st3 & H3 & H).
  apply bind_Ok in H. destruct H as (glue & st4 & H4 & H). run_inv H.
  exists name, st1, st2, st3, tables, inits, glue. auto.
Qed.

Lemma transpileClass_inv node st st' out :
  transpileClass node st = (st', Ok out) ->
  exists toks, transpileClassTokens node st = (st', Ok toks) /\ out = render toks.
Proof.
  unfold transpileClass. intros H.
  apply bind_Ok in H. destruct H as (toks & st1 & H1 & H). run_inv H. eauto.
Qed.

Lemma lits_flat_map {A} (f : A -> list Tok) (l : list A) :
  lits (flat_map f l) = flat_map (fun x => lits (f x)) l.
Proof.
  induction l as [|a l IH]; cbn [flat_map]; [reflexivity|].
  now rewrite lits_app, IH.
Qed.

Lemma emitGlue_lits id node inits st st' glue :
  emitGlue id node inits st = (st', Ok glue) -> lits glue = glueLits node.
Proof.
  intros H. apply emitGlue_inv in H.
  destruct H as (meta & factory & ctor & props & getters & setters & closing
                 & st2 & st3 & st4 & st5 & st6
                 & H1 & H2 & H3 & H4 & H5 & H6 & H7 & ->).
  unfold emitMetamethods in H1. apply metamethods_Ok in H1. destruct H1 as (_ & -> & _).
  rewrite emitNewFactory_run in H2.
  apply emitConstructor_Ok in H3. destruct H3 as (s & ->).
  apply emitStaticProperties_lits in H4.
  apply emitGetters_Ok in H5. apply emitSetters_Ok in H6.
  apply emitClosing_Ok in H7. subst closing.
  unfold glueLits. rewrite !lits_app, H4, lits_flat_map.
  f_equal.
  { apply flat_map_ext. intros m. now destruct (getClassMethod node m). }
  f_equal.
  { destruct (ClassNode.isAbstract node); inversion H2; reflexivity. }
  cbn [lits app]. f_equal. f_equal.
  { destruct (some (gettersOf node) || ancestorHasGetters node).
    - destruct H5 as (table & indents & -> & Hlen & Ht).
      rewrite lits_app, Ht, lits_indented by exact Hlen. reflexivity.
    - now subst getters. }
  f_equal.
  destruct (some (settersOf node) || ancestorHasSetters node).
  - destruct H6 as (table & indents & -> & Hlen & Ht).
    rewrite lits_app, Ht, lits_indented by exact Hlen. reflexivity.
  - now subst setters.
Qed.

(** The literals of a lowered class are its skeleton, whatever the other
    routines return. *)
Lemma transpileClassTokens_lits node st st' toks :
  scanBaseTypes (ClassNode.getBaseTypes node) = NotRoact ->
  transpileClassTokens node st = (st', Ok toks) ->
  lits toks = classLits node.
Proof.
  intros Hscan H. apply transpileClassTokens_inv in H; [|assumption].
  destruct H as (name & st1 & st2 & st3 & tables & inits & glue
                 & _ & _ & Ht & Hg & ->).
  unfold classLits. rewrite lits_app.
  erewrite emitTables_lits, emitGlue_lits by eassumption. reflexivity.
Qed.

(** ** Counting literals in the skeleton *)

Lemma count_app (x : string) (a b : list string) :
  List.length (filter (String.eqb x) (a ++ b))
  = List.length (filter (String.eqb x) a) + List.length (filter (String.eqb x) b).
Proof. now rewrite filter_app, length_app. Qed.

(** Counting a literal that neither loop writes: the flags of the class
    are all that is left to decide it. *)
Ltac count_tables node :=
  unfold tablesLits, tableLits;
  destruct (ClassNode.isClassExpression node),
           (hasStaticInheritance node), (hasInstanceInheritance node),
           (some (filter hasBody (ClassNode.getStaticMethods node))),
           (some (filter hasBody (ClassNode.getInstanceMethods node)));
  reflexivity.

Ltac count_glue node :=
  unfold glueLits, accessorTableLits;
  rewrite !count_app;
  rewrite filter_flat_map_nil
    by (let m := fresh "m" in
        intros m; destruct (getClassMethod node m); reflexivity);
  rewrite filter_flat_map_nil
    by (let prop := fresh "prop" in
        intros prop; unfold staticPropertyLits;
        destruct (ClassMember.isInitializerExpressionableNode prop);
        [destruct (ClassMember.getInitializer prop)|]; reflexivity);
  destruct (ClassNode.isClassExpression node), (ClassNode.isAbstract node),
           (some (gettersOf node)), (ancestorHasGetters node),
           (some (settersOf node)), (ancestorHasSetters node);
  reflexivity.

(** [count_in_tables n] and [count_in_glue n]: the literal is written [n]
    times in the other half. *)
Ltac count_in_glue node :=
  unfold classLits; rewrite count_app;
  match goal with
  | |- List.length (filter ?p (tablesLits node)) + _ = _ =>
      replace (List.length (filter p (tablesLits node))) with 0
        by (symmetry; count_tables node)
  end;
  cbn [Nat.add]; count_glue node.

Ltac count_in_tables node :=
  unfold classLits; rewrite count_app;
  match goal with
  | |- _ + List.length (filter ?p (glueLits node)) = _ =>
      replace (List.length (filter p (glueLits node))) with 0
        by (symmetry; count_glue node)
  end;
  rewrite Nat.add_0_r; count_tables node.

Lemma count_factoryHead node :
  List.length (filter (String.eqb (line ".new = function(...)")) (classLits node))
  = if ClassNode.isAbstract node then 0 else 1.
Proof. count_in_glue node. Qed.

Lemma count_factoryBody node :
  List.length (filter (String.eqb ".constructor(setmetatable({}, ") (classLits node))
  = if ClassNode.isAbstract node then 0 else 1.
Proof. count_in_glue node. Qed.



Lemma count_superAlias node :
  List.length (filter (String.eqb "local super = ") (classLits node))
  = if hasStaticInheritance node || hasInstanceInheritance node then 1 else 0.
Proof. count_in_tables node. Qed.

Lemma count_staticOpenWired node :
  List.length (filter (String.eqb " = setmetatable({") (classLits node))
  = if hasStaticInheritance node then 1 else 0.
Proof. count_in_tables node. Qed.

Lemma count_staticOpenPlain node :
  List.length (filter (String.eqb " = {") (classLits node))
  = if hasStaticInheritance node then 0 else 1.
Proof. count_in_tables node. Qed.

Lemma count_staticCloseWired node :
  List.length (filter (String.eqb (line "}, {__index = super});")) (classLits node))
  = if hasStaticInheritance node then 1 else 0.
Proof. count_in_tables node. Qed.

Lemma count_instanceOpenWired node :
  List.length (filter (String.eqb ".__index = setmetatable({") (classLits node))
  = if hasInstanceInheritance node then 1 else 0.
Proof. count_in_tables node. Qed.

Lemma count_instanceOpenPlain node :
  List.length (filter (String.eqb ".__index = {") (classLits node))
  = if hasInstanceInheritance node then 0 else 1.
Proof. count_in_tables node. Qed.

Lemma count_instanceCloseWired node :
  List.length (filter (String.eqb (line "}, super);")) (classLits node))
  = if hasInstanceInheritance node then 1 else 0.
Proof. count_in_tables node. Qed.

(** ** The inheritance flags *)

Lemma inheritanceLoop_spec chain s i :
  inheritanceLoop chain (s, i)
  = (s || existsb declaresStatic chain, i || existsb declaresInstance chain).
Proof.
  revert s i. induction chain as [|a chain IH]; intros s i; cbn [inheritanceLoop existsb fst snd].
  - now rewrite !orb_false_r.
  - rewrite IH.
    destruct (declaresStatic a), (declaresInstance a), s, i; reflexivity.
Qed.

Lemma declaresStatic_iff c : declaresStatic c = true <-> declaresStaticMember c.
Proof.
  unfold declaresStatic, declaresStaticMember, ClassNode.getStaticProperties,
    ClassNode.getStaticMethods.
  destruct (ClassNode.getStaticMembers c) as [|m l]; cbn [filter].
  - split; [discriminate | congruence].
  - split; [discriminate | reflexivity].
Qed.

Lemma declaresInstance_iff c : declaresInstance c = true <-> declaresInstanceMember c.
Proof.
  unfold declaresInstance, declaresInstanceMember, ClassNode.getInstanceProperties,
    ClassNode.getInstanceMethods.
  destruct (ClassNode.getInstanceMembers c) as [|m l]; cbn [filter].
  - split; [discriminate | congruence].
  - split; [discriminate | reflexivity].
Qed.

Lemma hasStaticInheritance_iff node :
  hasStaticInheritance node = true
  <-> exists a, In a (ClassNode.ancestors node) /\ declaresStaticMember a.
Proof.
  unfold hasStaticInheritance. rewrite inheritanceLoop_spec. cbn [fst orb].
  rewrite existsb_exists.
  split; intros (a & Hin & Ha); exists a; (split; [assumption|]);
    now apply declaresStatic_iff.
Qed.

Lemma hasInstanceInheritance_iff node :
  hasInstanceInheritance node = true
  <-> exists a, In a (ClassNode.ancestors node) /\ declaresInstanceMember a.
Proof.
  unfold hasInstanceInheritance. rewrite inheritanceLoop_spec. cbn [snd orb].
  rewrite existsb_exists.
  split; intros (a & Hin & Ha); exists a; (split; [assumption|]);
    now apply declaresInstance_iff.
Qed.

Lemma ancestorLoop_exists accessors chain :
  ancestorLoop accessors chain = true
  <-> exists a, In a chain /\ some (accessors a) = true.
Proof.
  induction chain as [|c chain IH]; cbn [ancestorLoop In].
  - split; [discriminate | intros (a & [] & _)].
  - destruct (some (accessors c)) eqn:Hc.
    + split; [eauto | reflexivity].
    + rewrite IH. split.
      * intros (a & Hin & Ha). eauto.
      * intros (a & [<-|Hin] & Ha); [congruence | eauto].
Qed.

(** An accessor the lowering collects is an instance member. *)
Lemma accessors_instance kind c :
  some (filter (fun m => SyntaxKind_eqb (ClassMember.getKind m) kind)
               (ClassNode.getInstanceProperties c)) = true ->
  declaresInstanceMember c.
Proof.
  intros H. apply some_filter in H. unfold ClassNode.getInstanceProperties in H.
  apply some_filter in H. unfold declaresInstanceMember.
  destruct (ClassNode.getInstanceMembers c); [discriminate | congruence].
Qed.

Lemma no_inheritance_no_accessors node :
  hasInstanceInheritance node = false ->
  ancestorHasGetters node = false /\ ancestorHasSetters node = false.
Proof.
  intros H. split.
  - destruct (ancestorHasGetters node) eqn:E; [|reflexivity].
    apply ancestorLoop_exists in E. destruct E as (a & Hin & Ha).
    apply (accessors_instance GetAccessor) in Ha.
    assert (hasInstanceInheritance node = true) by (apply hasInstanceInheritance_iff; eauto).
    congruence.
  - destruct (ancestorHasSetters node) eqn:E; [|reflexivity].
    apply ancestorLoop_exists in E. destruct E as (a & Hin & Ha).
    apply (accessors_instance SetAccessor) in Ha.
    assert (hasInstanceInheritance node = true) by (apply hasInstanceInheritance_iff; eauto).
    congruence.
Qed.

Ltac unwired_list :=
  repeat first
    [ apply Forall_nil
    | apply Forall_cons;
      [ split; [reflexivity | intros E; first [discriminate E | reflexivity]] | ] ].

(** Without inherited members every literal of the skeleton is unwired. *)
Lemma classLits_unwired node :
  hasStaticInheritance node = false -> hasInstanceInheritance node = false ->
  Forall unwired (classLits node).
Proof.
  intros Hs Hi.
  destruct (no_inheritance_no_accessors node Hi) as [Hg Hset].
  unfold classLits, tablesLits, glueLits, tableLits, accessorTableLits.
  rewrite Hs, Hi, Hg, Hset, !orb_false_r. cbn [orb].
  rewrite !Forall_app.
  repeat match goal with |- _ /\ _ => split end.
  - destruct (ClassNode.isClassExpression node); unwired_list.
  - unwired_list.
  - destruct (ClassNode.isClassExpression node),
      (some (filter hasBody (ClassNode.getStaticMethods node))),
      (some (filter hasBody (ClassNode.getInstanceMethods node))); unwired_list.
  - apply Forall_flat_map_intro. intros m.
    destruct (getClassMethod node m); unwired_list.
  - destruct (ClassNode.isAbstract node); unwired_list.
  - apply Forall_flat_map_intro. intros prop. unfold staticPropertyLits.
    destruct (ClassMember.isInitializerExpressionableNode prop);
      [destruct (ClassMember.getInitializer prop)|]; unwired_list.
  - destruct (some (gettersOf node)); unwired_list.
  - destruct (some (settersOf node)); unwired_list.
  - destruct (ClassNode.isClassExpression node); unwired_list.
Qed.

(** ** When the lowering returns *)

Lemma returns_ret {A} (a : A) st : returns (ret a) st.
Proof. now exists st, a. Qed.

Lemma returns_bind {A B} (m : M A) (f : A -> M B) st :
  returns m st -> (forall a s, returns (f a) s) -> returns (bind m f) st.
Proof.
  intros (st1 & a & Hm) Hf. destruct (Hf a st1) as (st2 & b & Hb).
  exists st2, b. now rewrite (bind_step _ _ _ Hm).
Qed.

Lemma returns_emit ts st : returns (emit ts) st.
Proof. now eexists _, _. Qed.

Lemma returns_indentIn st : returns indentIn st.
Proof. now eexists _, _. Qed.

Lemma returns_indentOut st : returns indentOut st.
Proof. now eexists _, _. Qed.

Lemma returns_gets {A} (f : TranspilerState -> A) st : returns (gets f) st.
Proof. now eexists _, _. Qed.

Lemma returns_forEach {A} (f : A -> M (list Tok)) (xs : list A) :
  (forall x, In x xs -> forall s, returns (f x) s) ->
  forall s, returns (forEach f xs) s.
Proof.
  induction xs as [|x xs IH]; intros Hf s; cbn [forEach].
  - apply returns_ret.
  - apply returns_bind; [apply Hf; now left|]. intros r s1.
    apply returns_bind; [apply IH; intros y Hy; apply Hf; now right|].
    intros rs s2. apply returns_ret.
Qed.

Lemma returns_block (ms : list (M (list Tok))) :
  (forall m, In m ms -> forall s, returns m s) -> forall s, returns (block ms) s.
Proof. intros H. apply returns_forEach. exact H. Qed.

Lemma returns_methodsLoop (one : ClassMember.t -> M (list Tok)) methods :
  (forall m s, returns (one m) s) ->
  forall seen s, returns (methodsLoop one methods seen) s.
Proof.
  intros Hone. induction methods as [|m methods IH]; intros seen s; cbn [methodsLoop].
  - apply returns_ret.
  - apply returns_bind; [apply Hone|]. intros r s1.
    apply returns_bind; [apply IH|]. intros [seen' rs] s2. apply returns_ret.
Qed.

Section Progress.
Variable node : ClassNode.t.
Variable st0 : TranspilerState.
Hypothesis coop : Cooperative node st0.

Lemma returns_instancePropsLoop props :
  (forall p, In p props -> In p (ClassNode.getAllMembers node)) ->
  forall s, returns (instancePropsLoop props) s.
Proof.
  induction props as [|p props IH]; intros Hin s; cbn [instancePropsLoop].
  - apply returns_ret.
  - apply returns_bind.
    + destruct (nonEmpty (ClassMember.getName p)); [|apply returns_ret].
      rewrite (coop_checkMethodReserved coop p (Hin p (or_introl eq_refl))).
      apply returns_bind; [now eexists _, _|]. intros _ s1.
      destruct (ClassMember.isInitializerExpressionableNode p); [|apply returns_ret].
      destruct (ClassMember.getInitializer p); [|apply returns_ret].
      apply returns_bind; [apply (coop_expression coop)|].
      intros v s2. apply returns_ret.
    + intros here s1. apply returns_bind.
      * apply IH. intros q Hq. apply Hin. now right.
      * intros more s2. apply returns_ret.
Qed.

Lemma returns_emitStaticTable id s : returns (emitStaticTable id node) s.
Proof.
  unfold emitStaticTable.
  apply returns_bind; [apply returns_emit|]. intros opening s1.
  apply returns_bind; [apply returns_indentIn|]. intros _ s2.
  apply returns_bind.
  - apply returns_methodsLoop. intros m s3.
    apply returns_bind; [apply returns_gets|]. intros ind s4.
    apply returns_bind; [apply (coop_method coop)|]. intros x s5. apply returns_ret.
  - intros [seen methods] s3.
    apply returns_bind; [apply returns_indentOut|]. intros _ s4.
    apply returns_bind; [apply returns_gets|]. intros ind s5. apply returns_ret.
Qed.

Lemma instancePropsOf_members p :
  In p (instancePropsOf node) -> In p (ClassNode.getAllMembers node).
Proof.
  unfold instancePropsOf, ClassNode.getInstanceProperties, ClassNode.getInstanceMembers.
  rewrite !filter_In. tauto.
Qed.

Lemma staticProperties_members p :
  In p (ClassNode.getStaticProperties node) -> In p (ClassNode.getAllMembers node).
Proof.
  unfold ClassNode.getStaticProperties, ClassNode.getStaticMembers.
  rewrite !filter_In. tauto.
Qed.

Lemma returns_emitInstanceTable id s : returns (emitInstanceTable id node) s.
Proof.
  unfold emitInstanceTable.
  apply returns_bind; [apply returns_emit|]. intros opening s1.
  apply returns_bind; [apply returns_indentIn|]. intros _ s2.
  apply returns_bind;
    [apply returns_instancePropsLoop; apply instancePropsOf_members|].
  intros inits s3.
  apply returns_bind.
  - apply returns_methodsLoop. intros m s4.
    apply returns_bind; [apply (coop_method coop)|]. intros x s5. apply returns_ret.
  - intros [seen methods] s4.
    apply returns_bind; [apply returns_indentOut|]. intros _ s5.
    apply returns_bind; [apply returns_gets|]. intros ind s6. apply returns_ret.
Qed.

Lemma returns_emitMetamethods id s :
  definable node -> returns (emitMetamethods id node) s.
Proof.
  intros Hdef. unfold emitMetamethods. apply returns_forEach.
  intros m _ s1. destruct (getClassMethod node m) eqn:Hm; [|apply returns_ret].
  destruct (includes LUA_UNDEFINABLE_METAMETHODS m) eqn:Hu; [|apply returns_emit].
  rewrite (Hdef m Hu) in Hm. discriminate.
Qed.

Lemma returns_emitStaticProperties id s : returns (emitStaticProperties id node) s.
Proof.
  unfold emitStaticProperties. apply returns_forEach.
  intros prop Hin s1.
  rewrite (coop_checkMethodReserved coop prop (staticProperties_members _ Hin)).
  apply returns_bind; [now eexists _, _|]. intros _ s2.
  apply returns_bind.
  - destruct (ClassMember.isInitializerExpressionableNode prop); [|apply returns_ret].
    destruct (ClassMember.getInitializer prop); [|apply returns_ret].
    apply returns_bind; [apply (coop_expression coop)|]. intros v s3. apply returns_ret.
  - intros v s3. apply returns_emit.
Qed.

Lemma returns_emitAccessorTable id table accessors ancestorHas s :
  returns (emitAccessorTable id table accessors ancestorHas) s.
Proof.
  unfold emitAccessorTable. destruct (some accessors); [|apply returns_emit].
  apply returns_bind; [apply returns_indentIn|]. intros _ s1.
  apply returns_bind.
  - apply returns_forEach. intros a _ s2.
    apply returns_bind; [apply (coop_accessor coop)|]. intros x s3. apply returns_ret.
  - intros entries s2.
    apply returns_bind; [apply returns_indentOut|]. intros _ s3.
    apply returns_bind; [apply returns_gets|]. intros ind s4.
    destruct ancestorHas;
      (apply returns_bind; [apply returns_emit|]; intros o s5; apply returns_ret).
Qed.

Lemma returns_emitGlue id inits s :
  definable node -> returns (emitGlue id node inits) s.
Proof.
  intros Hdef. unfold emitGlue. apply returns_block.
  intros m Hm s1. cbn [In] in Hm.
  destruct Hm as [<-|[<-|[<-|[<-|[<-|[<-|[<-|[]]]]]]]].
  - now apply returns_emitMetamethods.
  - unfold returns. rewrite emitNewFactory_run.
    destruct (ClassNode.isAbstract node); now eexists _, _.
  - unfold emitConstructor.
    apply returns_bind; [apply (coop_constructor coop)|]. intros x s2. apply returns_ret.
  - apply returns_emitStaticProperties.
  - unfold emitGetters. cbv zeta.
    destruct (some (gettersOf node) || ancestorHasGetters node); [|apply returns_ret].
    apply returns_block. intros m' Hm' s2. cbn [In] in Hm'.
    destruct Hm' as [<-|[<-|[]]]; [apply returns_emitAccessorTable|].
    destruct (emitIndexDispatcher_run id s2) as (indents & s3 & _ & E).
    now eexists _, _.
  - unfold emitSetters. cbv zeta.
    destruct (some (settersOf node) || ancestorHasSetters node); [|apply returns_ret].
    apply returns_block. intros m' Hm' s2. cbn [In] in Hm'.
    destruct Hm' as [<-|[<-|[]]]; [apply returns_emitAccessorTable|].
    destruct (emitNewindexDispatcher_run id s2) as (indents & s3 & _ & E).
    now eexists _, _.
  - unfold emitClosing. apply returns_block. intros m' Hm' s2. cbn [In] in Hm'.
    destruct Hm' as [<-|[<-|[]]]; [apply returns_indentOut|].
    destruct (ClassNode.isClassExpression node); apply returns_emit.
Qed.

Lemma returns_resolveName s : returns (resolveName node) s.
Proof.
  unfold resolveName, returns.
  destruct (ClassNode.getName node) as [n|] eqn:Hn.
  - destruct (nonEmpty n) eqn:Hne.
    + unfold bind, ret, liftResult.
      rewrite (coop_checkReserved coop (name:=n) Hn (fun _ => eq_refl)).
      now eexists _, _.
    + destruct (coop_getNewId coop s) as (s1 & name & Hnew).
      rewrite (bind_step _ _ _ Hnew). unfold bind, ret, liftResult.
      rewrite (coop_checkReserved coop (name:=name) Hn); [now eexists _, _|].
      intros E. rewrite Hne in E. discriminate E.
  - destruct (coop_getNewId coop s) as (s1 & name & Hnew).
    rewrite (bind_step _ _ _ Hnew). now eexists _, _.
Qed.

(** A class that is not handed to the Roact lowering and has no method with
    a non-overridable metamethod name is lowered to text when the other
    routines cooperate. *)
Lemma transpileClass_returns :
  scanBaseTypes (ClassNode.getBaseTypes node) = NotRoact ->
  definable node ->
  returns (transpileClass node) st0.
Proof.
  intros Hscan Hdef. unfold transpileClass, transpileClassTokens. rewrite Hscan.
  destruct (returns_resolveName st0) as (s1 & name & Hname).
  assert (Hexport : exists s2,
             (if ClassNode.isClassDeclaration node then pushExport name node else ret tt) s1
             = (s2, Ok tt)
             /\ (ClassNode.isClassExpression node = false -> hoistStack s2 <> [])).
  { unfold ClassNode.isClassDeclaration, ClassNode.isClassExpression in *.
    destruct (ClassNode.getClassKind node) eqn:Hkind.
    - destruct (coop_pushExport coop name s1) as (s2 & [] & Hp).
      exists s2. split; [assumption|]. intros _.
      eapply (coop_hoistScope coop); [|eassumption|eassumption].
      unfold ClassNode.isClassExpression. now rewrite Hkind.
    - exists s1. split; [reflexivity | discriminate]. }
  destruct Hexport as (s2 & Hexport & Hscope).
  assert (Htables : returns (emitTables name node) s2).
  { unfold emitTables. apply returns_bind.
    - unfold emitOpening. rewrite block_cons.
      apply returns_bind.
      + destruct (ClassNode.isClassExpression node); [apply returns_ret|].
        unfold returns, bind, emit, hoist. cbv beta iota.
        destruct (rev (hoistStack s2)) as [|top below] eqn:Hrev;
          [|eexists _, _; reflexivity].
        exfalso. apply (Hscope eq_refl).
        rewrite <- (rev_involutive (hoistStack s2)), Hrev. reflexivity.
      + intros r s3. apply returns_bind; [|intros; apply returns_ret].
        apply returns_block. intros m [<-|[]] s4. apply returns_indentIn.
    - intros opening s3. apply returns_bind.
      + unfold lowerBaseClassName.
        destruct (ClassNode.getExtendsTypeNodes node) as [[|typeNode rest]|];
          [apply returns_ret | apply (coop_expression coop) | apply returns_ret].
      + intros base s4. apply returns_bind.
        * unfold emitSuperAlias.
          destruct (hasStaticInheritance node || hasInstanceInheritance node);
            [apply returns_emit | apply returns_ret].
        * intros alias s5.
          apply returns_bind; [apply returns_emitStaticTable|]. intros static s6.
          apply returns_bind; [apply returns_emitInstanceTable|].
          intros [inst inits] s7. apply returns_ret. }
  destruct Htables as (s3 & [tables inits] & Htables).
  destruct (returns_emitGlue name inits s3 Hdef) as (s4 & glue & Hglue).
  exists s4, (render (tables ++ glue)).
  erewrite bind_step; [reflexivity|].
  rewrite (bind_step _ _ _ Hname), (bind_step _ _ _ Hexport),
    (bind_step _ _ _ Htables), (bind_step _ _ _ Hglue).
  reflexivity.
Qed.

End Progress.

(** ** The [new] factory *)

Lemma render_factory i1 i2 i3 id :
  render (indented [i1; i2; i3] [factoryHead id; factoryBody id; factoryEnd])
  = factoryText i1 i2 i3 id.
Proof. reflexivity. Qed.

(** C4. A class that is not handed to the Roact lowering is lowered to text
    when the other routines cooperate and no method has a non-overridable
    metamethod name; and whenever it is lowered to text: when it is
    abstract, no [new] factory is written (neither its head
    [.new = function(...)] nor its body); when it is not, the factory is
    written exactly once, and it reads
    [<id>.new = function(...) return <id>.constructor(setmetatable({}, <id>), ...); end;],
    a fresh table with the class table as metatable handed with all the
    arguments to the [constructor] slot. *)
Theorem new_factory_unless_abstract node st :
  scanBaseTypes (ClassNode.getBaseTypes node) = NotRoact ->
  (Cooperative node st -> definable node -> returns (transpileClass node) st)
  /\ forall st' out,
  transpileClass node st = (st', Ok out) ->
  exists toks name st1,
    transpileClassTokens node st = (st', Ok toks) /\ out = render toks
    /\ resolveName node st = (st1, Ok name)
    /\ countLit (line ".new = function(...)") toks
       = (if ClassNode.isAbstract node then 0 else 1)
    /\ countLit ".constructor(setmetatable({}, " toks
       = (if ClassNode.isAbstract node then 0 else 1)
    /\ (ClassNode.isAbstract node = false ->
        exists pre post i1 i2 i3,
          toks = pre ++ indented [i1; i2; i3]
                                 [factoryHead name; factoryBody name; factoryEnd]
                     ++ post
          /\ occursIn (factoryText i1 i2 i3 name) out).
Proof.
  intros Hscan. split; [intros; now apply transpileClass_returns|].
  intros st' out H. apply transpileClass_inv in H. destruct H as (toks & Hrun & ->).
  pose proof (transpileClassTokens_lits _ _ Hscan Hrun) as Hlits.
  pose proof Hrun as Hinv. apply transpileClassTokens_inv in Hinv; [|assumption].
  destruct Hinv as (name & st1 & st2 & st3 & tables & inits & glue
                    & Hname & _ & _ & Hglue & Htoks).
  exists toks, name, st1.
  repeat (split; [first [assumption | reflexivity]|]).
  split; [rewrite countLit_lits, Hlits; apply count_factoryHead|].
  split; [rewrite countLit_lits, Hlits; apply count_factoryBody|].
  intros Habs. apply emitGlue_inv in Hglue.
  destruct Hglue as (meta & factory & ctor & props & getters & setters & closing
                     & s2 & s3 & s4 & s5 & s6 & _ & Hf & _ & _ & _ & _ & _ & ->).
  rewrite emitNewFactory_run, Habs in Hf. inversion Hf; subst; clear Hf.
  eexists (tables ++ meta), _, _, _, _. split.
  - rewrite <- !app_assoc. reflexivity.
  - rewrite <- render_factory, (app_assoc tables meta). apply occursIn_render.
Qed.

(** ** The [super] alias and the metatable wiring *)

(** C3. A class that is not handed to the Roact lowering is lowered to text
    when the other routines cooperate and no method has a non-overridable
    metamethod name; and whenever it is lowered to text, the following
    holds.  Its flags say whether an ancestor declares a static member, an
    instance member.  The [super] alias is written once when
    either flag holds and not otherwise; the static table is opened by
    [setmetatable({] and closed by [}, {__index = super});] when an ancestor
    declares a static member, and is the plain literal [{ ... };] otherwise;
    likewise the instance table with [}, super);] for instance members.
    When no ancestor declares a member of either kind, no literal of the
    output names [super], and [setmetatable] occurs only in the [new]
    factory. *)
Theorem super_wiring_follows_inheritance node st :
  scanBaseTypes (ClassNode.getBaseTypes node) = NotRoact ->
  (Cooperative node st -> definable node -> returns (transpileClass node) st)
  /\ forall st' out,
  transpileClass node st = (st', Ok out) ->
  exists toks,
  transpileClassTokens node st = (st', Ok toks) /\ out = render toks /\
  (hasStaticInheritance node = true
   <-> exists a, In a (ClassNode.ancestors node) /\ declaresStaticMember a)
  /\ (hasInstanceInheritance node = true
      <-> exists a, In a (ClassNode.ancestors node) /\ declaresInstanceMember a)
  /\ countLit "local super = " toks
     = (if hasStaticInheritance node || hasInstanceInheritance node then 1 else 0)
  /\ countLit " = setmetatable({" toks = (if hasStaticInheritance node then 1 else 0)
  /\ countLit (line "}, {__index = super});") toks
     = (if hasStaticInheritance node then 1 else 0)
  /\ countLit " = {" toks = (if hasStaticInheritance node then 0 else 1)
  /\ countLit ".__index = setmetatable({" toks
     = (if hasInstanceInheritance node then 1 else 0)
  /\ countLit (line "}, super);") toks = (if hasInstanceInheritance node then 1 else 0)
  /\ countLit ".__index = {" toks = (if hasInstanceInheritance node then 0 else 1)
  /\ ((forall a, In a (ClassNode.ancestors node) ->
                 ~ declaresStaticMember a /\ ~ declaresInstanceMember a) ->
      Forall unwired (lits toks)).
Proof.
  intros Hscan. split; [intros; now apply transpileClass_returns|].
  intros st' out H. apply transpileClass_inv in H. destruct H as (toks & Hrun & ->).
  exists toks. split; [assumption|]. split; [reflexivity|].
  pose proof (transpileClassTokens_lits _ _ Hscan Hrun) as Hlits.
  split; [apply hasStaticInheritance_iff|].
  split; [apply hasInstanceInheritance_iff|].
  rewrite !countLit_lits, Hlits.
  split; [apply count_superAlias|].
  split; [apply count_staticOpenWired|].
  split; [apply count_staticCloseWired|].
  split; [apply count_staticOpenPlain|].
  split; [apply count_instanceOpenWired|].
  split; [apply count_instanceCloseWired|].
  split; [apply count_instanceOpenPlain|].
  intros Hnone. apply classLits_unwired.
  - destruct (hasStaticInheritance node) eqn:E; [|reflexivity].
    apply hasStaticInheritance_iff in E. destruct E as (a & Hin & Ha).
    now destruct (Hnone a Hin).
  - destruct (hasInstanceInheritance node) eqn:E; [|reflexivity].
    apply hasInstanceInheritance_iff in E. destruct E as (a & Hin & Ha).
    now destruct (Hnone a Hin).
Qed.

(** ** Metamethods *)

Lemma getClassMethod_own node m :
  ClassNode.getMethod node m <> None -> getClassMethod node m <> None.
Proof.
  destruct node. cbn [getClassMethod].
  destruct (ClassNode.getMethod _ m); [discriminate | congruence].
Qed.

Lemma includes_In xs x : includes xs x = true <-> In x xs.
Proof.
  unfold includes. rewrite existsb_exists. split.
  - intros (y & Hin & Heq). apply String.eqb_eq in Heq. now subst.
  - intros Hin. exists x. split; [assumption | apply String.eqb_refl].
Qed.

Lemma undefinable_reserved m :
  includes LUA_UNDEFINABLE_METAMETHODS m = true -> In m LUA_RESERVED_METAMETHODS.
Proof.
  intros H. apply includes_In in H. cbn [LUA_UNDEFINABLE_METAMETHODS In] in H.
  apply includes_In.
  destruct H as [<-|[<-|[<-|[]]]]; reflexivity.
Qed.

Lemma flat_map_segment {A B} (f : A -> list B) (l : list A) (x : A) :
  In x l -> exists pre post, flat_map f l = pre ++ f x ++ post.
Proof.
  induction l as [|a l IH]; [intros []|].
  intros [->|Hin]; cbn [flat_map].
  - exists [], (flat_map f l). reflexivity.
  - destruct (IH Hin) as (pre & post & ->).
    exists (f a ++ pre), post. now rewrite <- app_assoc.
Qed.

Lemma render_trampoline id m : render (trampoline id m) = trampolineText id m.
Proof.
  unfold trampolineText. cbn [render trampoline tokText]. now rewrite append_nil_r.
Qed.

(** The class or an ancestor has a method with a non-overridable name:
    once the tables are written, the lowering throws. *)
Lemma emitGlue_undefinable name node inits st m :
  includes LUA_UNDEFINABLE_METAMETHODS m = true ->
  getClassMethod node m <> None ->
  exists m',
    includes LUA_UNDEFINABLE_METAMETHODS m' = true
    /\ emitGlue name node inits st
       = (st, Throw (TranspilerError
                       ("Cannot use undefinable Lua metamethod as identifier '"
                          +:+ m' +:+ "' for a class")
                       (ClassNodeOf node) UndefinableMetamethod)).
Proof.
  intros Hu Hm.
  destruct (metamethods_Throw name node LUA_RESERVED_METAMETHODS m st
              (undefinable_reserved m Hu) Hu Hm) as (m' & _ & Hu' & _ & Hrun).
  exists m'. split; [assumption|].
  unfold emitGlue. rewrite block_cons.
  apply bind_Throw. exact Hrun.
Qed.

(** C1. A class that is not handed to the Roact lowering.  It is lowered to
    text when the other routines cooperate and neither it nor an ancestor
    has a method with a non-overridable metamethod name.  Whenever it is
    lowered to text, the output holds, for each reserved metamethod name
    outside [__index], [__newindex], [__mode] that the class declares as a
    method, the trampoline
    [<id>.<name> = function(self, ...) return self:<name>(...); end;].
    If the class declares a method named [__index], [__newindex] or
    [__mode], the lowering produces no output; and when everything before
    the metamethod step was lowered without error, what it throws is the
    UndefinableMetamethod diagnostic, reported at the class. *)
Theorem metamethod_trampolines node st :
  scanBaseTypes (ClassNode.getBaseTypes node) = NotRoact ->
  (Cooperative node st -> definable node -> returns (transpileClass node) st)
  /\ (forall st' out,
      transpileClass node st = (st', Ok out) ->
      exists name st1,
        resolveName node st = (st1, Ok name)
        /\ forall m,
            In m LUA_RESERVED_METAMETHODS ->
            includes LUA_UNDEFINABLE_METAMETHODS m = false ->
            ClassNode.getMethod node m <> None ->
            occursIn (trampolineText name m) out)
  /\ (forall m,
         includes LUA_UNDEFINABLE_METAMETHODS m = true ->
         ClassNode.getMethod node m <> None ->
         (forall st' out, transpileClass node st <> (st', Ok out))
         /\ (forall name st1 st2 st3 tables inits,
                resolveName node st = (st1, Ok name) ->
                (if ClassNode.isClassDeclaration node
                 then pushExport name node else ret tt) st1 = (st2, Ok tt) ->
                emitTables name node st2 = (st3, Ok (tables, inits)) ->
                exists m',
                  includes LUA_UNDEFINABLE_METAMETHODS m' = true
                  /\ transpileClass node st
                     = (st3,
                        Throw (TranspilerError
                                 ("Cannot use undefinable Lua metamethod as identifier '"
                                    +:+ m' +:+ "' for a class")
                                 (ClassNodeOf node) UndefinableMetamethod)))).
Proof.
  intros Hscan. split; [intros; now apply transpileClass_returns|]. split.
  - intros st' out H. apply transpileClass_inv in H. destruct H as (toks & Hrun & ->).
    apply transpileClassTokens_inv in Hrun; [|assumption].
    destruct Hrun as (name & st1 & st2 & st3 & tables & inits & glue
                      & Hname & _ & _ & Hglue & ->).
    exists name, st1. split; [assumption|].
    intros m Hin Hdef Hm. apply getClassMethod_own in Hm.
    apply emitGlue_inv in Hglue.
    destruct Hglue as (meta & factory & ctor & props & getters & setters & closing
                       & s2 & s3 & s4 & s5 & s6 & Hmeta & _ & _ & _ & _ & _ & _ & ->).
    unfold emitMetamethods in Hmeta. apply metamethods_Ok in Hmeta.
    destruct Hmeta as (_ & -> & _).
    destruct (flat_map_segment
                (fun m => match getClassMethod node m with
                          | Some _ => Val (indent st3) :: trampoline name m
                          | None => []
                          end) _ _ Hin) as (pre & post & ->).
    destruct (getClassMethod node m); [|congruence].
    rewrite <- render_trampoline.
    replace (tables ++ (pre ++ (Val (indent st3) :: trampoline name m) ++ post) ++
             factory ++ ctor ++ props ++ getters ++ setters ++ closing)
      with ((tables ++ pre ++ [Val (indent st3)]) ++ trampoline name m ++
            (post ++ factory ++ ctor ++ props ++ getters ++ setters ++ closing)).
    + apply occursIn_render.
    + rewrite <- !app_assoc. reflexivity.
  - intros m Hu Hm. apply getClassMethod_own in Hm. split.
    + intros st' out H. apply transpileClass_inv in H. destruct H as (toks & Hrun & _).
      apply transpileClassTokens_inv in Hrun; [|assumption].
      destruct Hrun as (name & st1 & st2 & st3 & tables & inits & glue
                        & _ & _ & _ & Hglue & _).
      destruct (emitGlue_undefinable name node inits st3 m Hu Hm) as (m' & _ & Hthrow).
      congruence.
    + intros name st1 st2 st3 tables inits Hname Hexport Htables.
      destruct (emitGlue_undefinable name node inits st3 m Hu Hm) as (m' & Hu' & Hthrow).
      exists m'. split; [assumption|].
      unfold transpileClass, transpileClassTokens. rewrite Hscan.
      apply bind_Throw.
      erewrite bind_step by exact Hname.
      erewrite bind_step by exact Hexport.
      erewrite bind_step by exact Htables.
      apply bind_Throw. exact Hthrow.
Qed.

(** ** Accessors *)

Lemma SyntaxKind_eqb_eq a b : SyntaxKind_eqb a b = true <-> a = b.
Proof.
  split.
  - destruct a, b; cbn [SyntaxKind_eqb]; try discriminate; try reflexivity.
    intros H. apply Nat.eqb_eq in H. now subst.
  - intros <-. destruct a; cbn [SyntaxKind_eqb]; try reflexivity. apply Nat.eqb_refl.
Qed.

Lemma some_exists {A} (l : list A) : some l = true <-> exists x, In x l.
Proof.
  destruct l as [|a l].
  - split; [discriminate | intros (x & [])].
  - split; [intros _; exists a; now left | reflexivity].
Qed.

(** The accessors the lowering collects are the instance accessors the
    class declares. *)
Lemma accessors_iff kind c :
  kind = GetAccessor \/ kind = SetAccessor ->
  some (filter (fun m => SyntaxKind_eqb (ClassMember.getKind m) kind)
               (ClassNode.getInstanceProperties c)) = true
  <-> declaresInstanceAccessor kind c.
Proof.
  intros Hkind. rewrite some_exists. unfold declaresInstanceAccessor,
    ClassNode.getInstanceProperties, ClassNode.getInstanceMembers.
  split.
  - intros (m & Hm). rewrite !filter_In in Hm.
    destruct Hm as (((Hin & Hinst) & _) & Hk). apply SyntaxKind_eqb_eq in Hk.
    exists m. repeat split; try assumption.
    unfold ClassMember.isParameterDeclaration in Hinst. rewrite Hk in Hinst.
    destruct Hkind as [->| ->]; cbn in Hinst;
      now destruct (ClassMember.isStatic m).
  - intros (m & Hin & Hk & Hs). exists m. rewrite !filter_In.
    repeat split; try assumption.
    + rewrite Hs. apply orb_true_r.
    + unfold ClassMember.isClassPropertyType. rewrite Hk.
      now destruct Hkind as [->| ->].
    + now apply SyntaxKind_eqb_eq.
Qed.

Lemma gettersOf_iff c :
  some (gettersOf c) = true <-> declaresInstanceAccessor GetAccessor c.
Proof. apply (accessors_iff (kind := GetAccessor)). now left. Qed.

Lemma settersOf_iff c :
  some (settersOf c) = true <-> declaresInstanceAccessor SetAccessor c.
Proof. apply (accessors_iff (kind := SetAccessor)). now right. Qed.










End ClassFacts.

(** ** Call lowering *)

Section CallFacts.
Context {collab : Collaborators}.

(** A member call runs the access check and lowers the receiver and the
    arguments before anything is decided. *)
Lemma memberCall_prelude node flag subExp property ty st st1 st2 st3 accessPath params :
  CallExpression.getExpression node = PropertyAccessExpression subExp property ty ->
  validateApiAccess (IdentifierOf property) st = (st1, Ok tt) ->
  transpileExpression subExp st1 = (st2, Ok accessPath) ->
  transpileArguments (CallExpression.getArguments node) st2 = (st3, Ok params) ->
  transpileCallExpression node flag st
  = (if isArrayType (Expr.getType subExp) then
       let paramStr := if nonEmpty params then accessPath +:+ ", " +:+ params
                       else accessPath in
       modify (set_usesTSLibrary true) ;;
       ret ("TS.array_" +:+ property +:+ "(" +:+ paramStr +:+ ")")
     else if TsType.isString (Expr.getType subExp)
             || TsType.isStringLiteral (Expr.getType subExp) then
       let paramStr := if nonEmpty params then accessPath +:+ ", " +:+ params
                       else accessPath in
       if includes STRING_MACRO_METHODS property then
         ret ("string." +:+ property +:+ "(" +:+ paramStr +:+ ")")
       else
         modify (set_usesTSLibrary true) ;;
         ret ("TS.string_" +:+ property +:+ "(" +:+ paramStr +:+ ")")
     else
       let default :=
         defaultMemberCall node flag (PropertyAccessExpression subExp property ty)
                           subExp property accessPath params in
       match TsType.getSymbol (Expr.getType subExp) with
       | Some subExpTypeSym =>
           namedTypeCall node (Symbol.getEscapedName subExpTypeSym) property
                         accessPath params default
       | None => default
       end) st3.
Proof.
  intros Hexp Hv He Ha.
  unfold transpileCallExpression, transpilePropertyCallExpression. rewrite Hexp.
  erewrite bind_step by exact Hv.
  erewrite bind_step by exact He.
  erewrite bind_step by exact Ha.
  reflexivity.
Qed.

(** C5. A member call on a receiver whose static type is array-like, the
    access check and the lowering of receiver and arguments having
    succeeded: the call lowers to [TS.array_<member>(<receiver>)], or
    [TS.array_<member>(<receiver>, <args>)] when there are arguments, and
    the state's [usesTSLibrary] flag is set. *)
Theorem array_member_call node flag subExp property ty st st1 st2 st3 accessPath params :
  CallExpression.getExpression node = PropertyAccessExpression subExp property ty ->
  isArrayType (Expr.getType subExp) = true ->
  validateApiAccess (IdentifierOf property) st = (st1, Ok tt) ->
  transpileExpression subExp st1 = (st2, Ok accessPath) ->
  transpileArguments (CallExpression.getArguments node) st2 = (st3, Ok params) ->
  exists st',
    transpileCallExpression node flag st
    = (st', Ok ("TS.array_" +:+ property +:+ "("
                  +:+ (if nonEmpty params then accessPath +:+ ", " +:+ params
                       else accessPath)
                  +:+ ")"))
    /\ usesTSLibrary st' = true.
Proof.
  intros Hexp Harr Hv He Ha.
  exists (set_usesTSLibrary true st3).
  erewrite memberCall_prelude by eassumption.
  rewrite Harr. split; reflexivity.
Qed.

Lemma includes_cons x y ys : includes (y :: ys) x = (x =? y) || includes ys x.
Proof. reflexivity. Qed.

(** Where no named-type form applies, the call is left to what follows. *)
Lemma namedTypeCall_fallThrough node name property accessPath params (k : M string) :
  namedTypeForm name property = false ->
  namedTypeCall node name property accessPath params k = k.
Proof.
  unfold namedTypeForm. rewrite !orb_false_iff.
  intros (((H1 & H2) & H3) & H4).
  rewrite !includes_cons, !orb_false_iff in H3.
  destruct H3 as (Hm1 & Hm2 & Hm3 & Hs1 & Hs2 & Hs3 & Ho & _).
  unfold namedTypeCall.
  rewrite H1, H2, Hm1, Hm2, Hm3, Hs1, Hs2, Hs3, Ho. cbn [orb].
  destruct (includes RBX_MATH_CLASSES name); [|reflexivity].
  cbn [andb] in H4. rewrite !includes_cons, !orb_false_iff in H4.
  destruct H4 as (Ha & Hb & Hc & Hd & _).
  now rewrite Ha, Hb, Hc, Hd.
Qed.

(** C10. A member call on a receiver whose type symbol is named
    [ObjectConstructor] (not array-like, not a string), the access check and
    the lowering of receiver and arguments having succeeded: the call
    lowers to [TS.Object_<member>(<args>)], the lowered arguments alone
    between the parentheses, whatever the receiver lowered to, and the
    state's [usesTSLibrary] flag is set. *)
Theorem object_constructor_call node flag subExp property ty sym
        st st1 st2 st3 accessPath params :
  CallExpression.getExpression node = PropertyAccessExpression subExp property ty ->
  isArrayType (Expr.getType subExp) = false ->
  TsType.isString (Expr.getType subExp) = false ->
  TsType.isStringLiteral (Expr.getType subExp) = false ->
  TsType.getSymbol (Expr.getType subExp) = Some sym ->
  Symbol.getEscapedName sym = "ObjectConstructor" ->
  validateApiAccess (IdentifierOf property) st = (st1, Ok tt) ->
  transpileExpression subExp st1 = (st2, Ok accessPath) ->
  transpileArguments (CallExpression.getArguments node) st2 = (st3, Ok params) ->
  exists st',
    transpileCallExpression node flag st
    = (st', Ok ("TS.Object_" +:+ property +:+ "(" +:+ params +:+ ")"))
    /\ usesTSLibrary st' = true.
Proof.
  intros Hexp Harr Hstr Hlit Hsym Hname Hv He Ha.
  exists (set_usesTSLibrary true st3).
  erewrite memberCall_prelude by eassumption.
  rewrite Harr, Hstr, Hlit, Hsym, Hname. cbn [orb].
  unfold namedTypeCall.
  destruct (property =? "then"), (property =? "for"); split; reflexivity.
Qed.

Lemma validateMathCall_run node name property st :
  validateMathCall node name property st
  = if SyntaxKind_eqb (CallExpression.getParentKind node) ExpressionStatement
    then (st, Throw (TranspilerError
                       (name +:+ "." +:+ property
                          +:+ "() cannot be an expression statement!")
                       (CallExpressionOf node) NoMacroMathExpressionStatement))
    else (st, Ok tt).
Proof.
  unfold validateMathCall.
  now destruct (SyntaxKind_eqb (CallExpression.getParentKind node) ExpressionStatement).
Qed.

Lemma mathOperator_cases property op :
  mathOperator property = Some op ->
  (property = "add" /\ op = "+") \/ (property = "sub" /\ op = "-")
  \/ (property = "mul" /\ op = "*") \/ (property = "div" /\ op = "/").
Proof.
  unfold mathOperator.
  destruct (property =? "add") eqn:Ea;
    [apply String.eqb_eq in Ea; intros [= <-]; auto|].
  destruct (property =? "sub") eqn:Eb;
    [apply String.eqb_eq in Eb; intros [= <-]; auto|].
  destruct (property =? "mul") eqn:Ec;
    [apply String.eqb_eq in Ec; intros [= <-]; auto|].
  destruct (property =? "div") eqn:Ed;
    [apply String.eqb_eq in Ed; intros [= <-]; auto 6|].
  discriminate.
Qed.

(** C6. A call of [add], [sub], [mul] or [div] on a receiver whose type
    symbol is named as one of the Roblox math classes (not array-like, not a
    string), the access check and the lowering of receiver and arguments
    having succeeded: when the parent of the call is an expression
    statement the lowering throws the NoMacroMathExpressionStatement
    diagnostic at the call; otherwise it returns
    [(<receiver> <op> (<args>))] with the operator of the member. *)
Theorem math_macro_call node flag subExp property ty sym op
        st st1 st2 st3 accessPath params :
  CallExpression.getExpression node = PropertyAccessExpression subExp property ty ->
  isArrayType (Expr.getType subExp) = false ->
  TsType.isString (Expr.getType subExp) = false ->
  TsType.isStringLiteral (Expr.getType subExp) = false ->
  TsType.getSymbol (Expr.getType subExp) = Some sym ->
  includes RBX_MATH_CLASSES (Symbol.getEscapedName sym) = true ->
  mathOperator property = Some op ->
  validateApiAccess (IdentifierOf property) st = (st1, Ok tt) ->
  transpileExpression subExp st1 = (st2, Ok accessPath) ->
  transpileArguments (CallExpression.getArguments node) st2 = (st3, Ok params) ->
  transpileCallExpression node flag st
  = if SyntaxKind_eqb (CallExpression.getParentKind node) ExpressionStatement
    then (st3, Throw (TranspilerError
                        (Symbol.getEscapedName sym +:+ "." +:+ property
                           +:+ "() cannot be an expression statement!")
                        (CallExpressionOf node) NoMacroMathExpressionStatement))
    else (st3, Ok ("(" +:+ accessPath +:+ " " +:+ op +:+ " (" +:+ params +:+ "))")).
Proof.
  intros Hexp Harr Hstr Hlit Hsym Hmath Hop Hv He Ha.
  erewrite memberCall_prelude by eassumption.
  rewrite Harr, Hstr, Hlit, Hsym. cbn [orb].
  unfold namedTypeCall. rewrite Hmath.
  pose proof Hmath as Hin. apply includes_In in Hin.
  assert (Hnot : (Symbol.getEscapedName sym =? "Promise") = false
                 /\ (Symbol.getEscapedName sym =? "SymbolConstructor") = false
                 /\ (Symbol.getEscapedName sym =? "Map") = false
                 /\ (Symbol.getEscapedName sym =? "ReadonlyMap") = false
                 /\ (Symbol.getEscapedName sym =? "WeakMap") = false
                 /\ (Symbol.getEscapedName sym =? "Set") = false
                 /\ (Symbol.getEscapedName sym =? "ReadonlySet") = false
                 /\ (Symbol.getEscapedName sym =? "WeakSet") = false
                 /\ (Symbol.getEscapedName sym =? "ObjectConstructor") = false).
  { cbn [RBX_MATH_CLASSES In] in Hin.
    destruct Hin as [<-|[<-|[<-|[<-|[<-|[<-|[<-|[]]]]]]]]; repeat split; reflexivity. }
  destruct Hnot as (-> & -> & -> & -> & -> & -> & -> & -> & ->). cbn [andb orb].
  destruct (mathOperator_cases _ Hop) as [[-> ->]|[[-> ->]|[[-> ->]|[-> ->]]]];
    eval_eqb; unfold bind; rewrite validateMathCall_run;
    destruct (SyntaxKind_eqb (CallExpression.getParentKind node) ExpressionStatement);
    reflexivity.
Qed.

(** ** The default member call, and the wrapping of tuple returns *)

Lemma leftToDefault_inv arrayLike subExpType property :
  leftToDefault arrayLike subExpType property = true ->
  arrayLike = false
  /\ TsType.isString subExpType || TsType.isStringLiteral subExpType = false
  /\ match TsType.getSymbol subExpType with
     | Some sym => namedTypeForm (Symbol.getEscapedName sym) property = false
     | None => True
     end.
Proof.
  unfold leftToDefault. rewrite !andb_true_iff, !negb_true_iff.
  intros ((Ha & Hs) & Hn). repeat split; try assumption.
  destruct (TsType.getSymbol subExpType); [now apply negb_true_iff | exact I].
Qed.

Lemma memberCall_default node flag subExp property ty st st1 st2 st3 accessPath params :
  CallExpression.getExpression node = PropertyAccessExpression subExp property ty ->
  leftToDefault (isArrayType (Expr.getType subExp)) (Expr.getType subExp) property = true ->
  validateApiAccess (IdentifierOf property) st = (st1, Ok tt) ->
  transpileExpression subExp st1 = (st2, Ok accessPath) ->
  transpileArguments (CallExpression.getArguments node) st2 = (st3, Ok params) ->
  transpileCallExpression node flag st
  = defaultMemberCall node flag (PropertyAccessExpression subExp property ty)
                      subExp property accessPath params st3.
Proof.
  intros Hexp Hdef Hv He Ha.
  erewrite memberCall_prelude by eassumption.
  apply leftToDefault_inv in Hdef. destruct Hdef as (-> & -> & Hn).
  cbv zeta. destruct (TsType.getSymbol (Expr.getType subExp)); [|reflexivity].
  now rewrite namedTypeCall_fallThrough.
Qed.

(** The pieces of the default member call (lines 165-182). *)
Lemma defaultMemberCall_run node flag expression subExp property accessPath params st :
  defaultMemberCall node flag expression subExp property accessPath params st
  = let tuple := isTupleType (CallExpression.getReturnType node) in
    if match TsType.getSymbol (Expr.getType expression) with
       | Some sym => existsb isMethodDec (Symbol.getDeclarations sym)
       | None => false
       end
    then
      if Expr.isSuperExpression subExp then
        match TsType.getSymbol (Expr.getType subExp) with
        | Some sym =>
            (st, Ok (wrapped flag tuple
                       ((Symbol.getName sym +:+ ".__index") +:+ "." +:+ property +:+ "("
                          +:+ ("self" +:+ (if nonEmpty params then ", " else EmptyString)
                                 +:+ params)
                          +:+ ")")))
        | None => (st, Throw (RuntimeError "Expected to find a symbol."))
        end
      else (st, Ok (wrapped flag tuple
                      (accessPath +:+ ":" +:+ property +:+ "(" +:+ params +:+ ")")))
    else (st, Ok (wrapped flag tuple
                    (accessPath +:+ "." +:+ property +:+ "(" +:+ params +:+ ")"))).
Proof.
  unfold defaultMemberCall, wrapped. cbv zeta.
  destruct (match TsType.getSymbol (Expr.getType expression) with
            | Some sym => existsb isMethodDec (Symbol.getDeclarations sym)
            | None => false
            end); [|reflexivity].
  destruct (Expr.isSuperExpression subExp); [|reflexivity].
  unfold getSymbolOrThrow.
  destruct (TsType.getSymbol (Expr.getType subExp)); reflexivity.
Qed.

Lemma defaultMemberCall_wrapped node flag expression subExp property accessPath params st :
  defaultMemberCall node flag expression subExp property accessPath params st
  = match defaultMemberCall node true expression subExp property accessPath params st with
    | (st', Ok plain) =>
        (st', Ok (wrapped flag (isTupleType (CallExpression.getReturnType node)) plain))
    | (st', Throw e) => (st', Throw e)
    end.
Proof.
  rewrite !defaultMemberCall_run. cbv zeta.
  destruct (match TsType.getSymbol (Expr.getType expression) with
            | Some sym => existsb isMethodDec (Symbol.getDeclarations sym)
            | None => false
            end); [|reflexivity].
  destruct (Expr.isSuperExpression subExp); [|reflexivity].
  destruct (TsType.getSymbol (Expr.getType subExp)); reflexivity.
Qed.

Lemma self_params params :
  "self" +:+ (if nonEmpty params then ", " else EmptyString) +:+ params
  = if nonEmpty params then "self, " +:+ params else "self".
Proof. destruct params; reflexivity. Qed.

(** A call that is not a member call and not a [super(...)] call, or a
    member call left to the default member call: lowering it is lowering it
    with wrapping suppressed and then wrapping the text once, errors being
    the same; the text lowered with wrapping suppressed is a bare call. *)
Lemma wrapping_follows_suppressed node flag st :
  match CallExpression.getExpression node with
  | OtherExpression _ _ => True
  | PropertyAccessExpression subExp property _ =>
      leftToDefault (isArrayType (Expr.getType subExp)) (Expr.getType subExp) property
      = true
  | SuperExpression _ => False
  end ->
  transpileCallExpression node flag st
  = match transpileCallExpression node true st with
    | (st', Ok plain) =>
        (st', Ok (wrapped flag (isTupleType (CallExpression.getReturnType node)) plain))
    | (st', Throw e) => (st', Throw e)
    end
  /\ (forall st' plain,
         transpileCallExpression node true st = (st', Ok plain) ->
         exists callee args, plain = callee +:+ "(" +:+ args +:+ ")")
  /\ wrapped false true = (fun plain => "{ " +:+ plain +:+ " }")
  /\ wrapped true true = (fun plain => plain)
  /\ wrapped flag false = (fun plain => plain).
Proof.
  intros Hpath.
  assert (Hw : wrapped false true = (fun plain => "{ " +:+ plain +:+ " }")
               /\ wrapped true true = (fun plain => plain)
               /\ wrapped flag false = (fun plain => plain)).
  { repeat split; try reflexivity. unfold wrapped. now rewrite andb_false_r. }
  destruct (CallExpression.getExpression node) as [subExp property ty|ty|text ty] eqn:Hexp;
    [|contradiction|].
  - (* a member call left to the default *)
    destruct (validateApiAccess (IdentifierOf property) st) as [st1 [[]|e]] eqn:Hv.
    2:{ unfold transpileCallExpression, transpilePropertyCallExpression.
        rewrite Hexp, !(bind_Throw _ _ _ Hv).
        split; [reflexivity|]. split; [|exact Hw]. intros st' plain E. discriminate E. }
    destruct (transpileExpression subExp st1) as [st2 [accessPath|e]] eqn:He.
    2:{ unfold transpileCallExpression, transpilePropertyCallExpression.
        rewrite Hexp, !(bind_step _ _ _ Hv), !(bind_Throw _ _ _ He).
        split; [reflexivity|]. split; [|exact Hw]. intros st' plain E. discriminate E. }
    destruct (transpileArguments (CallExpression.getArguments node) st2)
      as [st3 [params|e]] eqn:Ha.
    2:{ unfold transpileCallExpression, transpilePropertyCallExpression.
        rewrite Hexp, !(bind_step _ _ _ Hv), !(bind_step _ _ _ He), !(bind_Throw _ _ _ Ha).
        split; [reflexivity|]. split; [|exact Hw]. intros st' plain E. discriminate E. }
    assert (Hd : forall f,
               transpileCallExpression node f st
               = defaultMemberCall node f (PropertyAccessExpression subExp property ty)
                                   subExp property accessPath params st3)
      by (intros f; eapply memberCall_default; eassumption).
    rewrite (Hd flag), (Hd true). clear Hd.
    split; [apply defaultMemberCall_wrapped|]. split; [|exact Hw].
    intros st' plain. rewrite defaultMemberCall_run. cbv zeta. cbn [Expr.getType].
    destruct (match TsType.getSymbol ty with
              | Some sym => existsb isMethodDec (Symbol.getDeclarations sym)
              | None => false
              end).
    + destruct (Expr.isSuperExpression subExp).
      * destruct (TsType.getSymbol (Expr.getType subExp)) as [s|];
          [|intros E; discriminate E].
        intros [= _ <-].
        exists ((Symbol.getName s +:+ ".__index") +:+ "." +:+ property),
          ("self" +:+ (if nonEmpty params then ", " else EmptyString) +:+ params).
        unfold wrapped. cbn [negb andb]. rewrite !append_assoc. reflexivity.
      * intros [= _ <-]. exists (accessPath +:+ ":" +:+ property), params.
        unfold wrapped. cbn [negb andb]. rewrite !append_assoc. reflexivity.
    + intros [= _ <-]. exists (accessPath +:+ "." +:+ property), params.
      unfold wrapped. cbn [negb andb]. rewrite !append_assoc. reflexivity.
  - (* a call that is not a member call *)
    unfold transpileCallExpression. rewrite Hexp.
    destruct (transpileExpression (OtherExpression text ty) st) as [st1 [callPath|e]] eqn:He.
    2:{ rewrite !(bind_Throw _ _ _ He).
        split; [reflexivity|]. split; [|exact Hw]. intros st' plain E. discriminate E. }
    rewrite !(bind_step _ _ _ He).
    destruct (transpileArguments (CallExpression.getArguments node) st1)
      as [st2 [params|e]] eqn:Ha.
    2:{ rewrite !(bind_Throw _ _ _ Ha).
        split; [reflexivity|]. split; [|exact Hw]. intros st' plain E. discriminate E. }
    rewrite !(bind_step _ _ _ Ha).
    split; [reflexivity|]. split; [|exact Hw].
    intros st' plain [= _ <-]. exists callPath, params. reflexivity.
Qed.

(** C8. A call that is not a member call, once its callee and arguments
    are lowered, and a member call left to the default member call, once
    the access check passed and its receiver and arguments are lowered,
    return the bare call [<callee>(<args>)] put once between [{ ] and [ }]
    when the return type is a tuple type and wrapping is not suppressed,
    and the bare call itself when wrapping is suppressed or the return type
    is no tuple type.  The bare call is [<callee>(<args>)] for a call that
    is no member call, [<receiver>:<member>(<args>)] or
    [<receiver>.<member>(<args>)] for a member call on a receiver other
    than [super] or of a member that is no method, and
    [<Base>.__index.<member>(self[, <args>])] for a method call on [super].
    Lowering with any flag is lowering with wrapping suppressed followed by
    that one wrapping, errors included. *)
Theorem tuple_return_wrapped_once node flag st :
  let tuple := isTupleType (CallExpression.getReturnType node) in
  (forall text ty st1 st2 callPath params,
      CallExpression.getExpression node = OtherExpression text ty ->
      transpileExpression (OtherExpression text ty) st = (st1, Ok callPath) ->
      transpileArguments (CallExpression.getArguments node) st1 = (st2, Ok params) ->
      transpileCallExpression node flag st
      = (st2, Ok (wrapped flag tuple (callPath +:+ "(" +:+ params +:+ ")"))))
  /\ (forall subExp property ty st1 st2 st3 accessPath params,
         CallExpression.getExpression node = PropertyAccessExpression subExp property ty ->
         leftToDefault (isArrayType (Expr.getType subExp)) (Expr.getType subExp) property
         = true ->
         validateApiAccess (IdentifierOf property) st = (st1, Ok tt) ->
         transpileExpression subExp st1 = (st2, Ok accessPath) ->
         transpileArguments (CallExpression.getArguments node) st2 = (st3, Ok params) ->
         (resolvesToMethod (PropertyAccessExpression subExp property ty)
          && Expr.isSuperExpression subExp = false ->
          transpileCallExpression node flag st
          = (st3, Ok (wrapped flag tuple
                        (accessPath
                           +:+ memberSeparator (PropertyAccessExpression subExp property ty)
                           +:+ property +:+ "(" +:+ params +:+ ")"))))
         /\ (forall sym,
                resolvesToMethod (PropertyAccessExpression subExp property ty)
                && Expr.isSuperExpression subExp = true ->
                TsType.getSymbol (Expr.getType subExp) = Some sym ->
                transpileCallExpression node flag st
                = (st3, Ok (wrapped flag tuple
                              (Symbol.getName sym +:+ ".__index." +:+ property +:+ "("
                                 +:+ (if nonEmpty params then "self, " +:+ params
                                      else "self")
                                 +:+ ")")))))
  /\ (match CallExpression.getExpression node with
      | OtherExpression _ _ => True
      | PropertyAccessExpression subExp property _ =>
          leftToDefault (isArrayType (Expr.getType subExp)) (Expr.getType subExp) property
          = true
      | SuperExpression _ => False
      end ->
      transpileCallExpression node flag st
      = match transpileCallExpression node true st with
        | (st', Ok plain) => (st', Ok (wrapped flag tuple plain))
        | (st', Throw e) => (st', Throw e)
        end)
  /\ wrapped false true = (fun plain => "{ " +:+ plain +:+ " }")
  /\ wrapped true true = (fun plain => plain)
  /\ wrapped flag false = (fun plain => plain).
Proof.
  cbv zeta. split; [|split; [|split]].
  - intros text ty st1 st2 callPath params Hexp He Ha.
    unfold transpileCallExpression. rewrite Hexp.
    rewrite (bind_step _ _ _ He), (bind_step _ _ _ Ha). reflexivity.
  - intros subExp property ty st1 st2 st3 accessPath params Hexp Hdef Hv He Ha.
    erewrite memberCall_default by eassumption.
    rewrite defaultMemberCall_run. cbv zeta.
    unfold resolvesToMethod, memberSeparator.
    destruct (match TsType.getSymbol (Expr.getType (PropertyAccessExpression subExp property ty))
              with
              | Some sym => existsb isMethodDec (Symbol.getDeclarations sym)
              | None => false
              end) eqn:Hmethod.
    + destruct (Expr.isSuperExpression subExp); cbn [andb]; split.
      * intros E; discriminate E.
      * intros sym _ Hsym. rewrite Hsym, self_params, !append_assoc. reflexivity.
      * intros _.
        destruct (TsType.getSymbol (Expr.getType (PropertyAccessExpression subExp property ty)))
          as [msym|]; [|discriminate Hmethod].
        rewrite Hmethod. reflexivity.
      * intros sym E; discriminate E.
    + cbn [andb]. split; [|intros sym E; discriminate E].
      intros _.
      destruct (TsType.getSymbol (Expr.getType (PropertyAccessExpression subExp property ty)))
        as [msym|]; [|reflexivity].
      rewrite Hmethod. reflexivity.
  - intros Hpath. exact (proj1 (wrapping_follows_suppressed node flag st Hpath)).
  - repeat split; try reflexivity. unfold wrapped. now rewrite andb_false_r.
Qed.

(** ** Calls on [super] *)

(** C7, as amended.  When the type of [super] has a symbol, [<Base>] being
    the name of that symbol: a [super(...)] call whose arguments lower
    without error lowers to [<Base>.constructor(self)], or
    [<Base>.constructor(self, <args>)] when there are arguments; and a
    member call on [super] that is left to the default member call (the
    type of [super] is not array-like, not a string, and selects no
    named-type form) and whose member resolves to a method declaration or
    signature lowers, once the access check has passed and the receiver and
    the arguments are lowered, to [<Base>.__index.<member>(self)], or
    [(self, <args>)]: the path goes through the base class's instance
    table, the member is reached with a dot, and [self] comes first; the
    text is put between [{ ] and [ }] when the return type is a tuple type
    and wrapping is not suppressed. *)
Theorem super_calls node flag st :
  (forall ty sym st1 params,
      CallExpression.getExpression node = SuperExpression ty ->
      TsType.getSymbol ty = Some sym ->
      transpileArguments (CallExpression.getArguments node) st = (st1, Ok params) ->
      transpileCallExpression node flag st
      = (st1, Ok (Symbol.getName sym +:+ ".constructor("
                    +:+ (if nonEmpty params then "self, " +:+ params else "self")
                    +:+ ")")))
  /\ (forall sty property ty msym sym st1 st2 st3 accessPath params,
         CallExpression.getExpression node
         = PropertyAccessExpression (SuperExpression sty) property ty ->
         leftToDefault (isArrayType sty) sty property = true ->
         TsType.getSymbol ty = Some msym ->
         existsb isMethodDec (Symbol.getDeclarations msym) = true ->
         TsType.getSymbol sty = Some sym ->
         validateApiAccess (IdentifierOf property) st = (st1, Ok tt) ->
         transpileExpression (SuperExpression sty) st1 = (st2, Ok accessPath) ->
         transpileArguments (CallExpression.getArguments node) st2 = (st3, Ok params) ->
         transpileCallExpression node flag st
         = (st3, Ok (wrapped flag (isTupleType (CallExpression.getReturnType node))
                       (Symbol.getName sym +:+ ".__index." +:+ property +:+ "("
                          +:+ (if nonEmpty params then "self, " +:+ params else "self")
                          +:+ ")")))).
Proof.
  split.
  - intros ty sym st1 params Hexp Hsym Ha.
    unfold transpileCallExpression. rewrite Hexp.
    rewrite (bind_step _ _ _ Ha). cbv zeta. cbn [Expr.getType].
    unfold getSymbolOrThrow. rewrite Hsym.
    destruct params; reflexivity.
  - intros sty property ty msym sym st1 st2 st3 accessPath params
           Hexp Hdef Hm Hdec Hsym Hv He Ha.
    erewrite memberCall_default by eassumption.
    rewrite defaultMemberCall_run. cbv zeta. cbn [Expr.getType Expr.isSuperExpression].
    rewrite Hm, Hdec, Hsym, self_params, !append_assoc. reflexivity.
Qed.

End CallFacts.

(** ** The source-file wrapper *)

Section SourceFileFacts.
Context {collab : Collaborators}.

Lemma exportEqualsLoop_after node descendants st :
  exportEqualsLoop node descendants true st
  = if some descendants
    then (st, Throw (TranspilerError
                       "ModuleScript contains multiple ExportEquals. You can only do `export = ` once."
                       (SourceFileOf node) MultipleExportEquals))
    else (st, Ok true).
Proof. destruct descendants; reflexivity. Qed.

(** The loop throws exactly when an export assignment follows an
    [export =]; otherwise it tells whether there is an [export =]. *)
Lemma exportEqualsLoop_run node descendants st :
  exportEqualsLoop node descendants false st
  = if followsExportEquals descendants
    then (st, Throw (TranspilerError
                       "ModuleScript contains multiple ExportEquals. You can only do `export = ` once."
                       (SourceFileOf node) MultipleExportEquals))
    else (st, Ok (existsb isExportEquals descendants)).
Proof.
  induction descendants as [|d rest IH]; [reflexivity|].
  cbn [exportEqualsLoop followsExportEquals existsb].
  destruct (isExportEquals d).
  - rewrite exportEqualsLoop_after. now destruct (some rest).
  - exact IH.
Qed.

Lemma two_export_equals_follow descendants :
  2 <= countExportEquals descendants -> followsExportEquals descendants = true.
Proof.
  unfold countExportEquals.
  induction descendants as [|d rest IH]; cbn [filter followsExportEquals List.length].
  - intros H. inversion H.
  - destruct (isExportEquals d); [|exact IH].
    cbn [List.length]. intros H.
    destruct rest as [|d' rest']; [cbn in H; lia | reflexivity].
Qed.

(** The wrapper on a module-kind file whose body lowered without error. *)
Lemma transpileSourceFile_module node st st1 body :
  transpileStatementedNode node (set_scriptContext (getScriptContext node) st)
  = (st1, Ok body) ->
  isModule st1 = true ->
  getScriptType node = ScriptModule ->
  transpileSourceFile node st
  = if followsExportEquals (SourceFile.getExportAssignments node)
    then (st1, Throw (TranspilerError
                        "ModuleScript contains multiple ExportEquals. You can only do `export = ` once."
                        (SourceFileOf node) MultipleExportEquals))
    else
      let result :=
        (if existsb isExportEquals (SourceFile.getExportAssignments node)
         then indent st1 +:+ line "local _exports;" +:+ body
         else indent st1 +:+ line "local _exports = {};" +:+ body)
        +:+ indent st1 +:+ line "return _exports;" in
      (st1, Ok (if usesTSLibrary st1 then indent st1 +:+ IMP_STR +:+ result
                else result)).
Proof.
  intros Hbody Hmod Htype. unfold transpileSourceFile.
  unfold bind at 1. unfold modify at 1.
  rewrite (bind_step _ _ _ Hbody). cbv zeta.
  unfold bind at 1. unfold gets at 1. rewrite Hmod, Htype. cbn [ScriptType_eqb negb].
  unfold bind at 1. unfold bind at 1. rewrite exportEqualsLoop_run.
  destruct (followsExportEquals (SourceFile.getExportAssignments node)); reflexivity.
Qed.

(** X1 (the half of C9 the code keeps).  A module-kind file with more than one
    [export =] whose body lowered without error: the wrapper throws the
    MultipleExportEquals diagnostic at the file, and returns no text. *)
Theorem multiple_export_equals_rejected node st st1 body :
  transpileStatementedNode node (set_scriptContext (getScriptContext node) st)
  = (st1, Ok body) ->
  isModule st1 = true ->
  getScriptType node = ScriptModule ->
  2 <= countExportEquals (SourceFile.getExportAssignments node) ->
  transpileSourceFile node st
  = (st1, Throw (TranspilerError
                   "ModuleScript contains multiple ExportEquals. You can only do `export = ` once."
                   (SourceFileOf node) MultipleExportEquals)).
Proof.
  intros Hbody Hmod Htype Hcount.
  rewrite (transpileSourceFile_module _ _ Hbody Hmod Htype).
  now rewrite two_export_equals_follow.
Qed.

(** C9, where the code departs from it.  A module-kind file with one
    [export =] followed by one [export default], its body lowered without
    error: the wrapper throws the MultipleExportEquals diagnostic although
    the file has a single [export =]. *)
Theorem export_default_after_export_equals_rejected node st st1 body :
  transpileStatementedNode node (set_scriptContext (getScriptContext node) st)
  = (st1, Ok body) ->
  isModule st1 = true ->
  getScriptType node = ScriptModule ->
  SourceFile.getExportAssignments node
  = [mkExportAssignment true; mkExportAssignment false] ->
  countExportEquals (SourceFile.getExportAssignments node) = 1
  /\ transpileSourceFile node st
     = (st1, Throw (TranspilerError
                      "ModuleScript contains multiple ExportEquals. You can only do `export = ` once."
                      (SourceFileOf node) MultipleExportEquals)).
Proof.
  intros Hbody Hmod Htype Hexports.
  rewrite (transpileSourceFile_module _ _ Hbody Hmod Htype), Hexports.
  split; reflexivity.
Qed.

(** X2.  A module-kind file in which no export assignment follows an
    [export =] (in particular one with a single export assignment) passes
    the check: the text begins with the declaration of [_exports] and ends
    with its return. *)
Theorem single_export_assignment_accepted node st st1 body :
  transpileStatementedNode node (set_scriptContext (getScriptContext node) st)
  = (st1, Ok body) ->
  isModule st1 = true ->
  getScriptType node = ScriptModule ->
  followsExportEquals (SourceFile.getExportAssignments node) = false ->
  exists out, transpileSourceFile node st = (st1, Ok out).
Proof.
  intros Hbody Hmod Htype Hfollow.
  rewrite (transpileSourceFile_module _ _ Hbody Hmod Htype), Hfollow.
  eexists. reflexivity.
Qed.

End SourceFileFacts.

(** ** Call lowering: the other macros, and the default member call *)

Section MacroFacts.
Context {collab : Collaborators}.

(** X3.  A member call on a string receiver (not array-like), the access
    check and the lowering of receiver and arguments having succeeded:
    a member of [STRING_MACRO_METHODS] lowers to a call of Lua's own
    [string] library and leaves the state as the arguments left it; any
    other member lowers to [TS.string_<member>] and sets [usesTSLibrary].
    The receiver is the first argument in both. *)
Theorem string_member_call node flag subExp property ty st st1 st2 st3 accessPath params :
  CallExpression.getExpression node = PropertyAccessExpression subExp property ty ->
  isArrayType (Expr.getType subExp) = false ->
  TsType.isString (Expr.getType subExp) || TsType.isStringLiteral (Expr.getType subExp)
  = true ->
  validateApiAccess (IdentifierOf property) st = (st1, Ok tt) ->
  transpileExpression subExp st1 = (st2, Ok accessPath) ->
  transpileArguments (CallExpression.getArguments node) st2 = (st3, Ok params) ->
  transpileCallExpression node flag st
  = if includes STRING_MACRO_METHODS property
    then (st3, Ok ("string." +:+ property +:+ "("
                     +:+ receiverFirst accessPath params +:+ ")"))
    else (set_usesTSLibrary true st3,
          Ok ("TS.string_" +:+ property +:+ "("
                +:+ receiverFirst accessPath params +:+ ")")).
Proof.
  intros Hexp Harr Hstr Hv He Ha.
  erewrite memberCall_prelude by eassumption.
  rewrite Harr, Hstr. cbv zeta.
  destruct (includes STRING_MACRO_METHODS property); reflexivity.
Qed.

(** X4.  A member call on a receiver (not array-like, not a string) whose
    type symbol is named [Map], [ReadonlyMap] or [WeakMap] lowers to
    [TS.map_<member>(<receiver>[, <args>])], and on one named [Set],
    [ReadonlySet] or [WeakSet] to [TS.set_<member>(<receiver>[, <args>])];
    both set [usesTSLibrary]. *)
Theorem map_and_set_member_call node flag subExp property ty sym
        st st1 st2 st3 accessPath params :
  CallExpression.getExpression node = PropertyAccessExpression subExp property ty ->
  isArrayType (Expr.getType subExp) = false ->
  TsType.isString (Expr.getType subExp) = false ->
  TsType.isStringLiteral (Expr.getType subExp) = false ->
  TsType.getSymbol (Expr.getType subExp) = Some sym ->
  validateApiAccess (IdentifierOf property) st = (st1, Ok tt) ->
  transpileExpression subExp st1 = (st2, Ok accessPath) ->
  transpileArguments (CallExpression.getArguments node) st2 = (st3, Ok params) ->
  (includes ["Map"; "ReadonlyMap"; "WeakMap"] (Symbol.getEscapedName sym) = true ->
   transpileCallExpression node flag st
   = (set_usesTSLibrary true st3,
      Ok ("TS.map_" +:+ property +:+ "(" +:+ receiverFirst accessPath params +:+ ")")))
  /\ (includes ["Set"; "ReadonlySet"; "WeakSet"] (Symbol.getEscapedName sym) = true ->
      transpileCallExpression node flag st
      = (set_usesTSLibrary true st3,
         Ok ("TS.set_" +:+ property +:+ "(" +:+ receiverFirst accessPath params +:+ ")"))).
Proof.
  intros Hexp Harr Hstr Hlit Hsym Hv He Ha.
  erewrite memberCall_prelude by eassumption.
  rewrite Harr, Hstr, Hlit, Hsym. cbn [orb]. cbv zeta.
  unfold namedTypeCall, receiverFirst.
  split; intros Hname; apply includes_In in Hname; cbn [In] in Hname;
    destruct Hname as [<-|[<-|[<-|[]]]]; eval_eqb; cbn [andb orb]; reflexivity.
Qed.

(** X5.  [then] on a receiver whose type symbol is named [Promise] lowers
    to the method call [<receiver>:andThen(<args>)], and [for] on one named
    [SymbolConstructor] to [<receiver>.getFor(<args>)]; neither touches the
    state, and neither is wrapped. *)
Theorem promise_then_and_symbol_for node flag subExp property ty sym
        st st1 st2 st3 accessPath params :
  CallExpression.getExpression node = PropertyAccessExpression subExp property ty ->
  isArrayType (Expr.getType subExp) = false ->
  TsType.isString (Expr.getType subExp) = false ->
  TsType.isStringLiteral (Expr.getType subExp) = false ->
  TsType.getSymbol (Expr.getType subExp) = Some sym ->
  validateApiAccess (IdentifierOf property) st = (st1, Ok tt) ->
  transpileExpression subExp st1 = (st2, Ok accessPath) ->
  transpileArguments (CallExpression.getArguments node) st2 = (st3, Ok params) ->
  (Symbol.getEscapedName sym = "Promise" -> property = "then" ->
   transpileCallExpression node flag st
   = (st3, Ok (accessPath +:+ ":andThen(" +:+ params +:+ ")")))
  /\ (Symbol.getEscapedName sym = "SymbolConstructor" -> property = "for" ->
      transpileCallExpression node flag st
      = (st3, Ok (accessPath +:+ ".getFor(" +:+ params +:+ ")"))).
Proof.
  intros Hexp Harr Hstr Hlit Hsym Hv He Ha.
  erewrite memberCall_prelude by eassumption.
  rewrite Harr, Hstr, Hlit, Hsym. cbn [orb]. cbv zeta.
  unfold namedTypeCall.
  split; intros -> ->; reflexivity.
Qed.

(** The default member call on a receiver other than [super]. *)
Lemma defaultMemberCall_plain node flag expression subExp property accessPath params st :
  Expr.isSuperExpression subExp = false ->
  defaultMemberCall node flag expression subExp property accessPath params st
  = (st, Ok (wrapped flag (isTupleType (CallExpression.getReturnType node))
               (accessPath +:+ memberSeparator expression +:+ property
                  +:+ "(" +:+ params +:+ ")"))).
Proof.
  intros Hsuper. rewrite defaultMemberCall_run. cbv zeta. rewrite Hsuper.
  unfold memberSeparator.
  destruct (TsType.getSymbol (Expr.getType expression)) as [sym|]; [|reflexivity].
  destruct (existsb isMethodDec (Symbol.getDeclarations sym)); reflexivity.
Qed.

(** X6.  A member call that no macro claims, on a receiver other than
    [super]: the member is reached with a colon when it resolves to a
    method declaration or signature, so that the receiver is passed as
    [self], and with a dot otherwise; the state is left as the arguments
    left it. *)
Theorem default_member_call node flag subExp property ty st st1 st2 st3 accessPath params :
  CallExpression.getExpression node = PropertyAccessExpression subExp property ty ->
  leftToDefault (isArrayType (Expr.getType subExp)) (Expr.getType subExp) property = true ->
  Expr.isSuperExpression subExp = false ->
  validateApiAccess (IdentifierOf property) st = (st1, Ok tt) ->
  transpileExpression subExp st1 = (st2, Ok accessPath) ->
  transpileArguments (CallExpression.getArguments node) st2 = (st3, Ok params) ->
  transpileCallExpression node flag st
  = (st3, Ok (wrapped flag (isTupleType (CallExpression.getReturnType node))
                (accessPath
                   +:+ memberSeparator (PropertyAccessExpression subExp property ty)
                   +:+ property +:+ "(" +:+ params +:+ ")"))).
Proof.
  intros Hexp Hdef Hsuper Hv He Ha.
  erewrite memberCall_default by eassumption.
  now apply defaultMemberCall_plain.
Qed.

Lemma math_class_other_names name :
  includes RBX_MATH_CLASSES name = true ->
  includes ["Map"; "ReadonlyMap"; "WeakMap"; "Set"; "ReadonlySet"; "WeakSet";
            "ObjectConstructor"] name = false
  /\ (name =? "Promise") = false /\ (name =? "SymbolConstructor") = false.
Proof.
  intros H. apply includes_In in H. cbn [RBX_MATH_CLASSES In] in H.
  destruct H as [<-|[<-|[<-|[<-|[<-|[<-|[<-|[]]]]]]]]; repeat split; reflexivity.
Qed.

Lemma mathOperator_None property :
  mathOperator property = None -> includes ["add"; "sub"; "mul"; "div"] property = false.
Proof.
  unfold mathOperator. rewrite !includes_cons.
  destruct (property =? "add"); [discriminate|].
  destruct (property =? "sub"); [discriminate|].
  destruct (property =? "mul"); [discriminate|].
  destruct (property =? "div"); [discriminate|]. reflexivity.
Qed.

(** X7.  Only [add], [sub], [mul] and [div] are macros of the Roblox math
    classes: any other member of such a receiver (not [super]) is an
    ordinary member call, and is not refused as an expression statement. *)
Theorem math_class_other_member node flag subExp property ty sym
        st st1 st2 st3 accessPath params :
  CallExpression.getExpression node = PropertyAccessExpression subExp property ty ->
  isArrayType (Expr.getType subExp) = false ->
  TsType.isString (Expr.getType subExp) = false ->
  TsType.isStringLiteral (Expr.getType subExp) = false ->
  TsType.getSymbol (Expr.getType subExp) = Some sym ->
  includes RBX_MATH_CLASSES (Symbol.getEscapedName sym) = true ->
  mathOperator property = None ->
  Expr.isSuperExpression subExp = false ->
  validateApiAccess (IdentifierOf property) st = (st1, Ok tt) ->
  transpileExpression subExp st1 = (st2, Ok accessPath) ->
  transpileArguments (CallExpression.getArguments node) st2 = (st3, Ok params) ->
  transpileCallExpression node flag st
  = (st3, Ok (wrapped flag (isTupleType (CallExpression.getReturnType node))
                (accessPath
                   +:+ memberSeparator (PropertyAccessExpression subExp property ty)
                   +:+ property +:+ "(" +:+ params +:+ ")"))).
Proof.
  intros Hexp Harr Hstr Hlit Hsym Hmath Hop Hsuper Hv He Ha.
  erewrite memberCall_default; try eassumption.
  - now apply defaultMemberCall_plain.
  - unfold leftToDefault, namedTypeForm. rewrite Harr, Hstr, Hlit, Hsym, Hmath.
    destruct (math_class_other_names _ Hmath) as (-> & -> & ->).
    now rewrite (mathOperator_None _ Hop).
Qed.

(** Where a named-type form applies, what follows is not reached. *)
Lemma namedTypeCall_claimed node name property accessPath params (k1 k2 : M string) :
  namedTypeForm name property = true ->
  namedTypeCall node name property accessPath params k1
  = namedTypeCall node name property accessPath params k2.
Proof.
  intros H. unfold namedTypeCall.
  destruct ((name =? "Promise") && (property =? "then")) eqn:E1; [reflexivity|].
  destruct ((name =? "SymbolConstructor") && (property =? "for")) eqn:E2; [reflexivity|].
  destruct ((name =? "Map") || (name =? "ReadonlyMap") || (name =? "WeakMap")) eqn:E3;
    [reflexivity|].
  destruct ((name =? "Set") || (name =? "ReadonlySet") || (name =? "WeakSet")) eqn:E4;
    [reflexivity|].
  destruct (name =? "ObjectConstructor") eqn:E5; [reflexivity|].
  destruct (includes RBX_MATH_CLASSES name) eqn:E6.
  - destruct (property =? "add") eqn:Ea; [reflexivity|].
    destruct (property =? "sub") eqn:Eb; [reflexivity|].
    destruct (property =? "mul") eqn:Ec; [reflexivity|].
    destruct (property =? "div") eqn:Ed; [reflexivity|].
    exfalso. unfold namedTypeForm in H. rewrite E6 in H.
    rewrite !orb_false_iff in E3, E4.
    destruct E3 as ((Em1 & Em2) & Em3). destruct E4 as ((Es1 & Es2) & Es3).
    rewrite !includes_cons in H.
    rewrite E1, E2, Em1, Em2, Em3, Es1, Es2, Es3, E5, Ea, Eb, Ec, Ed in H.
    discriminate H.
  - exfalso. unfold namedTypeForm in H. rewrite E6 in H.
    rewrite !orb_false_iff in E3, E4.
    destruct E3 as ((Em1 & Em2) & Em3). destruct E4 as ((Es1 & Es2) & Es3).
    rewrite !includes_cons in H.
    rewrite E1, E2, Em1, Em2, Em3, Es1, Es2, Es3, E5 in H.
    discriminate H.
Qed.

(** X8.  A macro never wraps a tuple return: for a [super(...)] call, and
    for a member call that a macro claims (the receiver is array-like or a
    string, or a named-type form applies), the result does not depend on
    the wrapping-suppression flag, whatever the return type. *)
Theorem macros_never_wrap node flag st :
  match CallExpression.getExpression node with
  | SuperExpression _ => True
  | PropertyAccessExpression subExp property _ =>
      leftToDefault (isArrayType (Expr.getType subExp)) (Expr.getType subExp) property
      = false
  | OtherExpression _ _ => False
  end ->
  transpileCallExpression node flag st = transpileCallExpression node true st.
Proof.
  unfold transpileCallExpression, transpilePropertyCallExpression.
  destruct (CallExpression.getExpression node) as [subExp property ty|ty|text ty];
    [|reflexivity|contradiction].
  intros Hclaimed. unfold bind.
  destruct (validateApiAccess (IdentifierOf property) st) as [st1 [[]|e]]; [|reflexivity].
  destruct (transpileExpression subExp st1) as [st2 [accessPath|e]]; [|reflexivity].
  destruct (transpileArguments (CallExpression.getArguments node) st2)
    as [st3 [params|e]]; [|reflexivity].
  unfold leftToDefault in Hclaimed.
  destruct (isArrayType (Expr.getType subExp)); [reflexivity|].
  destruct (TsType.isString (Expr.getType subExp)
            || TsType.isStringLiteral (Expr.getType subExp)); [reflexivity|].
  cbn [negb andb] in Hclaimed.
  destruct (TsType.getSymbol (Expr.getType subExp)) as [sym|]; [|discriminate Hclaimed].
  apply negb_false_iff in Hclaimed.
  now rewrite (namedTypeCall_claimed node _ _ accessPath params _
                 (defaultMemberCall node true (PropertyAccessExpression subExp property ty)
                                    subExp property accessPath params) Hclaimed).
Qed.

(** X9.  A [super(...)] call, or a method call on [super] left to the
    default member call, where the type of [super] has no symbol: once the
    arguments are lowered the call throws the error of
    [getSymbolOrThrow], which is no diagnostic of the transpiler. *)
Theorem super_without_symbol node flag st :
  (forall ty st1 params,
      CallExpression.getExpression node = SuperExpression ty ->
      TsType.getSymbol ty = None ->
      transpileArguments (CallExpression.getArguments node) st = (st1, Ok params) ->
      exists message,
        transpileCallExpression node flag st = (st1, Throw (RuntimeError message)))
  /\ (forall sty property ty msym st1 st2 st3 accessPath params,
         CallExpression.getExpression node
         = PropertyAccessExpression (SuperExpression sty) property ty ->
         isArrayType sty = false ->
         TsType.isString sty || TsType.isStringLiteral sty = false ->
         TsType.getSymbol sty = None ->
         TsType.getSymbol ty = Some msym ->
         existsb isMethodDec (Symbol.getDeclarations msym) = true ->
         validateApiAccess (IdentifierOf property) st = (st1, Ok tt) ->
         transpileExpression (SuperExpression sty) st1 = (st2, Ok accessPath) ->
         transpileArguments (CallExpression.getArguments node) st2 = (st3, Ok params) ->
         exists message,
           transpileCallExpression node flag st = (st3, Throw (RuntimeError message))).
Proof.
  split.
  - intros ty st1 params Hexp Hsym Ha. eexists.
    unfold transpileCallExpression. rewrite Hexp.
    rewrite (bind_step _ _ _ Ha). cbv zeta. cbn [Expr.getType].
    unfold getSymbolOrThrow. rewrite Hsym. reflexivity.
  - intros sty property ty msym st1 st2 st3 accessPath params
           Hexp Harr Hstr Hsym Hm Hdec Hv He Ha. eexists.
    erewrite memberCall_prelude by eassumption.
    cbn [Expr.getType]. rewrite Harr, Hstr, Hsym. cbv zeta.
    rewrite defaultMemberCall_run. cbv zeta.
    cbn [Expr.getType Expr.isSuperExpression].
    rewrite Hm, Hdec, Hsym. reflexivity.
Qed.

End MacroFacts.

(** ** Call lowering: what it leaves of the state *)

Section CallFrame.
Context {collab : Collaborators}.
Variable P : TranspilerState -> Prop.
Hypothesis P_uses : forall s, P s -> P (set_usesTSLibrary true s).
Hypothesis P_access : forall n s s' r, validateApiAccess n s = (s', r) -> P s -> P s'.
Hypothesis P_expression : forall e s s' r, transpileExpression e s = (s', r) -> P s -> P s'.
Hypothesis P_arguments : forall a s s' r, transpileArguments a s = (s', r) -> P s -> P s'.

(** [m] keeps [P], whether it returns or throws. *)
Let keeps {A} (m : M A) : Prop := forall s s' r, m s = (s', r) -> P s -> P s'.

Lemma keeps_ret {A} (a : A) : keeps (ret a).
Proof. intros s s' r [= <- _] Hp. exact Hp. Qed.

Lemma keeps_throw {A} (e : Exception) : keeps (@throw A e).
Proof. intros s s' r [= <- _] Hp. exact Hp. Qed.

Lemma keeps_bind {A B} (m : M A) (f : A -> M B) :
  keeps m -> (forall a, keeps (f a)) -> keeps (bind m f).
Proof.
  intros Hm Hf s s' r H Hp. unfold bind in H.
  destruct (m s) as [s1 [a|e]] eqn:E.
  - eapply Hf; [exact H|]. eapply Hm; eassumption.
  - inversion H; subst. eapply Hm; eassumption.
Qed.

Lemma keeps_uses : keeps (modify (set_usesTSLibrary true)).
Proof. intros s s' r [= <- _] Hp. now apply P_uses. Qed.

Ltac keeps_step :=
  first [ apply keeps_ret | apply keeps_throw | apply keeps_uses
        | apply keeps_bind; [|intros ?]
        | match goal with
          | |- keeps (if ?b then _ else _) => destruct b
          | |- keeps (match ?o with Some _ => _ | None => _ end) => destruct o
          end ].

Lemma keeps_defaultMemberCall node flag expression subExp property accessPath params :
  keeps (defaultMemberCall node flag expression subExp property accessPath params).
Proof.
  unfold defaultMemberCall, getSymbolOrThrow. cbv zeta.
  apply keeps_bind; [|intros [[a p] sep]; apply keeps_ret].
  repeat keeps_step.
Qed.

Lemma keeps_namedTypeCall node name property accessPath params (k : M string) :
  keeps k -> keeps (namedTypeCall node name property accessPath params k).
Proof.
  intros Hk. unfold namedTypeCall, validateMathCall.
  repeat first [ exact Hk | keeps_step ].
Qed.

(** X10.  The call lowering writes the state only through the access
    check, the lowering of the callee and of the arguments, and by setting
    [usesTSLibrary]: a property of the state that these keep is kept by the
    lowering of any call, whether it returns or throws.  In particular a
    set [usesTSLibrary] stays set. *)
Theorem call_lowering_frame node flag st st' r :
  transpileCallExpression node flag st = (st', r) -> P st -> P st'.
Proof.
  revert st st' r. change (keeps (transpileCallExpression node flag)).
  unfold transpileCallExpression, transpilePropertyCallExpression, getSymbolOrThrow.
  cbv zeta.
  destruct (CallExpression.getExpression node) as [subExp property ty|ty|text ty].
  - apply keeps_bind; [intros s s' r; apply P_access|intros _].
    apply keeps_bind; [intros s s' r; apply P_expression|intros accessPath].
    apply keeps_bind; [intros s s' r; apply P_arguments|intros params].
    destruct (isArrayType (Expr.getType subExp)); [repeat keeps_step|].
    destruct (TsType.isString (Expr.getType subExp)
              || TsType.isStringLiteral (Expr.getType subExp)); [repeat keeps_step|].
    destruct (TsType.getSymbol (Expr.getType subExp)).
    + apply keeps_namedTypeCall, keeps_defaultMemberCall.
    + apply keeps_defaultMemberCall.
  - apply keeps_bind; [intros s s' r; apply P_arguments|intros params].
    repeat keeps_step.
  - apply keeps_bind; [intros s s' r; apply P_expression|intros callPath].
    apply keeps_bind; [intros s s' r; apply P_arguments|intros params].
    apply keeps_ret.
Qed.

End CallFrame.

(** ** The source-file wrapper: every case *)

Section FileFacts.
Context {collab : Collaborators}.

(** The wrapper, once the body of the file is lowered. *)
Lemma transpileSourceFile_run node st st1 body :
  transpileStatementedNode node (set_scriptContext (getScriptContext node) st)
  = (st1, Ok body) ->
  transpileSourceFile node st
  = if isModule st1 then
      if negb (ScriptType_eqb (getScriptType node) ScriptModule) then
        (st1, Throw (TranspilerError "Attempted to export in a non-ModuleScript!"
                                     (SourceFileOf node) ExportInNonModuleScript))
      else if followsExportEquals (SourceFile.getExportAssignments node) then
        (st1, Throw (TranspilerError
                       "ModuleScript contains multiple ExportEquals. You can only do `export = ` once."
                       (SourceFileOf node) MultipleExportEquals))
      else
        (st1, Ok (withImport st1
                    ((indent st1
                        +:+ (if existsb isExportEquals (SourceFile.getExportAssignments node)
                             then line "local _exports;" else line "local _exports = {};")
                        +:+ body)
                       +:+ indent st1 +:+ line "return _exports;")))
    else
      (st1, Ok (withImport st1
                  (if ScriptType_eqb (getScriptType node) ScriptModule
                   then body +:+ indent st1 +:+ line "return nil;"
                   else body))).
Proof.
  intros Hbody. unfold transpileSourceFile, withImport.
  unfold bind at 1. unfold modify at 1.
  rewrite (bind_step _ _ _ Hbody). cbv zeta.
  unfold bind at 1. unfold gets at 1.
  destruct (isModule st1).
  - destruct (ScriptType_eqb (getScriptType node) ScriptModule); cbn [negb];
      [|reflexivity].
    unfold bind at 1. unfold bind at 1. rewrite exportEqualsLoop_run.
    destruct (followsExportEquals (SourceFile.getExportAssignments node)); [reflexivity|].
    destruct (existsb isExportEquals (SourceFile.getExportAssignments node)); reflexivity.
  - destruct (ScriptType_eqb (getScriptType node) ScriptModule); reflexivity.
Qed.

Lemma ScriptType_eqb_neq a b : a <> b -> ScriptType_eqb a b = false.
Proof. destruct a, b; intros H; try reflexivity; now contradiction H. Qed.

(** X11.  A file that exports (the state says [isModule] once its body is
    lowered) but is not of the module script kind is refused with the
    ExportInNonModuleScript diagnostic, reported at the file; this check
    comes before the one on [export =], whatever the export assignments
    are. *)
Theorem export_in_non_module_script node st st1 body :
  transpileStatementedNode node (set_scriptContext (getScriptContext node) st)
  = (st1, Ok body) ->
  isModule st1 = true ->
  getScriptType node <> ScriptModule ->
  transpileSourceFile node st
  = (st1, Throw (TranspilerError "Attempted to export in a non-ModuleScript!"
                                 (SourceFileOf node) ExportInNonModuleScript)).
Proof.
  intros Hbody Hmod Htype.
  rewrite (transpileSourceFile_run _ _ Hbody), Hmod.
  now rewrite (ScriptType_eqb_neq Htype).
Qed.

(** X12.  The text of an accepted module file: the import line when the
    runtime library was used, then the declaration of [_exports] (left
    without a value when the file has an [export =], an empty table
    otherwise), the body, and the return of [_exports]; each of the lines
    the wrapper adds is indented as the state says. *)
Theorem module_file_text node st st1 body :
  transpileStatementedNode node (set_scriptContext (getScriptContext node) st)
  = (st1, Ok body) ->
  isModule st1 = true ->
  getScriptType node = ScriptModule ->
  followsExportEquals (SourceFile.getExportAssignments node) = false ->
  transpileSourceFile node st
  = (st1,
     Ok ((if usesTSLibrary st1 then indent st1 +:+ IMP_STR else EmptyString)
           +:+ indent st1
           +:+ (if existsb isExportEquals (SourceFile.getExportAssignments node)
                then line "local _exports;" else line "local _exports = {};")
           +:+ body
           +:+ indent st1 +:+ line "return _exports;")).
Proof.
  intros Hbody Hmod Htype Hfollow.
  rewrite (transpileSourceFile_run _ _ Hbody), Hmod, Htype, Hfollow. cbn [ScriptType_eqb negb].
  unfold withImport. f_equal. f_equal.
  destruct (usesTSLibrary st1); cbn [String.append]; now rewrite !append_assoc.
Qed.

(** X13.  A file that exports nothing is never refused, whatever its
    export assignments and script kind: its text is the body, followed by
    [return nil;] when the file is of the module script kind, and preceded
    by the import line when the runtime library was used. *)
Theorem plain_file_text node st st1 body :
  transpileStatementedNode node (set_scriptContext (getScriptContext node) st)
  = (st1, Ok body) ->
  isModule st1 = false ->
  transpileSourceFile node st
  = (st1,
     Ok ((if usesTSLibrary st1 then indent st1 +:+ IMP_STR else EmptyString)
           +:+ body
           +:+ (if ScriptType_eqb (getScriptType node) ScriptModule
                then indent st1 +:+ line "return nil;" else EmptyString))).
Proof.
  intros Hbody Hmod.
  rewrite (transpileSourceFile_run _ _ Hbody), Hmod.
  unfold withImport. f_equal. f_equal.
  destruct (usesTSLibrary st1), (ScriptType_eqb (getScriptType node) ScriptModule);
    cbn [String.append]; now rewrite ?append_assoc, ?append_nil_r.
Qed.

(** X14.  All the wrapper writes to the state is the script context, before
    the body is lowered: it ends in the state the lowering of the body ended
    in, whether it returns or throws, and an error of the body is the error
    of the wrapper. *)
Theorem source_file_state node st :
  fst (transpileSourceFile node st)
  = fst (transpileStatementedNode node (set_scriptContext (getScriptContext node) st))
  /\ forall e,
      snd (transpileStatementedNode node (set_scriptContext (getScriptContext node) st))
      = Throw e ->
      snd (transpileSourceFile node st) = Throw e.
Proof.
  destruct (transpileStatementedNode node (set_scriptContext (getScriptContext node) st))
    as [st1 [body|e]] eqn:Hbody.
  - split; [|intros e E; discriminate E].
    rewrite (transpileSourceFile_run _ _ Hbody).
    destruct (isModule st1);
      [destruct (negb (ScriptType_eqb (getScriptType node) ScriptModule));
       [|destruct (followsExportEquals (SourceFile.getExportAssignments node))]|];
      reflexivity.
  - assert (Hrun : transpileSourceFile node st = (st1, Throw e)).
    { unfold transpileSourceFile. unfold bind at 1. unfold modify at 1.
      now rewrite (bind_Throw _ _ _ Hbody). }
    rewrite Hrun. split; [reflexivity|]. intros e' E. exact E.
Qed.

(** X15.  [typeof e] lowers to [TS.typeof(<e>)] and sets [usesTSLibrary],
    changing nothing else of the state the operand left; when the operand
    cannot be lowered its error is thrown and the flag is not touched. *)
Theorem typeof_expression node st :
  match transpileExpression (TypeOfExpression.getExpression node) st with
  | (st1, Ok expStr) =>
      transpileTypeOfExpression node st
      = (set_usesTSLibrary true st1, Ok ("TS.typeof(" +:+ expStr +:+ ")"))
  | (st1, Throw e) => transpileTypeOfExpression node st = (st1, Throw e)
  end.
Proof.
  unfold transpileTypeOfExpression, bind.
  destruct (transpileExpression (TypeOfExpression.getExpression node) st)
    as [st1 [expStr|e]]; reflexivity.
Qed.

End FileFacts.

(** ** Class lowering: the chain of base classes *)

(** Induction along [getBaseClass()]. *)
Lemma ClassNode_chain_ind (P : ClassNode.t -> Prop) :
  (forall c, (forall b, ClassNode.getBaseClass c = Some b -> P b) -> P c) ->
  forall c, P c.
Proof.
  intros H. fix IH 1. intros c. apply H. intros b Hb.
  destruct c as [k n bt ext base mem ctors abs]. cbn in Hb.
  destruct base as [b'|]; [|discriminate Hb].
  injection Hb as <-. apply IH.
Qed.

Lemma getClassMethod_unfold c m :
  getClassMethod c m
  = match ClassNode.getMethod c m with
    | Some method => Some method
    | None =>
        match ClassNode.getBaseClass c with
        | Some b => getClassMethod b m
        | None => None
        end
    end.
Proof.
  destruct c as [k n bt ext base mem ctors abs]. cbn [getClassMethod].
  destruct (ClassNode.getMethod _ m); [reflexivity|].
  cbn [ClassNode.getBaseClass]. destruct base as [b|]; [|reflexivity].
  now destruct (getClassMethod b m).
Qed.

Lemma ancestors_unfold c :
  ClassNode.ancestors c
  = match ClassNode.getBaseClass c with
    | Some b => b :: ClassNode.ancestors b
    | None => []
    end.
Proof. destruct c as [k n bt ext [b|] mem ctors abs]; reflexivity. Qed.

(** X16.  [getClassMethod] finds the method of the nearest class that
    declares one of that name, the class itself first and then its base
    classes in order; it finds none exactly when no class of the chain
    declares one. *)
Theorem getClassMethod_nearest node m :
  getClassMethod node m
  = match find (fun c => isSome (ClassNode.getMethod c m)) (lineage node) with
    | Some c => ClassNode.getMethod c m
    | None => None
    end.
Proof.
  induction node as [c IH] using ClassNode_chain_ind.
  rewrite getClassMethod_unfold. unfold lineage in *. cbn [find].
  destruct (ClassNode.getMethod c m) as [method|] eqn:Hm; cbn [isSome].
  - now rewrite Hm.
  - rewrite ancestors_unfold.
    destruct (ClassNode.getBaseClass c) as [b|]; [|reflexivity].
    now apply IH.
Qed.

Lemma getClassMethod_lineage node m :
  isSome (getClassMethod node m)
  = existsb (fun c => isSome (ClassNode.getMethod c m)) (lineage node).
Proof.
  induction node as [c IH] using ClassNode_chain_ind.
  rewrite getClassMethod_unfold. unfold lineage in *. cbn [existsb].
  destruct (ClassNode.getMethod c m) as [method|]; [reflexivity|]. cbn [isSome orb].
  rewrite ancestors_unfold.
  destruct (ClassNode.getBaseClass c) as [b|]; [|reflexivity].
  now apply IH.
Qed.

Lemma isSome_true {A} (o : option A) : isSome o = true <-> o <> None.
Proof. destruct o; cbn; split; congruence. Qed.

Lemma count_flat_map {A} (x : string) (f : A -> list string) (q : A -> bool) (l : list A) :
  (forall a, List.length (filter (String.eqb x) (f a)) = if q a then 1 else 0) ->
  List.length (filter (String.eqb x) (flat_map f l)) = List.length (filter q l).
Proof.
  intros H. induction l as [|a l IH]; [reflexivity|].
  cbn [flat_map filter]. rewrite count_app, H, IH.
  now destruct (q a).
Qed.

Section MoreClassFacts.
Context {collab : Collaborators}.

(** A literal of the first half of the skeleton, of its second half. *)
Ltac none_in_tables node :=
  unfold tablesLits, tableLits;
  destruct (ClassNode.isClassExpression node),
           (hasStaticInheritance node), (hasInstanceInheritance node),
           (some (filter hasBody (ClassNode.getStaticMethods node))),
           (some (filter hasBody (ClassNode.getInstanceMethods node)));
  reflexivity.

Ltac none_in_loops node :=
  rewrite filter_flat_map_nil
    by (let m := fresh "m" in
        intros m; destruct (getClassMethod node m); reflexivity);
  rewrite filter_flat_map_nil
    by (let prop := fresh "prop" in
        intros prop; unfold staticPropertyLits;
        destruct (ClassMember.isInitializerExpressionableNode prop);
        [destruct (ClassMember.getInitializer prop)|]; reflexivity).

Ltac by_flags node :=
  destruct (ClassNode.isClassExpression node), (ClassNode.isAbstract node),
           (some (gettersOf node)), (ancestorHasGetters node),
           (some (settersOf node)), (ancestorHasSetters node);
  reflexivity.

Ltac once_in_glue node :=
  unfold classLits; rewrite count_app;
  match goal with
  | |- List.length (filter ?p (tablesLits node)) + _ = _ =>
      replace (List.length (filter p (tablesLits node))) with 0
        by (symmetry; none_in_tables node)
  end;
  cbn [Nat.add]; unfold glueLits, accessorTableLits; rewrite !count_app;
  none_in_loops node; by_flags node.

Ltac once_in_tables node :=
  unfold classLits; rewrite count_app;
  match goal with
  | |- _ + List.length (filter ?p (glueLits node)) = _ =>
      replace (List.length (filter p (glueLits node))) with 0
        by (symmetry; unfold glueLits, accessorTableLits; rewrite !count_app;
            none_in_loops node; by_flags node)
  end;
  rewrite Nat.add_0_r; none_in_tables node.

Lemma count_trampolines node :
  List.length (filter (String.eqb " = function(self, ...) return self:") (classLits node))
  = List.length (filter (fun m => isSome (getClassMethod node m)) LUA_RESERVED_METAMETHODS).
Proof.
  unfold classLits. rewrite count_app.
  replace (List.length (filter (String.eqb " = function(self, ...) return self:")
                               (tablesLits node))) with 0
    by (symmetry; none_in_tables node).
  cbn [Nat.add]. unfold glueLits, accessorTableLits. rewrite !count_app.
  rewrite (count_flat_map _ _ (fun m => isSome (getClassMethod node m)))
    by (intros m; destruct (getClassMethod node m); reflexivity).
  rewrite filter_flat_map_nil
    by (intros prop; unfold staticPropertyLits;
        destruct (ClassMember.isInitializerExpressionableNode prop);
        [destruct (ClassMember.getInitializer prop)|]; reflexivity).
  match goal with |- ?n + ?rest = ?n => replace rest with 0; [apply Nat.add_0_r|] end.
  by_flags node.
Qed.

(** X17.  Metamethods are looked up along the chain of base classes: a
    lowered class holds a trampoline for every reserved metamethod name
    that the class or any of its ancestors declares as a method, and writes
    as many trampolines as there are such names. *)
Theorem inherited_metamethod_trampolines node st :
  scanBaseTypes (ClassNode.getBaseTypes node) = NotRoact ->
  forall st' out,
    transpileClass node st = (st', Ok out) ->
    exists toks name st1,
      transpileClassTokens node st = (st', Ok toks) /\ out = render toks
      /\ resolveName node st = (st1, Ok name)
      /\ (forall c m,
             In c (lineage node) -> In m LUA_RESERVED_METAMETHODS ->
             ClassNode.getMethod c m <> None ->
             occursIn (trampolineText name m) out)
      /\ countLit " = function(self, ...) return self:" toks
         = List.length
             (filter (fun m => existsb (fun c => isSome (ClassNode.getMethod c m))
                                       (lineage node))
                     LUA_RESERVED_METAMETHODS).
Proof.
  intros Hscan st' out H. apply transpileClass_inv in H. destruct H as (toks & Hrun & ->).
  pose proof (transpileClassTokens_lits _ _ Hscan Hrun) as Hlits.
  pose proof Hrun as Hinv. apply transpileClassTokens_inv in Hinv; [|assumption].
  destruct Hinv as (name & st1 & st2 & st3 & tables & inits & glue
                    & Hname & _ & _ & Hglue & Htoks).
  exists toks, name, st1.
  split; [assumption|]. split; [reflexivity|]. split; [assumption|]. split.
  - intros c m Hc Hin Hm. subst toks.
    assert (Hfound : getClassMethod node m <> None).
    { apply isSome_true. rewrite getClassMethod_lineage. apply existsb_exists.
      exists c. split; [assumption | now apply isSome_true]. }
    apply emitGlue_inv in Hglue.
    destruct Hglue as (meta & factory & ctor & props & getters & setters & closing
                       & s2 & s3 & s4 & s5 & s6 & Hmeta & _ & _ & _ & _ & _ & _ & ->).
    unfold emitMetamethods in Hmeta. apply metamethods_Ok in Hmeta.
    destruct Hmeta as (_ & -> & _).
    destruct (flat_map_segment
                (fun m => match getClassMethod node m with
                          | Some _ => Val (indent st3) :: trampoline name m
                          | None => []
                          end) _ _ Hin) as (pre & post & ->).
    destruct (getClassMethod node m); [|congruence].
    rewrite <- render_trampoline.
    replace (tables ++ (pre ++ (Val (indent st3) :: trampoline name m) ++ post) ++
             factory ++ ctor ++ props ++ getters ++ setters ++ closing)
      with ((tables ++ pre ++ [Val (indent st3)]) ++ trampoline name m ++
            (post ++ factory ++ ctor ++ props ++ getters ++ setters ++ closing)).
    + apply occursIn_render.
    + rewrite <- !app_assoc. reflexivity.
  - rewrite countLit_lits, Hlits, count_trampolines.
    f_equal. apply filter_ext. intros m. apply getClassMethod_lineage.
Qed.

(** X18.  A class whose written name the name check refuses is not
    lowered: the error of the check is thrown before anything is exported,
    hoisted or emitted, and the state is untouched. *)
Theorem reserved_class_name_rejected node st n e :
  ClassNode.getName node = Some n ->
  nonEmpty n = true ->
  checkReserved n (IdentifierOf n) = Throw e ->
  transpileClass node st = (st, Throw e).
Proof.
  intros Hn Hne Hcheck.
  unfold transpileClass, transpileClassTokens, resolveName.
  rewrite Hn, Hne. unfold bind, ret, liftResult. now rewrite Hcheck.
Qed.

(** X19.  The heritage types decide, in order, whether the class is left
    to the Roact lowering.  When the first type that matters begins with
    the Roact component (pure component) type, the result of lowering the
    class is the result of [transpileRoactClassDeclaration] for
    [Component] ([PureComponent]), run once the name is resolved and
    exported; when it inherits from Roact otherwise, the lowering throws
    the RoactSubClassesNotSupported diagnostic at the class. *)
Theorem roact_classes node st st1 st2 name :
  resolveName node st = (st1, Ok name) ->
  (if ClassNode.isClassDeclaration node then pushExport name node else ret tt) st1
  = (st2, Ok tt) ->
  match scanBaseTypes (ClassNode.getBaseTypes node) with
  | RoactComponent =>
      transpileClass node st = transpileRoactClassDeclaration "Component" name node st2
  | RoactPureComponent =>
      transpileClass node st = transpileRoactClassDeclaration "PureComponent" name node st2
  | RoactSubClass =>
      transpileClass node st
      = (st2, Throw (TranspilerError "Derived Classes are not supported in Roact!"
                                     (ClassNodeOf node) RoactSubClassesNotSupported))
  | NotRoact => True
  end.
Proof.
  intros Hname Hexport.
  assert (Hvia : forall tag,
             (ts <- (name <- resolveName node ;;
                     (if ClassNode.isClassDeclaration node
                      then pushExport name node else ret tt) ;;
                     s <- transpileRoactClassDeclaration tag name node ;; ret [Val s]) ;;
              ret (render ts)) st
             = transpileRoactClassDeclaration tag name node st2).
  { intros tag. unfold bind at 1. rewrite (bind_step _ _ _ Hname), (bind_step _ _ _ Hexport).
    unfold bind, ret.
    destruct (transpileRoactClassDeclaration tag name node st2) as [s [text|e]];
      [|reflexivity].
    cbn [render tokText]. now rewrite append_nil_r. }
  unfold transpileClass, transpileClassTokens.
  destruct (scanBaseTypes (ClassNode.getBaseTypes node)); [apply Hvia | apply Hvia | | exact I].
  unfold bind at 1. now rewrite (bind_step _ _ _ Hname), (bind_step _ _ _ Hexport).
Qed.

(** The opening of the block: the class name is hoisted for a declaration,
    and the indentation goes in. *)
Lemma emitOpening_inv name node st st' r :
  emitOpening name node st = (st', Ok r) ->
  exists sh,
    (if ClassNode.isClassExpression node then sh = st else hoist name st = (sh, Ok tt))
    /\ st' = pushIndent sh
    /\ r = if ClassNode.isClassExpression node
           then [Lit (line "(function()")]
           else [Val (indent st); Lit (line "do")].
Proof.
  unfold emitOpening. rewrite !block_cons, block_nil. intros H.
  apply bind_Ok in H. destruct H as (r1 & s1 & H1 & H).
  apply bind_Ok in H. destruct H as (r2 & s2 & H2 & H). run_inv H.
  apply bind_Ok in H2. destruct H2 as (r3 & s3 & H3 & H2). run_inv H3. run_inv H2.
  exists s1. destruct (ClassNode.isClassExpression node).
  - run_inv H1. repeat split.
  - apply bind_Ok in H1. destruct H1 as (r4 & s4 & H4 & H1). run_inv H4.
    apply bind_Ok in H1. destruct H1 as ([] & s5 & H5 & H1). run_inv H1.
    repeat split. assumption.
Qed.

Lemma emitTables_inv name node st st' tables inits :
  emitTables name node st = (st', Ok (tables, inits)) ->
  exists sh s1 baseClassName s2 alias static inst,
    (if ClassNode.isClassExpression node then sh = st else hoist name st = (sh, Ok tt))
    /\ lowerBaseClassName node (pushIndent sh) = (s1, Ok baseClassName)
    /\ emitSuperAlias node baseClassName s1 = (s1, Ok alias)
    /\ emitStaticTable name node s1 = (s2, Ok static)
    /\ emitInstanceTable name node s2 = (st', Ok (inst, inits))
    /\ tables
       = (if ClassNode.isClassExpression node
          then [Lit (line "(function()")]
          else [Val (indent st); Lit (line "do")])
         ++ alias ++ static ++ inst.
Proof.
  unfold emitTables. intros H.
  apply bind_Ok in H. destruct H as (opening & s0 & H0 & H).
  apply bind_Ok in H. destruct H as (base & s1 & H1 & H).
  apply bind_Ok in H. destruct H as (alias & s1' & H2 & H).
  apply bind_Ok in H. destruct H as (static & s2 & H3 & H).
  apply bind_Ok in H. destruct H as ([inst extra] & s3 & H4 & H). run_inv H.
  apply emitOpening_inv in H0. destruct H0 as (sh & Hopened & -> & ->).
  pose proof H2 as H2'. apply emitSuperAlias_Ok in H2'. destruct H2' as [-> _].
  exists sh, s1, base, s2, alias, static, inst.
  repeat (split; [assumption|]). reflexivity.
Qed.

Lemma count_local node :
  List.length (filter (String.eqb "local ") (classLits node))
  = if ClassNode.isClassExpression node then 1 else 0.
Proof. once_in_tables node. Qed.

(** X20.  A class declaration is lowered to a [do ... end;] block, in
    which the class table is assigned to the hoisted name; a class
    expression is lowered to a function called at once,
    [(function() ... end)()], in which the class table is a [local]. *)
Theorem class_block_framing node st :
  scanBaseTypes (ClassNode.getBaseTypes node) = NotRoact ->
  forall st' out,
    transpileClass node st = (st', Ok out) ->
    exists toks ind body ind',
      transpileClassTokens node st = (st', Ok toks) /\ out = render toks
      /\ out = (if ClassNode.isClassExpression node
                then line "(function()" else ind +:+ line "do")
               +:+ body +:+ ind'
               +:+ (if ClassNode.isClassExpression node then "end)()" else line "end;")
      /\ countLit "local " toks = if ClassNode.isClassExpression node then 1 else 0.
Proof.
  intros Hscan st' out H. apply transpileClass_inv in H. destruct H as (toks & Hrun & ->).
  pose proof (transpileClassTokens_lits _ _ Hscan Hrun) as Hlits.
  pose proof Hrun as Hinv. apply transpileClassTokens_inv in Hinv; [|assumption].
  destruct Hinv as (name & st1 & st2 & st3 & tables & inits & glue
                    & _ & _ & Htables & Hglue & Htoks).
  apply emitTables_inv in Htables.
  destruct Htables as (sh & s1 & base & s2 & alias & static & inst
                       & _ & _ & _ & _ & _ & Ht).
  apply emitGlue_inv in Hglue.
  destruct Hglue as (meta & factory & ctor & props & getters & setters & closing
                     & t2 & t3 & t4 & t5 & t6 & _ & _ & _ & _ & _ & _ & Hclose & Hg).
  apply emitClosing_Ok in Hclose.
  exists toks, (indent st2),
    (render (alias ++ static ++ inst ++ meta ++ factory ++ ctor ++ props
               ++ getters ++ setters)),
    (indent (popIndent t6)).
  split; [assumption|]. split; [reflexivity|]. split.
  - subst toks tables glue closing. rewrite <- !app_assoc. rewrite !render_app.
    destruct (ClassNode.isClassExpression node);
      cbn [render tokText]; rewrite ?append_nil_r, ?append_assoc; reflexivity.
  - rewrite countLit_lits, Hlits. apply count_local.
Qed.

End MoreClassFacts.

(** ** Class lowering: what it keeps of the state *)

Section ClassInvariant.
Context {collab : Collaborators}.
Variable node : ClassNode.t.
(** A property of the state at each depth of indentation. *)
Variable Inv : nat -> TranspilerState -> Prop.
Hypothesis Inv_push : forall n s, Inv n s -> Inv (S n) (pushIndent s).
Hypothesis Inv_pop : forall n s, Inv (S n) s -> Inv n (popIndent s).
Hypothesis Inv_kept : forall n, Preserves (Inv n) node.

(** [m], when it returns, takes a state at depth [n] to one at depth [n']. *)
Let moves {A} (n n' : nat) (m : M A) : Prop :=
  forall s s' a, Inv n s -> m s = (s', Ok a) -> Inv n' s'.

Lemma moves_ret {A} n (a : A) : moves n n (ret a).
Proof. intros s s' b Hi H. apply ret_Ok in H. destruct H as [-> _]. exact Hi. Qed.

Lemma moves_throw {A} n n' (e : Exception) : moves n n' (@throw A e).
Proof. intros s s' b Hi H. discriminate H. Qed.

Lemma moves_bind {A B} n k n' (m : M A) (f : A -> M B) :
  moves n k m -> (forall a, moves k n' (f a)) -> moves n n' (bind m f).
Proof.
  intros Hm Hf s s' b Hi H. apply bind_Ok in H. destruct H as (a & s1 & H1 & H2).
  eapply Hf; [|exact H2]. eapply Hm; eassumption.
Qed.

Lemma moves_gets {A} n (f : TranspilerState -> A) : moves n n (gets f).
Proof. intros s s' b Hi H. apply gets_Ok in H. destruct H as [-> _]. exact Hi. Qed.

Lemma moves_liftResult {A} n (r : Result A) : moves n n (liftResult r).
Proof. intros s s' b Hi H. apply liftResult_Ok in H. destruct H as [-> _]. exact Hi. Qed.

Lemma moves_emit n ts : moves n n (emit ts).
Proof. intros s s' b Hi H. apply emit_Ok in H. destruct H as [-> _]. exact Hi. Qed.

Lemma moves_indentIn n : moves n (S n) indentIn.
Proof. intros s s' b Hi H. unfold indentIn in H. inversion H; subst. now apply Inv_push. Qed.

Lemma moves_indentOut n : moves (S n) n indentOut.
Proof. intros s s' b Hi H. unfold indentOut in H. inversion H; subst. now apply Inv_pop. Qed.

Lemma moves_expression n e : moves n n (transpileExpression e).
Proof. intros s s' v Hi H. exact (pres_expression (Inv_kept n) e s Hi H). Qed.

Lemma moves_method n m : moves n n (transpileMethodDeclaration m).
Proof. intros s s' v Hi H. exact (pres_method (Inv_kept n) m s Hi H). Qed.

Lemma moves_accessor n m name : moves n n (transpileAccessorDeclaration m name).
Proof. intros s s' v Hi H. exact (pres_accessor (Inv_kept n) m name s Hi H). Qed.

Lemma moves_constructor n id c inits inherits :
  moves n n (transpileConstructorDeclaration id c inits inherits).
Proof.
  intros s s' v Hi H. exact (pres_constructor (Inv_kept n) id c inits inherits s Hi H).
Qed.

Lemma moves_forEach {A} n (f : A -> M (list Tok)) (xs : list A) :
  (forall x, moves n n (f x)) -> moves n n (forEach f xs).
Proof.
  intros Hf. induction xs as [|x xs IH]; cbn [forEach]; [apply moves_ret|].
  eapply moves_bind; [apply Hf|]. intros r.
  eapply moves_bind; [apply IH|]. intros rs. apply moves_ret.
Qed.

Lemma moves_methodsLoop n (one : ClassMember.t -> M (list Tok)) methods :
  (forall m, moves n n (one m)) -> forall seen, moves n n (methodsLoop one methods seen).
Proof.
  intros Hone. induction methods as [|m methods IH]; intros seen; cbn [methodsLoop];
    [apply moves_ret|].
  eapply moves_bind; [apply Hone|]. intros r.
  eapply moves_bind; [apply IH|]. intros [seen' rs]. apply moves_ret.
Qed.

Lemma moves_block_cons n k n' (m : M (list Tok)) ms :
  moves n k m -> moves k n' (block ms) -> moves n n' (block (m :: ms)).
Proof.
  intros Hm Hms. rewrite block_cons.
  eapply moves_bind; [exact Hm|]. intros r.
  eapply moves_bind; [exact Hms|]. intros rs. apply moves_ret.
Qed.

Lemma moves_block_nil n : moves n n (block []).
Proof. rewrite block_nil. apply moves_ret. Qed.

Ltac moves_step :=
  first [ apply moves_ret | apply moves_throw | apply moves_gets | apply moves_liftResult
        | apply moves_emit | apply moves_indentIn | apply moves_indentOut
        | apply moves_expression | apply moves_method | apply moves_accessor
        | apply moves_constructor | apply moves_block_nil
        | eapply moves_block_cons
        | eapply moves_bind; [|intros ?]
        | match goal with
          | |- moves _ _ (if ?b then _ else _) => destruct b
          | |- moves _ _ (match ?o with Some _ => _ | None => _ end) => destruct o
          end ].

Lemma moves_lowerBaseClassName n : moves n n (lowerBaseClassName node).
Proof.
  unfold lowerBaseClassName.
  destruct (ClassNode.getExtendsTypeNodes node) as [[|typeNode rest]|]; moves_step.
Qed.

Lemma moves_emitStaticTable n id : moves n n (emitStaticTable id node).
Proof.
  unfold emitStaticTable. cbv zeta.
  eapply moves_bind; [apply moves_emit|]. intros opening.
  eapply moves_bind; [apply moves_indentIn|]. intros _.
  eapply moves_bind.
  - apply moves_methodsLoop. intros m. repeat moves_step.
  - intros [seen methods].
    eapply moves_bind; [apply moves_indentOut|]. intros _.
    repeat moves_step.
Qed.

Lemma moves_instancePropsLoop n props : moves n n (instancePropsLoop props).
Proof.
  induction props as [|p props IH]; cbn [instancePropsLoop]; [apply moves_ret|].
  eapply moves_bind; [|intros here; eapply moves_bind; [apply IH|intros more; apply moves_ret]].
  cbv zeta. repeat moves_step.
Qed.

Lemma moves_emitInstanceTable n id : moves n n (emitInstanceTable id node).
Proof.
  unfold emitInstanceTable.
  eapply moves_bind; [apply moves_emit|]. intros opening.
  eapply moves_bind; [apply moves_indentIn|]. intros _.
  eapply moves_bind; [apply moves_instancePropsLoop|]. intros inits.
  eapply moves_bind.
  - apply moves_methodsLoop. intros m. repeat moves_step.
  - intros [seen methods].
    eapply moves_bind; [apply moves_indentOut|]. intros _.
    repeat moves_step.
Qed.

Lemma moves_emitMetamethods n id : moves n n (emitMetamethods id node).
Proof. unfold emitMetamethods. apply moves_forEach. intros m. repeat moves_step. Qed.

Lemma moves_emitNewFactory n id : moves n n (emitNewFactory id node).
Proof. unfold emitNewFactory. repeat moves_step. Qed.

Lemma moves_emitConstructor n id inits : moves n n (emitConstructor id node inits).
Proof. unfold emitConstructor. repeat moves_step. Qed.

Lemma moves_emitStaticProperties n id : moves n n (emitStaticProperties id node).
Proof.
  unfold emitStaticProperties. apply moves_forEach. intros prop. cbv zeta.
  repeat moves_step.
Qed.

Lemma moves_emitAccessorTable n id table accessors ancestorHas :
  moves n n (emitAccessorTable id table accessors ancestorHas).
Proof.
  unfold emitAccessorTable. destruct (some accessors); [|apply moves_emit].
  eapply moves_bind; [apply moves_indentIn|]. intros _.
  eapply moves_bind.
  - apply moves_forEach. intros a. repeat moves_step.
  - intros entries.
    eapply moves_bind; [apply moves_indentOut|]. intros _.
    repeat moves_step.
Qed.

Lemma moves_emitIndexDispatcher n id : moves n n (emitIndexDispatcher id).
Proof. unfold emitIndexDispatcher. repeat moves_step. Qed.

Lemma moves_emitNewindexDispatcher n id : moves n n (emitNewindexDispatcher id).
Proof. unfold emitNewindexDispatcher. repeat moves_step. Qed.

Lemma moves_emitGetters n id : moves n n (emitGetters id node).
Proof.
  unfold emitGetters. cbv zeta.
  destruct (some (gettersOf node) || ancestorHasGetters node); [|apply moves_ret].
  eapply moves_block_cons; [apply moves_emitAccessorTable|].
  eapply moves_block_cons; [apply moves_emitIndexDispatcher | apply moves_block_nil].
Qed.

Lemma moves_emitSetters n id : moves n n (emitSetters id node).
Proof.
  unfold emitSetters. cbv zeta.
  destruct (some (settersOf node) || ancestorHasSetters node); [|apply moves_ret].
  eapply moves_block_cons; [apply moves_emitAccessorTable|].
  eapply moves_block_cons; [apply moves_emitNewindexDispatcher | apply moves_block_nil].
Qed.

Lemma moves_emitClosing n : moves (S n) n (emitClosing node).
Proof.
  unfold emitClosing.
  eapply moves_block_cons; [apply moves_indentOut|].
  eapply moves_block_cons; [|apply moves_block_nil].
  destruct (ClassNode.isClassExpression node); apply moves_emit.
Qed.

Lemma moves_emitGlue n id inits : moves (S n) n (emitGlue id node inits).
Proof.
  unfold emitGlue.
  eapply moves_block_cons; [apply moves_emitMetamethods|].
  eapply moves_block_cons; [apply moves_emitNewFactory|].
  eapply moves_block_cons; [apply moves_emitConstructor|].
  eapply moves_block_cons; [apply moves_emitStaticProperties|].
  eapply moves_block_cons; [apply moves_emitGetters|].
  eapply moves_block_cons; [apply moves_emitSetters|].
  eapply moves_block_cons; [apply moves_emitClosing | apply moves_block_nil].
Qed.

(** Once the block is opened at depth [n], the tables are written one
    level deeper. *)
Lemma tables_invariant n name s2 s3 tables inits :
  (forall sh,
      (if ClassNode.isClassExpression node then sh = s2 else hoist name s2 = (sh, Ok tt)) ->
      Inv n sh) ->
  emitTables name node s2 = (s3, Ok (tables, inits)) ->
  Inv (S n) s3.
Proof.
  intros Hopened H. apply emitTables_inv in H.
  destruct H as (sh & s1 & base & s4 & alias & static & inst
                 & Hsh & Hbase & _ & Hstatic & Hinst & _).
  apply Hopened in Hsh. apply Inv_push in Hsh.
  eapply moves_emitInstanceTable; [|exact Hinst].
  eapply moves_emitStaticTable; [|exact Hstatic].
  eapply moves_lowerBaseClassName; [|exact Hbase]. exact Hsh.
Qed.

(** A lowered class ends at the depth its block was opened at. *)
Lemma class_invariant n st st' toks :
  scanBaseTypes (ClassNode.getBaseTypes node) = NotRoact ->
  transpileClassTokens node st = (st', Ok toks) ->
  (forall name s1 s2 sh,
      resolveName node st = (s1, Ok name) ->
      (if ClassNode.isClassDeclaration node then pushExport name node else ret tt) s1
      = (s2, Ok tt) ->
      (if ClassNode.isClassExpression node then sh = s2 else hoist name s2 = (sh, Ok tt)) ->
      Inv n sh) ->
  Inv n st'.
Proof.
  intros Hscan H Hopened. apply transpileClassTokens_inv in H; [|assumption].
  destruct H as (name & s1 & s2 & s3 & tables & inits & glue
                 & Hname & Hexport & Htables & Hglue & _).
  eapply moves_emitGlue; [|exact Hglue].
  eapply tables_invariant; [|exact Htables].
  intros sh Hsh. eapply Hopened; eassumption.
Qed.

End ClassInvariant.

Section ClassState.
Context {collab : Collaborators}.

Lemma resolveName_preserves (P : TranspilerState -> Prop) node st st1 name :
  Preserves P node -> P st -> resolveName node st = (st1, Ok name) -> P st1.
Proof.
  intros Hp Hst H. unfold resolveName in H.
  apply bind_Ok in H. destruct H as (name' & s1 & H1 & H).
  apply bind_Ok in H. destruct H as (u & s2 & H2 & H). run_inv H.
  assert (Hs1 : P s1).
  { destruct (ClassNode.getName node) as [n|];
      [destruct (nonEmpty n)|]; try (run_inv H1; assumption);
      eapply (pres_getNewId Hp); eassumption. }
  destruct (ClassNode.getName node); run_inv H2; assumption.
Qed.

Lemma export_preserves (P : TranspilerState -> Prop) node name s1 s2 :
  Preserves P node -> P s1 ->
  (if ClassNode.isClassDeclaration node then pushExport name node else ret tt) s1
  = (s2, Ok tt) ->
  P s2.
Proof.
  intros Hp Hs1 H. destruct (ClassNode.isClassDeclaration node).
  - eapply (pres_pushExport Hp); eassumption.
  - run_inv H. assumption.
Qed.

Lemma hoist_Ok name s sh :
  hoist name s = (sh, Ok tt) ->
  sh = set_hoistStack (hoisted name (hoistStack s)) s.
Proof.
  unfold hoist, hoisted. destruct (rev (hoistStack s)) as [|top below]; intros H;
    [discriminate H | now inversion H].
Qed.

(** X21.  The indentation is restored: when [pushIndent] goes one level
    deeper and [popIndent] comes one level back, and the routines the
    lowering calls return with the indentation they were entered with, a
    class lowered from a state at some level returns in a state at that
    level. *)
Theorem indentation_restored (level : nat -> string) node st n :
  (forall k s, indent s = level k -> indent (pushIndent s) = level (S k)) ->
  (forall k s, indent s = level (S k) -> indent (popIndent s) = level k) ->
  (forall k, Preserves (fun s => indent s = level k) node) ->
  scanBaseTypes (ClassNode.getBaseTypes node) = NotRoact ->
  indent st = level n ->
  forall st' out, transpileClass node st = (st', Ok out) -> indent st' = level n.
Proof.
  intros Hpush Hpop Hkept Hscan Hst st' out H.
  apply transpileClass_inv in H. destruct H as (toks & Hrun & _).
  apply (@class_invariant _ node (fun k s => indent s = level k) Hpush Hpop Hkept
                          n st st' toks Hscan Hrun).
  intros name s1 s2 sh Hname Hexport Hsh.
  assert (Hs2 : indent s2 = level n).
  { eapply (export_preserves (P := fun s => indent s = level n));
      [apply Hkept| |exact Hexport].
    eapply (resolveName_preserves (P := fun s => indent s = level n));
      [apply Hkept|exact Hst|exact Hname]. }
  destruct (ClassNode.isClassExpression node); [now subst sh|].
  apply hoist_Ok in Hsh. now subst sh.
Qed.

(** X22.  The indentation is not restored on the way out of an error: a
    class with a method named as a non-overridable metamethod (its own or
    inherited), whose tables were written without error from a state at
    level [n], throws the UndefinableMetamethod diagnostic in a state at
    level [n + 1]. *)
Theorem indentation_left_by_undefinable (level : nat -> string) node st n m
        name st1 st2 st3 tables inits :
  (forall k s, indent s = level k -> indent (pushIndent s) = level (S k)) ->
  (forall k s, indent s = level (S k) -> indent (popIndent s) = level k) ->
  (forall k, Preserves (fun s => indent s = level k) node) ->
  scanBaseTypes (ClassNode.getBaseTypes node) = NotRoact ->
  indent st = level n ->
  includes LUA_UNDEFINABLE_METAMETHODS m = true ->
  getClassMethod node m <> None ->
  resolveName node st = (st1, Ok name) ->
  (if ClassNode.isClassDeclaration node then pushExport name node else ret tt) st1
  = (st2, Ok tt) ->
  emitTables name node st2 = (st3, Ok (tables, inits)) ->
  (exists message,
      transpileClass node st
      = (st3, Throw (TranspilerError message (ClassNodeOf node) UndefinableMetamethod)))
  /\ indent st3 = level (S n).
Proof.
  intros Hpush Hpop Hkept Hscan Hst Hu Hm Hname Hexport Htables. split.
  - destruct (emitGlue_undefinable name node inits st3 m Hu Hm) as (m' & _ & Hthrow).
    eexists. unfold transpileClass, transpileClassTokens. rewrite Hscan.
    apply bind_Throw.
    erewrite bind_step by exact Hname.
    erewrite bind_step by exact Hexport.
    erewrite bind_step by exact Htables.
    apply bind_Throw. exact Hthrow.
  - apply (@tables_invariant _ node (fun k s => indent s = level k) Hpush Hpop Hkept
                             n name st2 st3 tables inits); [|exact Htables].
    intros sh Hsh.
    assert (Hs2 : indent st2 = level n).
    { eapply (export_preserves (P := fun s => indent s = level n));
        [apply Hkept| |exact Hexport].
      eapply (resolveName_preserves (P := fun s => indent s = level n));
        [apply Hkept|exact Hst|exact Hname]. }
    destruct (ClassNode.isClassExpression node); [now subst sh|].
    apply hoist_Ok in Hsh. now subst sh.
Qed.

(** X23.  Hoisting: when the routines the lowering calls, [pushIndent] and
    [popIndent] return with the hoist stack they were entered with, a
    lowered class declaration leaves the stack with the name of the class
    added to its last scope, and a lowered class expression leaves it as it
    was. *)
Theorem class_declaration_hoisted node st st1 name :
  (forall s, hoistStack (pushIndent s) = hoistStack s) ->
  (forall s, hoistStack (popIndent s) = hoistStack s) ->
  (forall h, Preserves (fun s => hoistStack s = h) node) ->
  scanBaseTypes (ClassNode.getBaseTypes node) = NotRoact ->
  resolveName node st = (st1, Ok name) ->
  forall st' out,
    transpileClass node st = (st', Ok out) ->
    hoistStack st'
    = if ClassNode.isClassExpression node then hoistStack st
      else hoisted name (hoistStack st).
Proof.
  intros Hpush Hpop Hkept Hscan Hname st' out H.
  apply transpileClass_inv in H. destruct H as (toks & Hrun & _).
  set (h := if ClassNode.isClassExpression node then hoistStack st
            else hoisted name (hoistStack st)).
  refine (@class_invariant _ node (fun _ s => hoistStack s = h) _ _ (fun _ => Hkept h)
                           0 st st' toks Hscan Hrun _).
  - intros _ s Hs. now rewrite Hpush.
  - intros _ s Hs. now rewrite Hpop.
  - intros name' s1 s2 sh Hname' Hexport Hsh.
    rewrite Hname in Hname'. inversion Hname'; subst name' s1.
    assert (Hs2 : hoistStack s2 = hoistStack st).
    { eapply (export_preserves (P := fun s => hoistStack s = hoistStack st));
        [apply Hkept| |exact Hexport].
      eapply (resolveName_preserves (P := fun s => hoistStack s = hoistStack st));
        [apply Hkept|reflexivity|exact Hname]. }
    subst h. destruct (ClassNode.isClassExpression node); [now subst sh|].
    apply hoist_Ok in Hsh. subst sh. cbn [hoistStack set_hoistStack]. now rewrite Hs2.
Qed.

(** X24.  Of the state, class lowering itself writes the indentation
    (through [pushIndent] and [popIndent]) and the hoist stack only: a
    property of the state that these writes and the routines it calls keep
    holds after a class is lowered if it held before. *)
Theorem class_lowering_frame (P : TranspilerState -> Prop) node st :
  (forall s, P s -> P (pushIndent s)) ->
  (forall s, P s -> P (popIndent s)) ->
  (forall h s, P s -> P (set_hoistStack h s)) ->
  Preserves P node ->
  scanBaseTypes (ClassNode.getBaseTypes node) = NotRoact ->
  P st ->
  forall st' out, transpileClass node st = (st', Ok out) -> P st'.
Proof.
  intros Hpush Hpop Hhoist Hkept Hscan Hst st' out H.
  apply transpileClass_inv in H. destruct H as (toks & Hrun & _).
  refine (@class_invariant _ node (fun _ s => P s) _ _ (fun _ => Hkept)
                           0 st st' toks Hscan Hrun _).
  - intros _. exact Hpush.
  - intros _. exact Hpop.
  - intros name s1 s2 sh Hname Hexport Hsh.
    assert (Hs2 : P s2).
    { eapply (export_preserves (P := P)); [exact Hkept| |exact Hexport].
      eapply (resolveName_preserves (P := P)); [exact Hkept|exact Hst|exact Hname]. }
    destruct (ClassNode.isClassExpression node); [now subst sh|].
    apply hoist_Ok in Hsh. subst sh. now apply Hhoist.
Qed.

End ClassState.

(** ** Class lowering: accessor tables, static properties, initializers *)

Lemma find_filter {A} (p q : A -> bool) (l : list A) :
  find (fun a => p a && q a) l = find p (filter q l).
Proof.
  induction l as [|a l IH]; [reflexivity|]. cbn [find filter].
  destruct (q a); cbn [find].
  - rewrite andb_true_r. now destruct (p a).
  - now rewrite andb_false_r.
Qed.

Section TableFacts.
Context {collab : Collaborators}.

Ltac none_in_tables node :=
  unfold tablesLits, tableLits;
  destruct (ClassNode.isClassExpression node),
           (hasStaticInheritance node), (hasInstanceInheritance node),
           (some (filter hasBody (ClassNode.getStaticMethods node))),
           (some (filter hasBody (ClassNode.getInstanceMethods node)));
  reflexivity.

Ltac none_in_loops node :=
  rewrite filter_flat_map_nil
    by (let m := fresh "m" in
        intros m; destruct (getClassMethod node m); reflexivity);
  rewrite filter_flat_map_nil
    by (let prop := fresh "prop" in
        intros prop; unfold staticPropertyLits;
        destruct (ClassMember.isInitializerExpressionableNode prop);
        [destruct (ClassMember.getInitializer prop)|]; reflexivity).

Ltac by_flags node :=
  destruct (ClassNode.isClassExpression node), (ClassNode.isAbstract node),
           (some (gettersOf node)), (ancestorHasGetters node),
           (some (settersOf node)), (ancestorHasSetters node);
  reflexivity.

Ltac counted_in_glue node :=
  unfold classLits; rewrite count_app;
  match goal with
  | |- List.length (filter ?p (tablesLits node)) + _ = _ =>
      replace (List.length (filter p (tablesLits node))) with 0
        by (symmetry; none_in_tables node)
  end;
  cbn [Nat.add]; unfold glueLits, accessorTableLits; rewrite !count_app;
  none_in_loops node; by_flags node.

Lemma count_accessorTables node :
  let count x := List.length (filter (String.eqb x) (classLits node)) in
  count "._getters = {"
  = (if some (gettersOf node) && negb (ancestorHasGetters node) then 1 else 0)
  /\ count "._getters = setmetatable({"
     = (if some (gettersOf node) && ancestorHasGetters node then 1 else 0)
  /\ count (line "._getters = super._getters;")
     = (if negb (some (gettersOf node)) && ancestorHasGetters node then 1 else 0)
  /\ count "._setters = {"
     = (if some (settersOf node) && negb (ancestorHasSetters node) then 1 else 0)
  /\ count "._setters = setmetatable({"
     = (if some (settersOf node) && ancestorHasSetters node then 1 else 0)
  /\ count (line "._setters = super._setters;")
     = (if negb (some (settersOf node)) && ancestorHasSetters node then 1 else 0).
Proof. cbv zeta. repeat split; counted_in_glue node. Qed.

Lemma accessorEntries_run accessors st st' entries :
  forEach (fun accessor =>
             s <- transpileAccessorDeclaration accessor (ClassMember.getName accessor) ;;
             ret [Val s])
          accessors st = (st', Ok entries) ->
  accessorEntries accessors entries.
Proof.
  revert st st' entries. induction accessors as [|a accessors IH]; cbn [forEach];
    intros st st' entries H.
  - run_inv H. constructor.
  - apply bind_Ok in H. destruct H as (r & s1 & H1 & H).
    apply bind_Ok in H. destruct H as (rs & s2 & H2 & H). run_inv H.
    apply bind_Ok in H1. destruct H1 as (text & s3 & Htext & H1). run_inv H1.
    constructor; [|eapply IH; eassumption].
    eexists text, _, _. split; [exact Htext | reflexivity].
Qed.

Lemma emitAccessorTable_inv id table accessors ancestorHas st st' r :
  emitAccessorTable id table accessors ancestorHas st = (st', Ok r) ->
  if some accessors then
    exists ind entries,
      accessorEntries accessors entries
      /\ r = if ancestorHas then chainedAccessorTable id table ind entries
             else plainAccessorTable id table ind entries
  else r = sharedAccessorTable id table (indent st).
Proof.
  unfold emitAccessorTable. intros H. destruct (some accessors).
  - apply bind_Ok in H. destruct H as (u & s1 & H1 & H). run_inv H1.
    apply bind_Ok in H. destruct H as (entries & s2 & H2 & H).
    apply accessorEntries_run in H2.
    apply bind_Ok in H. destruct H as (u2 & s3 & H3 & H). run_inv H3.
    apply bind_Ok in H. destruct H as (ind & s4 & H4 & H). run_inv H4.
    exists (indent (popIndent s2)), entries. split; [assumption|].
    destruct ancestorHas; run_inv H;
      unfold chainedAccessorTable, plainAccessorTable; cbn [app];
      rewrite <- app_assoc; reflexivity.
  - apply emit_Ok in H. destruct H as [-> ->]. reflexivity.
Qed.

Lemma emitGetters_table id node st st' r :
  emitGetters id node st = (st', Ok r) ->
  some (gettersOf node) || ancestorHasGetters node = true ->
  exists table rest s1,
    emitAccessorTable id "_getters" (gettersOf node) (ancestorHasGetters node) st
    = (s1, Ok table)
    /\ r = table ++ rest.
Proof.
  unfold emitGetters. cbv zeta. intros H Hneeds. rewrite Hneeds in H.
  rewrite block_cons in H.
  apply bind_Ok in H. destruct H as (table & s1 & H1 & H).
  apply bind_Ok in H. destruct H as (rest & s2 & H2 & H). run_inv H.
  now exists table, rest, s1.
Qed.

Lemma emitSetters_table id node st st' r :
  emitSetters id node st = (st', Ok r) ->
  some (settersOf node) || ancestorHasSetters node = true ->
  exists table rest s1,
    emitAccessorTable id "_setters" (settersOf node) (ancestorHasSetters node) st
    = (s1, Ok table)
    /\ r = table ++ rest.
Proof.
  unfold emitSetters. cbv zeta. intros H Hneeds. rewrite Hneeds in H.
  rewrite block_cons in H.
  apply bind_Ok in H. destruct H as (table & s1 & H1 & H).
  apply bind_Ok in H. destruct H as (rest & s2 & H2 & H). run_inv H.
  now exists table, rest, s1.
Qed.

Lemma segmentWritten_middle pre segment post :
  segmentWritten segment (pre ++ segment ++ post) (render (pre ++ segment ++ post)).
Proof. exists pre, post. split; [reflexivity | apply occursIn_render]. Qed.

Lemma ancestorHasGetters_iff node :
  ancestorHasGetters node = true <-> inheritsInstanceAccessor GetAccessor node.
Proof.
  unfold ancestorHasGetters, inheritsInstanceAccessor. rewrite ancestorLoop_exists.
  split; intros (a & Hin & Ha); exists a; (split; [assumption|]); now apply gettersOf_iff.
Qed.

Lemma ancestorHasSetters_iff node :
  ancestorHasSetters node = true <-> inheritsInstanceAccessor SetAccessor node.
Proof.
  unfold ancestorHasSetters, inheritsInstanceAccessor. rewrite ancestorLoop_exists.
  split; intros (a & Hin & Ha); exists a; (split; [assumption|]); now apply settersOf_iff.
Qed.

Lemma bool_of_iff (b : bool) (P : Prop) :
  (b = true <-> P) -> (P -> b = true) /\ (~ P -> b = false).
Proof.
  intros H. split; [apply H|].
  intros Hn. destruct b; [|reflexivity]. exfalso. apply Hn, H. reflexivity.
Qed.

Ltac clean_list :=
  repeat first [ apply Forall_nil | apply Forall_cons; [reflexivity|] ].

(** Without instance get-accessors, own or inherited, no literal of the
    skeleton names [_getters]; likewise [_setters]. *)
Lemma classLits_without_getters node :
  some (gettersOf node) = false -> ancestorHasGetters node = false ->
  Forall (fun literal => occursInb "_getters" literal = false) (classLits node).
Proof.
  intros Hown Hanc.
  unfold classLits, tablesLits, glueLits, tableLits, accessorTableLits.
  rewrite Hown, Hanc. cbn [orb].
  rewrite !Forall_app.
  repeat match goal with |- _ /\ _ => split end.
  - destruct (ClassNode.isClassExpression node); clean_list.
  - destruct (hasStaticInheritance node || hasInstanceInheritance node); clean_list.
  - destruct (ClassNode.isClassExpression node), (hasStaticInheritance node),
      (hasInstanceInheritance node),
      (some (filter hasBody (ClassNode.getStaticMethods node))),
      (some (filter hasBody (ClassNode.getInstanceMethods node))); clean_list.
  - apply Forall_flat_map_intro. intros m.
    destruct (getClassMethod node m); clean_list.
  - destruct (ClassNode.isAbstract node); clean_list.
  - apply Forall_flat_map_intro. intros prop. unfold staticPropertyLits.
    destruct (ClassMember.isInitializerExpressionableNode prop);
      [destruct (ClassMember.getInitializer prop)|]; clean_list.
  - clean_list.
  - destruct (some (settersOf node)), (ancestorHasSetters node); clean_list.
  - destruct (ClassNode.isClassExpression node); clean_list.
Qed.

Lemma classLits_without_setters node :
  some (settersOf node) = false -> ancestorHasSetters node = false ->
  Forall (fun literal => occursInb "_setters" literal = false) (classLits node).
Proof.
  intros Hown Hanc.
  unfold classLits, tablesLits, glueLits, tableLits, accessorTableLits.
  rewrite Hown, Hanc. cbn [orb].
  rewrite !Forall_app.
  repeat match goal with |- _ /\ _ => split end.
  - destruct (ClassNode.isClassExpression node); clean_list.
  - destruct (hasStaticInheritance node || hasInstanceInheritance node); clean_list.
  - destruct (ClassNode.isClassExpression node), (hasStaticInheritance node),
      (hasInstanceInheritance node),
      (some (filter hasBody (ClassNode.getStaticMethods node))),
      (some (filter hasBody (ClassNode.getInstanceMethods node))); clean_list.
  - apply Forall_flat_map_intro. intros m.
    destruct (getClassMethod node m); clean_list.
  - destruct (ClassNode.isAbstract node); clean_list.
  - apply Forall_flat_map_intro. intros prop. unfold staticPropertyLits.
    destruct (ClassMember.isInitializerExpressionableNode prop);
      [destruct (ClassMember.getInitializer prop)|]; clean_list.
  - destruct (some (gettersOf node)), (ancestorHasGetters node); clean_list.
  - clean_list.
  - destruct (ClassNode.isClassExpression node); clean_list.
Qed.

(** The table a form of which [emitAccessorTable] returned, in the pieces
    of the output. *)
Lemma accessorTable_written kind table accessors node id toks pre post
      (own inherited : bool) st s1 tablePieces :
  (own = true <-> declaresInstanceAccessor kind node) ->
  (inherited = true <-> inheritsInstanceAccessor kind node) ->
  own = some accessors ->
  (own || inherited = true ->
   emitAccessorTable id table accessors inherited st = (s1, Ok tablePieces)
   /\ toks = pre ++ tablePieces ++ post) ->
  (own || inherited = false ->
   Forall (fun literal => occursInb table literal = false) (lits toks)) ->
  (own || inherited = true ->
   countLit ("." +:+ table +:+ " = {") toks
   + countLit ("." +:+ table +:+ " = setmetatable({") toks
   + countLit ("." +:+ table +:+ " = super." +:+ table +:+ line ";") toks
   = 1) ->
  accessorTableWritten kind table accessors node id toks (render toks).
Proof.
  intros Hown Hinh Hsome Hrun Hnone Hcount.
  destruct (bool_of_iff Hown) as [Hown1 Hown0].
  destruct (bool_of_iff Hinh) as [Hinh1 Hinh0].
  unfold accessorTableWritten.
  refine (conj _ (conj _ (conj _ (conj _ _)))).
  - intros Hd Hn. rewrite (Hown1 Hd), (Hinh0 Hn) in Hrun.
    destruct (Hrun eq_refl) as (Htable & ->).
    apply emitAccessorTable_inv in Htable. rewrite <- Hsome, (Hown1 Hd) in Htable.
    destruct Htable as (ind & entries & Hentries & ->).
    exists ind, entries. split; [assumption | apply segmentWritten_middle].
  - intros Hd Hi. rewrite (Hown1 Hd), (Hinh1 Hi) in Hrun.
    destruct (Hrun eq_refl) as (Htable & ->).
    apply emitAccessorTable_inv in Htable. rewrite <- Hsome, (Hown1 Hd) in Htable.
    destruct Htable as (ind & entries & Hentries & ->).
    exists ind, entries. split; [assumption | apply segmentWritten_middle].
  - intros Hd Hi. rewrite (Hown0 Hd), (Hinh1 Hi) in Hrun.
    destruct (Hrun eq_refl) as (Htable & ->).
    apply emitAccessorTable_inv in Htable. rewrite <- Hsome, (Hown0 Hd) in Htable.
    subst tablePieces. exists (indent st). apply segmentWritten_middle.
  - intros Hd Hn. apply Hnone. now rewrite (Hown0 Hd), (Hinh0 Hn).
  - intros [Hd|Hi]; apply Hcount.
    + now rewrite (Hown1 Hd).
    + rewrite (Hinh1 Hi). apply orb_true_r.
Qed.

(** X25.  The accessor tables of a lowered class.  When the class
    declares instance get-accessors and no ancestor does, the output holds
    [<id>._getters = {], the text of each of these accessors in order, and
    [};]; when the class and an ancestor declare some, it holds
    [<id>._getters = setmetatable({], the text of each accessor of the
    class in order, and [}, { __index = super._getters });]; when only an
    ancestor does, it holds [<id>._getters = super._getters;]; when none
    does, no literal of the output names [_getters].  In the first three
    cases one of the three assignments is written, and only one.  Likewise
    for set-accessors and [_setters]. *)
Theorem accessor_table_forms node st :
  scanBaseTypes (ClassNode.getBaseTypes node) = NotRoact ->
  forall st' out,
    transpileClass node st = (st', Ok out) ->
    exists toks name st1,
      transpileClassTokens node st = (st', Ok toks) /\ out = render toks
      /\ resolveName node st = (st1, Ok name)
      /\ accessorTableWritten GetAccessor "_getters" (gettersOf node) node name toks out
      /\ accessorTableWritten SetAccessor "_setters" (settersOf node) node name toks out.
Proof.
  intros Hscan st' out H. apply transpileClass_inv in H. destruct H as (toks & Hrun & ->).
  pose proof (transpileClassTokens_lits _ _ Hscan Hrun) as Hlits.
  pose proof Hrun as Hinv. apply transpileClassTokens_inv in Hinv; [|assumption].
  destruct Hinv as (name & st1 & st2 & st3 & tables & inits & glue
                    & Hname & _ & _ & Hglue & Htoks).
  apply emitGlue_inv in Hglue.
  destruct Hglue as (meta & factory & ctor & props & getters & setters & closing
                     & s2 & s3 & s4 & s5 & s6 & _ & _ & _ & _ & Hg & Hs & _ & Hglue).
  destruct (count_accessorTables node) as (Cg1 & Cg2 & Cg3 & Cs1 & Cs2 & Cs3).
  cbv zeta in Cg1, Cg2, Cg3, Cs1, Cs2, Cs3.
  exists toks, name, st1.
  split; [assumption|]. split; [reflexivity|]. split; [assumption|]. split.
  - destruct (some (gettersOf node) || ancestorHasGetters node) eqn:Hneeds.
    + destruct (emitGetters_table _ _ _ Hg Hneeds) as (table & rest & t1 & Htable & ->).
      eapply accessorTable_written with
                (pre := tables ++ meta ++ factory ++ ctor ++ props)
                (post := rest ++ setters ++ closing)
                (own := some (gettersOf node)) (inherited := ancestorHasGetters node).
      * apply gettersOf_iff.
      * apply ancestorHasGetters_iff.
      * reflexivity.
      * intros _. split; [exact Htable|].
        subst toks glue. rewrite <- !app_assoc. reflexivity.
      * rewrite Hneeds. intros E; discriminate E.
      * intros _. rewrite !countLit_lits, Hlits.
        change ("." +:+ "_getters" +:+ " = {") with "._getters = {".
        change ("." +:+ "_getters" +:+ " = setmetatable({")
          with "._getters = setmetatable({".
        change ("." +:+ "_getters" +:+ " = super." +:+ "_getters" +:+ line ";")
          with (line "._getters = super._getters;").
        rewrite Cg1, Cg2, Cg3.
        destruct (some (gettersOf node)), (ancestorHasGetters node);
          first [reflexivity | discriminate Hneeds].
    + apply orb_false_iff in Hneeds. destruct Hneeds as [Hown Hanc].
      eapply accessorTable_written with
                (pre := []) (post := []) (st := st) (s1 := st) (tablePieces := [])
                (own := some (gettersOf node)) (inherited := ancestorHasGetters node).
      * apply gettersOf_iff.
      * apply ancestorHasGetters_iff.
      * reflexivity.
      * rewrite Hown, Hanc. intros E; discriminate E.
      * intros _. rewrite Hlits. now apply classLits_without_getters.
      * rewrite Hown, Hanc. intros E; discriminate E.
  - destruct (some (settersOf node) || ancestorHasSetters node) eqn:Hneeds.
    + destruct (emitSetters_table _ _ _ Hs Hneeds) as (table & rest & t1 & Htable & ->).
      eapply accessorTable_written with
                (pre := tables ++ meta ++ factory ++ ctor ++ props ++ getters)
                (post := rest ++ closing)
                (own := some (settersOf node)) (inherited := ancestorHasSetters node).
      * apply settersOf_iff.
      * apply ancestorHasSetters_iff.
      * reflexivity.
      * intros _. split; [exact Htable|].
        subst toks glue. rewrite <- !app_assoc. reflexivity.
      * rewrite Hneeds. intros E; discriminate E.
      * intros _. rewrite !countLit_lits, Hlits.
        change ("." +:+ "_setters" +:+ " = {") with "._setters = {".
        change ("." +:+ "_setters" +:+ " = setmetatable({")
          with "._setters = setmetatable({".
        change ("." +:+ "_setters" +:+ " = super." +:+ "_setters" +:+ line ";")
          with (line "._setters = super._setters;").
        rewrite Cs1, Cs2, Cs3.
        destruct (some (settersOf node)), (ancestorHasSetters node);
          first [reflexivity | discriminate Hneeds].
    + apply orb_false_iff in Hneeds. destruct Hneeds as [Hown Hanc].
      eapply accessorTable_written with
                (pre := []) (post := []) (st := st) (s1 := st) (tablePieces := [])
                (own := some (settersOf node)) (inherited := ancestorHasSetters node).
      * apply settersOf_iff.
      * apply ancestorHasSetters_iff.
      * reflexivity.
      * rewrite Hown, Hanc. intros E; discriminate E.
      * intros _. rewrite Hlits. now apply classLits_without_setters.
      * rewrite Hown, Hanc. intros E; discriminate E.
Qed.

Lemma count_staticProperties node (x : string) (q : ClassMember.t -> bool) :
  (forall prop, List.length (filter (String.eqb x) (staticPropertyLits prop))
                = if q prop then 1 else 0) ->
  List.length (filter (String.eqb x) (tablesLits node)) = 0 ->
  (forall m, List.length (filter (String.eqb x) (lits (trampoline EmptyString m))) = 0) ->
  List.length (filter (String.eqb x)
                      (lits (factoryHead EmptyString ++ factoryBody EmptyString ++ factoryEnd)))
  = 0 ->
  (forall table accessors ancestorHas,
      List.length (filter (String.eqb x) (accessorTableLits table accessors ancestorHas)) = 0) ->
  List.length (filter (String.eqb x) (flat_map lits (indexDispatcherLines EmptyString))) = 0 ->
  List.length (filter (String.eqb x) (flat_map lits (newindexDispatcherLines EmptyString))) = 0 ->
  (x =? "end)()") = false -> (x =? line "end;") = false ->
  List.length (filter (String.eqb x) (classLits node))
  = List.length (filter q (ClassNode.getStaticProperties node)).
Proof.
  intros Hprop Htables Htramp Hfactory Haccessor Hindex Hnewindex Hend1 Hend2.
  unfold classLits, glueLits. rewrite !count_app, Htables.
  rewrite (count_flat_map _ _ q) by exact Hprop.
  rewrite (count_flat_map _ _ (fun _ => false)).
  2:{ intros m. destruct (getClassMethod node m); [apply Htramp | reflexivity]. }
  replace (List.length (filter (fun _ : string => false) LUA_RESERVED_METAMETHODS)) with 0
    by reflexivity.
  assert (Hf : List.length
                 (filter (String.eqb x)
                         (if ClassNode.isAbstract node then []
                          else lits (factoryHead EmptyString ++ factoryBody EmptyString
                                       ++ factoryEnd))) = 0)
    by (destruct (ClassNode.isAbstract node); [reflexivity | exact Hfactory]).
  rewrite Hf.
  assert (Hg : List.length
                 (filter (String.eqb x)
                    (if some (gettersOf node) || ancestorHasGetters node
                     then accessorTableLits "_getters" (gettersOf node)
                                            (ancestorHasGetters node)
                          ++ flat_map lits (indexDispatcherLines EmptyString)
                     else [])) = 0).
  { destruct (some (gettersOf node) || ancestorHasGetters node); [|reflexivity].
    now rewrite count_app, Haccessor, Hindex. }
  rewrite Hg.
  assert (Hs : List.length
                 (filter (String.eqb x)
                    (if some (settersOf node) || ancestorHasSetters node
                     then accessorTableLits "_setters" (settersOf node)
                                            (ancestorHasSetters node)
                          ++ flat_map lits (newindexDispatcherLines EmptyString)
                     else [])) = 0).
  { destruct (some (settersOf node) || ancestorHasSetters node); [|reflexivity].
    now rewrite count_app, Haccessor, Hnewindex. }
  rewrite Hs.
  cbn [filter]. destruct (ClassNode.isClassExpression node);
    rewrite ?Hend1, ?Hend2; cbn [List.length]; lia.
Qed.

Lemma emitStaticProperties_loop id props st st' r :
  forEach
    (fun prop =>
       let propName := ClassMember.getName prop in
       liftResult (checkMethodReserved propName (ClassMemberOf prop)) ;;
       propValue <- (if ClassMember.isInitializerExpressionableNode prop then
                       match ClassMember.getInitializer prop with
                       | Some initializer =>
                           v <- transpileExpression initializer ;; ret (Val v)
                       | None => ret (Lit "nil")
                       end
                     else ret (Lit "nil")) ;;
       emit [Val id; Lit "."; Val propName; Lit " = "; propValue; Lit (line ";")])
    props st = (st', Ok r) ->
  exists assignments,
    r = concat assignments /\ Forall2 (staticPropertyWritten id) props assignments.
Proof.
  revert st st' r. induction props as [|p props IH]; cbn [forEach]; intros st st' r H.
  - run_inv H. exists []. split; [reflexivity | constructor].
  - apply bind_Ok in H. destruct H as (r1 & s1 & H1 & H).
    apply bind_Ok in H. destruct H as (rs & s2 & H2 & H). run_inv H.
    destruct (IH _ _ _ H2) as (assignments & -> & Hall).
    cbv zeta in H1.
    apply bind_Ok in H1. destruct H1 as (u & s3 & _ & H1).
    apply bind_Ok in H1. destruct H1 as (value & s4 & Hvalue & H1).
    apply emit_Ok in H1. destruct H1 as [-> ->].
    exists ((Val (indent s4)
               :: [Val id; Lit "."; Val (ClassMember.getName p); Lit " = "; value;
                   Lit (line ";")]) :: assignments).
    split; [reflexivity|]. constructor; [|assumption].
    exists (indent s4), value. split; [reflexivity|].
    unfold initialized.
    destruct (ClassMember.isInitializerExpressionableNode p); cbn [andb].
    + destruct (ClassMember.getInitializer p) as [initializer|]; cbn [isSome].
      * apply bind_Ok in Hvalue. destruct Hvalue as (v & s5 & Hv & Hvalue).
        run_inv Hvalue. split; [intros E; discriminate E|]. intros _.
        eexists initializer, v, _, _. split; [reflexivity|]. split; [exact Hv|reflexivity].
      * run_inv Hvalue. split; [reflexivity | intros E; discriminate E].
    + run_inv Hvalue. split; [reflexivity | intros E; discriminate E].
Qed.

Lemma concat_segment {A} (l : list (list A)) (x : list A) :
  In x l -> exists pre post, concat l = pre ++ x ++ post.
Proof.
  induction l as [|a l IH]; [intros []|].
  intros [->|Hin]; cbn [concat].
  - exists [], (concat l). reflexivity.
  - destruct (IH Hin) as (pre & post & ->).
    exists (a ++ pre), post. now rewrite <- app_assoc.
Qed.

Lemma Forall2_In_left {A B} (R : A -> B -> Prop) (l : list A) (l' : list B) (a : A) :
  Forall2 R l l' -> In a l -> exists b, In b l' /\ R a b.
Proof.
  induction 1 as [|x y l l' Hxy Hall IH]; [intros []|].
  intros [->|Hin].
  - exists y. split; [now left | assumption].
  - destruct (IH Hin) as (b & Hb & Hr). exists b. split; [now right | assumption].
Qed.

Lemma render_staticPropertyLine id prop ind value :
  render (staticPropertyLine id prop ind value)
  = ind +:+ id +:+ "." +:+ ClassMember.getName prop +:+ " = " +:+ tokText value
        +:+ line ";".
Proof.
  unfold staticPropertyLine. cbn [render tokText]. now rewrite append_nil_r.
Qed.

(** X26.  Static properties.  A lowered class writes, for the static
    properties of the class in order, one assignment each and nothing
    between them: [<id>.<name> = nil;] for a static property without an
    initializer, static accessors included, and [<id>.<name> = <value>;]
    with what the initializer lowers to for one with an initializer.  So
    the text of the assignment of each static property is in the output;
    and no other piece of the output is the literal [ = ] or [nil]. *)
Theorem static_property_assignments node st :
  scanBaseTypes (ClassNode.getBaseTypes node) = NotRoact ->
  forall st' out,
    transpileClass node st = (st', Ok out) ->
    exists toks name st1 pre post assignments,
      transpileClassTokens node st = (st', Ok toks) /\ out = render toks
      /\ resolveName node st = (st1, Ok name)
      /\ toks = pre ++ concat assignments ++ post
      /\ Forall2 (staticPropertyWritten name) (ClassNode.getStaticProperties node)
                 assignments
      /\ (forall prop,
             In prop (ClassNode.getStaticProperties node) ->
             initialized prop = false ->
             occursIn (name +:+ "." +:+ ClassMember.getName prop +:+ " = nil;" +:+ LF) out)
      /\ (forall prop,
             In prop (ClassNode.getStaticProperties node) ->
             initialized prop = true ->
             exists initializer v s s',
               ClassMember.getInitializer prop = Some initializer
               /\ transpileExpression initializer s = (s', Ok v)
               /\ occursIn (name +:+ "." +:+ ClassMember.getName prop +:+ " = " +:+ v
                                 +:+ ";" +:+ LF) out)
      /\ countLit " = " toks = List.length (ClassNode.getStaticProperties node)
      /\ countLit "nil" toks
         = List.length (filter (fun prop => negb (initialized prop))
                               (ClassNode.getStaticProperties node)).
Proof.
  intros Hscan st' out H. apply transpileClass_inv in H. destruct H as (toks & Hrun & ->).
  pose proof (transpileClassTokens_lits _ _ Hscan Hrun) as Hlits.
  pose proof Hrun as Hinv. apply transpileClassTokens_inv in Hinv; [|assumption].
  destruct Hinv as (name & st1 & st2 & st3 & tables & inits & glue
                    & Hname & _ & _ & Hglue & Htoks).
  apply emitGlue_inv in Hglue.
  destruct Hglue as (meta & factory & ctor & props & getters & setters & closing
                     & s2 & s3 & s4 & s5 & s6 & _ & _ & _ & Hprops & _ & _ & _ & Hglue).
  unfold emitStaticProperties in Hprops.
  apply emitStaticProperties_loop in Hprops.
  destruct Hprops as (assignments & -> & Hall).
  assert (Hshape : toks = (tables ++ meta ++ factory ++ ctor) ++ concat assignments
                          ++ (getters ++ setters ++ closing)).
  { subst toks glue. rewrite <- !app_assoc. reflexivity. }
  assert (Hline : forall prop,
             In prop (ClassNode.getStaticProperties node) ->
             exists ind value,
               staticPropertyWritten name prop (staticPropertyLine name prop ind value)
               /\ occursIn (render (staticPropertyLine name prop ind value)) (render toks)
               /\ (initialized prop = false -> value = Lit "nil")
               /\ (initialized prop = true ->
                   exists initializer v s s',
                     ClassMember.getInitializer prop = Some initializer
                     /\ transpileExpression initializer s = (s', Ok v)
                     /\ value = Val v)).
  { intros prop Hin.
    destruct (@Forall2_In_left _ _ _ _ _ _ Hall Hin) as (assignment & Hina & Hw).
    pose proof Hw as Hw'. destruct Hw' as (ind & value & -> & Hnil & Hval).
    exists ind, value. split; [assumption|]. split; [|split; assumption].
    destruct (@concat_segment _ _ _ Hina) as (a & b & Hcat).
    rewrite Hshape, Hcat.
    replace ((tables ++ meta ++ factory ++ ctor)
               ++ (a ++ staticPropertyLine name prop ind value ++ b)
               ++ getters ++ setters ++ closing)
      with (((tables ++ meta ++ factory ++ ctor) ++ a)
              ++ staticPropertyLine name prop ind value
              ++ (b ++ getters ++ setters ++ closing))
      by (rewrite <- !app_assoc; reflexivity).
    apply occursIn_render. }
  exists toks, name, st1, (tables ++ meta ++ factory ++ ctor),
    (getters ++ setters ++ closing), assignments.
  split; [assumption|]. split; [reflexivity|]. split; [assumption|].
  split; [assumption|]. split; [assumption|]. split; [|split].
  - intros prop Hin Hinit.
    destruct (Hline prop Hin) as (ind & value & _ & Hocc & Hnil & _).
    rewrite (Hnil Hinit), render_staticPropertyLine in Hocc.
    eapply occursIn_trans; [|exact Hocc]. cbn [tokText].
    exists ind, EmptyString. unfold line. now rewrite !append_assoc, append_nil_r.
  - intros prop Hin Hinit.
    destruct (Hline prop Hin) as (ind & value & _ & Hocc & _ & Hval).
    destruct (Hval Hinit) as (initializer & v & s & s' & Hi & Hv & ->).
    exists initializer, v, s, s'. split; [assumption|]. split; [assumption|].
    rewrite render_staticPropertyLine in Hocc.
    eapply occursIn_trans; [|exact Hocc]. cbn [tokText].
    exists ind, EmptyString. unfold line. now rewrite !append_assoc, append_nil_r.
  - rewrite !countLit_lits, Hlits. split.
    + rewrite (count_staticProperties node " = " (fun _ => true)).
      * f_equal. clear. induction (ClassNode.getStaticProperties node) as [|p l IH];
          [reflexivity | cbn [filter]; now rewrite IH].
      * intros prop. unfold staticPropertyLits.
        destruct (ClassMember.isInitializerExpressionableNode prop);
          [destruct (ClassMember.getInitializer prop)|]; reflexivity.
      * none_in_tables node.
      * reflexivity.
      * reflexivity.
      * intros table accessors ancestorHas. unfold accessorTableLits.
        destruct (some accessors); [destruct ancestorHas|]; cbn [filter];
          repeat match goal with
                 | |- context [String.eqb " = " ?s] =>
                     replace (String.eqb " = " s) with false
                       by (symmetry; apply String.eqb_neq; destruct table; discriminate)
                 end; reflexivity.
      * reflexivity.
      * reflexivity.
      * reflexivity.
      * reflexivity.
    + rewrite (count_staticProperties node "nil" (fun prop => negb (initialized prop))).
      * reflexivity.
      * intros prop. unfold staticPropertyLits, initialized.
        destruct (ClassMember.isInitializerExpressionableNode prop);
          [destruct (ClassMember.getInitializer prop)|]; reflexivity.
      * none_in_tables node.
      * reflexivity.
      * reflexivity.
      * intros table accessors ancestorHas. unfold accessorTableLits.
        destruct (some accessors); [destruct ancestorHas|]; cbn [filter];
          repeat match goal with
                 | |- context [String.eqb "nil" ?s] =>
                     replace (String.eqb "nil" s) with false
                       by (symmetry; apply String.eqb_neq; discriminate)
                 end; reflexivity.
      * reflexivity.
      * reflexivity.
      * reflexivity.
      * reflexivity.
Qed.

(** The metamethod loop stops at the first name that is resolved and
    cannot be defined. *)
Lemma metamethods_first (id : string) (node : ClassNode.t) (names : list string) m st :
  find (fun m => isSome (getClassMethod node m) && includes LUA_UNDEFINABLE_METAMETHODS m)
       names = Some m ->
  forEach
    (fun metamethod =>
       match getClassMethod node metamethod with
       | Some _ =>
           if includes LUA_UNDEFINABLE_METAMETHODS metamethod then
             throw (TranspilerError
                      ("Cannot use undefinable Lua metamethod as identifier '"
                         +:+ metamethod +:+ "' for a class")
                      (ClassNodeOf node) UndefinableMetamethod)
           else emit (trampoline id metamethod)
       | None => ret []
       end) names st
  = (st, Throw (TranspilerError
                  ("Cannot use undefinable Lua metamethod as identifier '"
                     +:+ m +:+ "' for a class")
                  (ClassNodeOf node) UndefinableMetamethod)).
Proof.
  induction names as [|x names IH]; cbn [find forEach]; [discriminate|].
  destruct (getClassMethod node x) as [method|]; cbn [isSome andb].
  - destruct (includes LUA_UNDEFINABLE_METAMETHODS x).
    + intros [= <-]. reflexivity.
    + intros H. erewrite bind_step by apply emit_run.
      erewrite bind_Throw by exact (IH H). reflexivity.
  - intros H. erewrite bind_step by reflexivity.
    erewrite bind_Throw by exact (IH H). reflexivity.
Qed.

(** X27.  Which name the UndefinableMetamethod diagnostic reports: of
    [__index], [__newindex] and [__mode], in this order, the first that the
    class or an ancestor has a method for; the diagnostic is thrown once
    the tables are written, and nothing of the class is returned. *)
Theorem first_undefinable_reported node st m name st1 st2 st3 tables inits :
  scanBaseTypes (ClassNode.getBaseTypes node) = NotRoact ->
  find (fun m => isSome (getClassMethod node m)) LUA_UNDEFINABLE_METAMETHODS = Some m ->
  resolveName node st = (st1, Ok name) ->
  (if ClassNode.isClassDeclaration node then pushExport name node else ret tt) st1
  = (st2, Ok tt) ->
  emitTables name node st2 = (st3, Ok (tables, inits)) ->
  transpileClass node st
  = (st3, Throw (TranspilerError
                   ("Cannot use undefinable Lua metamethod as identifier '"
                      +:+ m +:+ "' for a class")
                   (ClassNodeOf node) UndefinableMetamethod)).
Proof.
  intros Hscan Hfind Hname Hexport Htables.
  assert (Hfirst : find (fun m => isSome (getClassMethod node m)
                                  && includes LUA_UNDEFINABLE_METAMETHODS m)
                        LUA_RESERVED_METAMETHODS = Some m).
  { rewrite find_filter. exact Hfind. }
  unfold transpileClass, transpileClassTokens. rewrite Hscan.
  apply bind_Throw.
  erewrite bind_step by exact Hname.
  erewrite bind_step by exact Hexport.
  erewrite bind_step by exact Htables.
  apply bind_Throw. unfold emitGlue. rewrite block_cons.
  apply bind_Throw. unfold emitMetamethods. now apply metamethods_first.
Qed.

Lemma instancePropsLoop_Ok props st st' inits :
  instancePropsLoop props st = (st', Ok inits) ->
  Forall2 (fun prop init =>
             exists initializer v s s',
               ClassMember.getInitializer prop = Some initializer
               /\ transpileExpression initializer s = (s', Ok v)
               /\ init = "self." +:+ ClassMember.getName prop +:+ " = " +:+ v
                         +:+ line ";")
          (filter (fun prop => nonEmpty (ClassMember.getName prop) && initialized prop) props)
          inits.
Proof.
  revert st st' inits. induction props as [|p props IH]; cbn [instancePropsLoop filter];
    intros st st' inits H.
  - run_inv H. constructor.
  - apply bind_Ok in H. destruct H as (here & s1 & H1 & H).
    apply bind_Ok in H. destruct H as (more & s2 & H2 & H). run_inv H.
    apply IH in H2. unfold initialized.
    destruct (nonEmpty (ClassMember.getName p)); cbn [andb].
    + apply bind_Ok in H1. destruct H1 as (u & s3 & _ & H1).
      destruct (ClassMember.isInitializerExpressionableNode p); cbn [andb].
      * destruct (ClassMember.getInitializer p) as [initializer|] eqn:Hinit; cbn [isSome].
        -- apply bind_Ok in H1. destruct H1 as (v & s4 & Hv & H1). run_inv H1.
           constructor; [|assumption].
           eexists initializer, v, _, _.
           split; [exact Hinit|]. split; [exact Hv | reflexivity].
        -- run_inv H1. assumption.
      * run_inv H1. assumption.
    + run_inv H1. assumption.
Qed.

(** X28.  Field initializers become constructor statements: the
    constructor of a lowered class is lowered from the first constructor
    declaration of the class, if it has one, with one statement
    [self.<name> = <value>;] for each instance property of the class itself
    that has an initializer, [<value>] being what the initializer lowers
    to, in the order of declaration, and with nothing
    for accessors, parameter properties and static properties; the text it
    lowers to is in the output. *)
Theorem field_initializers node st :
  scanBaseTypes (ClassNode.getBaseTypes node) = NotRoact ->
  forall st' out,
    transpileClass node st = (st', Ok out) ->
    exists name st1 inits s s' text,
      resolveName node st = (st1, Ok name)
      /\ Forall2 (fun prop init =>
                    exists initializer v s s',
                      ClassMember.getInitializer prop = Some initializer
                      /\ transpileExpression initializer s = (s', Ok v)
                      /\ init = "self." +:+ ClassMember.getName prop +:+ " = " +:+ v
                                +:+ line ";")
                 (filter (fun prop => nonEmpty (ClassMember.getName prop) && initialized prop)
                         (instancePropsOf node))
                 inits
      /\ transpileConstructorDeclaration name (getConstructor node) inits
                                         (hasInstanceInheritance node) s
         = (s', Ok text)
      /\ occursIn text out.
Proof.
  intros Hscan st' out H. apply transpileClass_inv in H. destruct H as (toks & Hrun & ->).
  apply transpileClassTokens_inv in Hrun; [|assumption].
  destruct Hrun as (name & st1 & st2 & st3 & tables & inits & glue
                    & Hname & _ & Htables & Hglue & ->).
  apply emitTables_inv in Htables.
  destruct Htables as (sh & s1 & base & s2 & alias & static & inst
                       & _ & _ & _ & _ & Hinst & _).
  unfold emitInstanceTable in Hinst.
  apply bind_Ok in Hinst. destruct Hinst as (opening & t1 & _ & Hinst).
  apply bind_Ok in Hinst. destruct Hinst as (u & t2 & _ & Hinst).
  apply bind_Ok in Hinst. destruct Hinst as (extra & t3 & Hloop & Hinst).
  apply bind_Ok in Hinst. destruct Hinst as ([seen methods] & t4 & _ & Hinst).
  run_inv Hinst.
  apply instancePropsLoop_Ok in Hloop.
  apply emitGlue_inv in Hglue.
  destruct Hglue as (meta & factory & ctor & props & getters & setters & closing
                     & g2 & g3 & g4 & g5 & g6 & _ & _ & Hctor & _ & _ & _ & _ & ->).
  unfold emitConstructor in Hctor.
  apply bind_Ok in Hctor. destruct Hctor as (text & g & Hctor & Hret). run_inv Hret.
  eexists name, st1, _, _, _, _.
  split; [eassumption|]. split; [eassumption|]. split; [eassumption|].
  replace text with (render [Val text]) at 1 by (cbn; apply append_nil_r).
  replace (tables ++ meta ++ factory ++ [Val text] ++ props ++ getters ++ setters ++ closing)
    with ((tables ++ meta ++ factory) ++ [Val text]
            ++ (props ++ getters ++ setters ++ closing))
    by (rewrite <- !app_assoc; reflexivity).
  apply occursIn_render.
Qed.

End TableFacts.

(** * The lowering on sample input *)

(** The sample collaborators cooperate on the sample classes [Vec] and
    [Dog], and neither class declares an undefinable metamethod. *)
Lemma vec_cooperative : @Cooperative Demo.collaborators Demo.vec Demo.start.
Proof.
  constructor.
  - intros s. now eexists _, _.
  - intros name n [= <-] Hname. now rewrite (Hname eq_refl).
  - intros name s. now eexists _, _.
  - intros name s1 s2 _ Hname Hexport.
    vm_compute in Hname. inversion Hname; subst.
    vm_compute in Hexport. inversion Hexport; subst. discriminate.
  - intros m Hin. cbn in Hin.
    destruct Hin as [<-|[<-|[<-|[<-|[]]]]]; reflexivity.
  - intros e s. now eexists _, _.
  - intros m s. now eexists _, _.
  - intros m name s. now eexists _, _.
  - intros id c inits inherits s. now eexists _, _.
Qed.

Lemma vec_definable : definable Demo.vec.
Proof.
  intros m Hm. apply includes_In in Hm. cbn [LUA_UNDEFINABLE_METAMETHODS In] in Hm.
  destruct Hm as [<-|[<-|[<-|[]]]]; reflexivity.
Qed.

Lemma dog_cooperative : @Cooperative Demo.collaborators Demo.dog Demo.start.
Proof.
  constructor.
  - intros s. now eexists _, _.
  - intros name n [= <-] Hname. now rewrite (Hname eq_refl).
  - intros name s. now eexists _, _.
  - intros name s1 s2 _ Hname Hexport.
    vm_compute in Hname. inversion Hname; subst.
    vm_compute in Hexport. inversion Hexport; subst. discriminate.
  - intros m Hin. cbn in Hin.
    repeat (destruct Hin as [<-|Hin]; [reflexivity|]). destruct Hin.
  - intros e s. now eexists _, _.
  - intros m s. now eexists _, _.
  - intros m name s. now eexists _, _.
  - intros id c inits inherits s. now eexists _, _.
Qed.

Lemma dog_definable : definable Demo.dog.
Proof.
  intros m Hm. apply includes_In in Hm. cbn [LUA_UNDEFINABLE_METAMETHODS In] in Hm.
  destruct Hm as [<-|[<-|[<-|[]]]]; reflexivity.
Qed.

Lemma metamethod_trampolines_witness :
  @scanBaseTypes Demo.collaborators (ClassNode.getBaseTypes Demo.vec) = NotRoact
  /\ exists st' out,
      @transpileClass Demo.collaborators Demo.vec Demo.start = (st', Ok out)
      /\ occursIn (trampolineText "Vec" "__add") out.
Proof.
  split; [reflexivity|].
  destruct (@metamethod_trampolines Demo.collaborators Demo.vec Demo.start eq_refl)
    as (Hret & Hemit & _).
  destruct (Hret vec_cooperative vec_definable) as (st' & out & Hrun).
  exists st', out. split; [exact Hrun|].
  destruct (Hemit st' out Hrun) as (name & st1 & Hname & Hall).
  vm_compute in Hname. inversion Hname; subst name.
  apply Hall; [vm_compute; tauto | reflexivity | vm_compute; discriminate].
Defined.


Lemma super_wiring_witness :
  @scanBaseTypes Demo.collaborators (ClassNode.getBaseTypes Demo.dog) = NotRoact
  /\ exists st' out toks,
      @transpileClass Demo.collaborators Demo.dog Demo.start = (st', Ok out)
      /\ out = render toks
      /\ countLit "local super = " toks = 1
      /\ countLit " = {" toks = 1
      /\ countLit ".__index = setmetatable({" toks = 1.
Proof.
  split; [reflexivity|].
  destruct (@super_wiring_follows_inheritance Demo.collaborators Demo.dog Demo.start
                                              eq_refl) as [Hret Hthm].
  destruct (Hret dog_cooperative dog_definable) as (st' & out & Hrun).
  destruct (Hthm st' out Hrun)
    as (toks & _ & Hout & _ & _ & Halias & _ & _ & Hstatic & Hinst & _).
  exists st', out, toks.
  repeat split; assumption.
Defined.

Lemma new_factory_witness :
  @scanBaseTypes Demo.collaborators (ClassNode.getBaseTypes Demo.vec) = NotRoact
  /\ exists st' out,
      @transpileClass Demo.collaborators Demo.vec Demo.start = (st', Ok out)
      /\ exists i1 i2 i3, occursIn (factoryText i1 i2 i3 "Vec") out.
Proof.
  split; [reflexivity|].
  destruct (@new_factory_unless_abstract Demo.collaborators Demo.vec Demo.start eq_refl)
    as [Hret Hthm].
  destruct (Hret vec_cooperative vec_definable) as (st' & out & Hrun).
  exists st', out. split; [exact Hrun|].
  destruct (Hthm st' out Hrun) as (toks & name & st1 & _ & _ & Hname & _ & _ & Hfactory).
  vm_compute in Hname. inversion Hname; subst name.
  destruct (Hfactory eq_refl) as (pre & post & i1 & i2 & i3 & _ & Hocc).
  exists i1, i2, i3. exact Hocc.
Defined.

Lemma array_member_call_witness :
  exists st',
    @transpileCallExpression Demo.collaborators Demo.arrMap false Demo.start
    = (st', Ok "TS.array_map(arr, f)")
    /\ usesTSLibrary st' = true.
Proof.
  exact (@array_member_call Demo.collaborators Demo.arrMap false _ _ _ Demo.start
                            _ _ _ _ _ eq_refl eq_refl eq_refl eq_refl eq_refl).
Defined.

Lemma math_macro_call_witness :
  @transpileCallExpression Demo.collaborators (Demo.vecAdd (OtherKind 0)) false Demo.start
  = (Demo.start, Ok "(v + (w))")
  /\ exists msg,
      @transpileCallExpression Demo.collaborators (Demo.vecAdd ExpressionStatement)
                               false Demo.start
      = (Demo.start,
         Throw (TranspilerError msg (CallExpressionOf (Demo.vecAdd ExpressionStatement))
                                NoMacroMathExpressionStatement)).
Proof.
  split.
  - exact (@math_macro_call Demo.collaborators (Demo.vecAdd (OtherKind 0)) false
                            _ _ _ _ "+" Demo.start _ _ _ _ _
                            eq_refl eq_refl eq_refl eq_refl eq_refl eq_refl eq_refl
                            eq_refl eq_refl eq_refl).
  - eexists.
    exact (@math_macro_call Demo.collaborators (Demo.vecAdd ExpressionStatement) false
                            _ _ _ _ "+" Demo.start _ _ _ _ _
                            eq_refl eq_refl eq_refl eq_refl eq_refl eq_refl eq_refl
                            eq_refl eq_refl eq_refl).
Defined.

Lemma super_calls_witness :
  @transpileCallExpression Demo.collaborators Demo.superCall false Demo.start
  = (Demo.start, Ok "Animal.constructor(self, x)")
  /\ @transpileCallExpression Demo.collaborators Demo.superSpeak false Demo.start
     = (Demo.start, Ok "Animal.__index.speak(self, x)").
Proof.
  destruct (@super_calls Demo.collaborators Demo.superCall false Demo.start) as [H1 _].
  destruct (@super_calls Demo.collaborators Demo.superSpeak false Demo.start) as [_ H2].
  split.
  - exact (H1 _ _ _ _ eq_refl eq_refl eq_refl).
  - exact (H2 _ _ _ _ _ _ _ _ _ _ eq_refl eq_refl eq_refl eq_refl eq_refl
              eq_refl eq_refl eq_refl).
Defined.

(** C7, as stated, fails on a member call on [super] in a class extending
    [Map]: the receiver is [super], the member resolves to a method
    declaration, and the call lowers through the map form, not through
    [Map.__index].  It fails as well on [super(x)] where the type of
    [super] has no symbol: the call throws, and lowers to no text. *)
Lemma super_member_call_on_map :
  (exists sty ty msym,
      CallExpression.getExpression Demo.superMapSet
      = PropertyAccessExpression (SuperExpression sty) "set" ty
      /\ TsType.getSymbol ty = Some msym
      /\ existsb isMethodDec (Symbol.getDeclarations msym) = true)
  /\ @transpileCallExpression Demo.collaborators Demo.superMapSet false Demo.start
     = (set_usesTSLibrary true Demo.start, Ok "TS.map_set(super, k, v)")
  /\ "TS.map_set(super, k, v)" <> "Map.__index.set(self, k, v)"
  /\ (exists ty, CallExpression.getExpression Sample.superAny = SuperExpression ty)
  /\ exists message,
      @transpileCallExpression Demo.collaborators Sample.superAny false Demo.start
      = (Demo.start, Throw (RuntimeError message)).
Proof.
  split; [eexists _, _, _; repeat split; reflexivity|].
  split; [reflexivity|]. split; [discriminate|].
  split; [eexists; reflexivity|].
  exists "Expected to find a symbol.". reflexivity.
Qed.


Lemma tuple_return_witness :
  @transpileCallExpression Demo.collaborators Demo.pairCall false Demo.start
  = (Demo.start, Ok "{ pair() }")
  /\ @transpileCallExpression Demo.collaborators Demo.pairCall true Demo.start
     = (Demo.start, Ok "pair()")
  /\ @transpileCallExpression Demo.collaborators Sample.pairMethod false Demo.start
     = (Demo.start, Ok "{ obj:pair() }")
  /\ @transpileCallExpression Demo.collaborators Sample.pairMethod true Demo.start
     = (Demo.start, Ok "obj:pair()").
Proof.
  destruct (@tuple_return_wrapped_once Demo.collaborators Demo.pairCall false Demo.start)
    as (Hplain & _).
  destruct (@tuple_return_wrapped_once Demo.collaborators Demo.pairCall true Demo.start)
    as (Hbare & _).
  destruct (@tuple_return_wrapped_once Demo.collaborators Sample.pairMethod false Demo.start)
    as (_ & Hmember & _).
  destruct (@tuple_return_wrapped_once Demo.collaborators Sample.pairMethod true Demo.start)
    as (_ & Hsuppressed & _).
  split; [exact (Hplain _ _ _ _ _ _ eq_refl eq_refl eq_refl)|].
  split; [exact (Hbare _ _ _ _ _ _ eq_refl eq_refl eq_refl)|].
  split.
  - exact (proj1 (Hmember _ _ _ _ _ _ _ _ eq_refl eq_refl eq_refl eq_refl eq_refl) eq_refl).
  - exact (proj1 (Hsuppressed _ _ _ _ _ _ _ _ eq_refl eq_refl eq_refl eq_refl eq_refl)
                 eq_refl).
Defined.

Lemma object_constructor_call_witness :
  exists st',
    @transpileCallExpression Demo.collaborators Demo.objectKeys false Demo.start
    = (st', Ok "TS.Object_keys(o)")
    /\ usesTSLibrary st' = true.
Proof.
  exact (@object_constructor_call Demo.collaborators Demo.objectKeys false _ _ _ _
                                  Demo.start _ _ _ _ _
                                  eq_refl eq_refl eq_refl eq_refl eq_refl eq_refl
                                  eq_refl eq_refl eq_refl).
Defined.

Lemma multiple_export_equals_witness :
  exists st' msg,
    @transpileSourceFile Demo.collaborators Demo.twoExportEquals Demo.start
    = (st', Throw (TranspilerError msg (SourceFileOf Demo.twoExportEquals)
                                   MultipleExportEquals)).
Proof.
  eexists _, _.
  refine (@multiple_export_equals_rejected Demo.collaborators Demo.twoExportEquals
                                           Demo.start _ _ eq_refl eq_refl eq_refl _).
  vm_compute. apply le_n.
Defined.

Lemma export_default_after_export_equals_witness :
  countExportEquals (SourceFile.getExportAssignments Demo.exportEqualsThenDefault) = 1
  /\ exists st' msg,
      @transpileSourceFile Demo.collaborators Demo.exportEqualsThenDefault Demo.start
      = (st', Throw (TranspilerError msg (SourceFileOf Demo.exportEqualsThenDefault)
                                     MultipleExportEquals)).
Proof.
  destruct (@export_default_after_export_equals_rejected
              Demo.collaborators Demo.exportEqualsThenDefault Demo.start _ _
              eq_refl eq_refl eq_refl eq_refl) as [Hcount Hthrow].
  split; [exact Hcount|]. eexists _, _. exact Hthrow.
Defined.

Lemma single_export_assignment_witness :
  followsExportEquals (SourceFile.getExportAssignments Demo.oneExportEquals) = false
  /\ exists st' out,
      @transpileSourceFile Demo.collaborators Demo.oneExportEquals Demo.start
      = (st', Ok out).
Proof.
  split; [reflexivity|].
  eexists.
  exact (@single_export_assignment_accepted Demo.collaborators Demo.oneExportEquals
                                            Demo.start _ _ eq_refl eq_refl eq_refl eq_refl).
Defined.

(** ** More sample runs *)

Lemma string_member_call_witness :
  @transpileCallExpression Demo.collaborators Sample.strSub false Demo.start
  = (Demo.start, Ok "string.sub(s, 1, 2)")
  /\ @transpileCallExpression Demo.collaborators Sample.strSplit false Demo.start
     = (Sample.usedLibrary, Ok "TS.string_split(s, sep)").
Proof.
  split.
  - exact (@string_member_call Demo.collaborators Sample.strSub false _ _ _ Demo.start
                               _ _ _ _ _ eq_refl eq_refl eq_refl eq_refl eq_refl eq_refl).
  - exact (@string_member_call Demo.collaborators Sample.strSplit false _ _ _ Demo.start
                               _ _ _ _ _ eq_refl eq_refl eq_refl eq_refl eq_refl eq_refl).
Defined.

Lemma map_and_set_member_call_witness :
  @transpileCallExpression Demo.collaborators Sample.mapGet false Demo.start
  = (Sample.usedLibrary, Ok "TS.map_get(m, k)")
  /\ @transpileCallExpression Demo.collaborators Sample.setHas false Demo.start
     = (Sample.usedLibrary, Ok "TS.set_has(seen, x)").
Proof.
  split.
  - exact (proj1 (@map_and_set_member_call
                    Demo.collaborators Sample.mapGet false _ _ _ _ Demo.start _ _ _ _ _
                    eq_refl eq_refl eq_refl eq_refl eq_refl eq_refl eq_refl eq_refl)
                 eq_refl).
  - exact (proj2 (@map_and_set_member_call
                    Demo.collaborators Sample.setHas false _ _ _ _ Demo.start _ _ _ _ _
                    eq_refl eq_refl eq_refl eq_refl eq_refl eq_refl eq_refl eq_refl)
                 eq_refl).
Defined.

Lemma promise_then_and_symbol_for_witness :
  @transpileCallExpression Demo.collaborators Sample.promiseThen false Demo.start
  = (Demo.start, Ok "p:andThen(f)")
  /\ @transpileCallExpression Demo.collaborators Sample.symbolFor false Demo.start
     = (Demo.start, Ok "Symbol.getFor(k)").
Proof.
  split.
  - exact (proj1 (@promise_then_and_symbol_for
                    Demo.collaborators Sample.promiseThen false _ _ _ _ Demo.start _ _ _ _ _
                    eq_refl eq_refl eq_refl eq_refl eq_refl eq_refl eq_refl eq_refl)
                 eq_refl eq_refl).
  - exact (proj2 (@promise_then_and_symbol_for
                    Demo.collaborators Sample.symbolFor false _ _ _ _ Demo.start _ _ _ _ _
                    eq_refl eq_refl eq_refl eq_refl eq_refl eq_refl eq_refl eq_refl)
                 eq_refl eq_refl).
Defined.

Lemma default_member_call_witness :
  @transpileCallExpression Demo.collaborators Sample.methodCall false Demo.start
  = (Demo.start, Ok "obj:run(x)")
  /\ @transpileCallExpression Demo.collaborators Sample.callbackCall false Demo.start
     = (Demo.start, Ok "obj.callback(x)").
Proof.
  split.
  - exact (@default_member_call Demo.collaborators Sample.methodCall false _ _ _
                                Demo.start _ _ _ _ _
                                eq_refl eq_refl eq_refl eq_refl eq_refl eq_refl).
  - exact (@default_member_call Demo.collaborators Sample.callbackCall false _ _ _
                                Demo.start _ _ _ _ _
                                eq_refl eq_refl eq_refl eq_refl eq_refl eq_refl).
Defined.

Lemma math_class_other_member_witness :
  CallExpression.getParentKind Sample.vecDot = ExpressionStatement
  /\ @transpileCallExpression Demo.collaborators Sample.vecDot false Demo.start
     = (Demo.start, Ok "v:Dot(w)").
Proof.
  split; [reflexivity|].
  exact (@math_class_other_member Demo.collaborators Sample.vecDot false _ _ _ _
                                  Demo.start _ _ _ _ _
                                  eq_refl eq_refl eq_refl eq_refl eq_refl eq_refl eq_refl
                                  eq_refl eq_refl eq_refl eq_refl).
Defined.

Lemma macros_never_wrap_witness :
  @isTupleType Demo.collaborators (CallExpression.getReturnType Sample.arrPop) = true
  /\ @transpileCallExpression Demo.collaborators Sample.arrPop false Demo.start
     = @transpileCallExpression Demo.collaborators Sample.arrPop true Demo.start.
Proof.
  split; [reflexivity|].
  exact (@macros_never_wrap Demo.collaborators Sample.arrPop false Demo.start eq_refl).
Defined.

Lemma super_without_symbol_witness :
  exists message,
    @transpileCallExpression Demo.collaborators Sample.superAny false Demo.start
    = (Demo.start, Throw (RuntimeError message)).
Proof.
  exact (proj1 (@super_without_symbol Demo.collaborators Sample.superAny false Demo.start)
               _ _ _ eq_refl eq_refl eq_refl).
Defined.

Lemma call_lowering_frame_witness :
  usesTSLibrary
    (fst (@transpileCallExpression Demo.collaborators Demo.pairCall false Sample.usedLibrary))
  = true.
Proof.
  refine (@call_lowering_frame Demo.collaborators (fun s => usesTSLibrary s = true)
            (fun s _ => eq_refl) _ _ _ Demo.pairCall false Sample.usedLibrary _ _
            (surjective_pairing _) eq_refl).
  - intros n s s' r H Hp. inversion H; subst. exact Hp.
  - intros e s s' r H Hp. inversion H; subst. exact Hp.
  - intros a s s' r H Hp. inversion H; subst. exact Hp.
Defined.

Lemma export_in_non_module_script_witness :
  exists st' message,
    @transpileSourceFile Demo.collaborators Sample.serverExports Demo.start
    = (st', Throw (TranspilerError message (SourceFileOf Sample.serverExports)
                                   ExportInNonModuleScript)).
Proof.
  eexists _, _.
  refine (@export_in_non_module_script Demo.collaborators Sample.serverExports Demo.start
                                       _ _ eq_refl eq_refl _).
  discriminate.
Defined.

Lemma module_file_text_witness :
  (exists st',
      @transpileSourceFile Demo.collaborators Demo.oneExportEquals Demo.start
      = (st', Ok ("local _exports;" +:+ LF +:+ "-- shared/once.ts" +:+ LF
                    +:+ "return _exports;" +:+ LF)))
  /\ exists st',
      @transpileSourceFile Demo.collaborators Sample.exportDefault Demo.start
      = (st', Ok ("local _exports = {};" +:+ LF +:+ "-- shared/default.ts" +:+ LF
                    +:+ "return _exports;" +:+ LF)).
Proof.
  split; eexists.
  - exact (@module_file_text Demo.collaborators Demo.oneExportEquals Demo.start _ _
                             eq_refl eq_refl eq_refl eq_refl).
  - exact (@module_file_text Demo.collaborators Sample.exportDefault Demo.start _ _
                             eq_refl eq_refl eq_refl eq_refl).
Defined.

Lemma plain_file_text_witness :
  @transpileSourceFile Demo.collaborators Sample.serverPlain Demo.start
  = (Demo.start, Ok ("-- server/main.server.ts" +:+ LF))
  /\ @transpileSourceFile Demo.collaborators Sample.moduleNoExports Demo.start
     = (Demo.start, Ok ("-- shared/util.ts" +:+ LF +:+ "return nil;" +:+ LF)).
Proof.
  split.
  - exact (@plain_file_text Demo.collaborators Sample.serverPlain Demo.start _ _
                            eq_refl eq_refl).
  - exact (@plain_file_text Demo.collaborators Sample.moduleNoExports Demo.start _ _
                            eq_refl eq_refl).
Defined.

Lemma inherited_metamethod_trampolines_witness :
  ClassNode.getMethod Sample.vec2 "__add" = None
  /\ exists st' out toks,
      @transpileClass Demo.collaborators Sample.vec2 Demo.start = (st', Ok out)
      /\ out = render toks
      /\ occursIn (trampolineText "Vec2" "__add") out
      /\ countLit " = function(self, ...) return self:" toks = 1.
Proof.
  split; [reflexivity|].
  destruct (@transpileClass Demo.collaborators Sample.vec2 Demo.start)
    as [st' [out|e]] eqn:Hrun; [|vm_compute in Hrun; discriminate Hrun].
  destruct (@inherited_metamethod_trampolines Demo.collaborators Sample.vec2 Demo.start
              eq_refl st' out Hrun)
    as (toks & name & st1 & _ & Hout & Hname & Hall & Hcount).
  vm_compute in Hname. inversion Hname; subst name.
  exists st', out, toks. split; [reflexivity|]. split; [assumption|]. split.
  - apply (Hall Demo.vec "__add"); [vm_compute; tauto | vm_compute; tauto|].
    vm_compute. discriminate.
  - exact Hcount.
Defined.

Lemma reserved_class_name_rejected_witness :
  exists e, @transpileClass Demo.collaborators Sample.reserved Demo.start
            = (Demo.start, Throw e).
Proof.
  eexists.
  exact (@reserved_class_name_rejected Demo.collaborators Sample.reserved Demo.start
                                       "end" _ eq_refl eq_refl eq_refl).
Defined.

Lemma roact_classes_witness :
  (exists st2,
      @transpileClass Demo.collaborators Sample.button Demo.start
      = @transpileRoactClassDeclaration Demo.collaborators "Component" "Button"
                                        Sample.button st2)
  /\ exists st2,
      @transpileClass Demo.collaborators Sample.fancyButton Demo.start
      = (st2, Throw (TranspilerError "Derived Classes are not supported in Roact!"
                                     (ClassNodeOf Sample.fancyButton)
                                     RoactSubClassesNotSupported)).
Proof.
  split; eexists.
  - exact (@roact_classes Demo.collaborators Sample.button Demo.start _ _ _
                          eq_refl eq_refl).
  - exact (@roact_classes Demo.collaborators Sample.fancyButton Demo.start _ _ _
                          eq_refl eq_refl).
Defined.

Lemma class_block_framing_witness :
  exists st' out body ind',
    @transpileClass Demo.collaborators Sample.anonymous Demo.start = (st', Ok out)
    /\ out = line "(function()" +:+ body +:+ ind' +:+ "end)()".
Proof.
  destruct (@transpileClass Demo.collaborators Sample.anonymous Demo.start)
    as [st' [out|e]] eqn:Hrun; [|vm_compute in Hrun; discriminate Hrun].
  destruct (@class_block_framing Demo.collaborators Sample.anonymous Demo.start
              eq_refl st' out Hrun)
    as (toks & ind & body & ind' & _ & _ & Hout & _).
  exists st', out, body, ind'. split; [reflexivity | exact Hout].
Defined.

Lemma tabs_snoc n : Sample.tabs n +:+ TAB = Sample.tabs (S n).
Proof.
  induction n as [|n IH]; [reflexivity|].
  cbn [Sample.tabs]. rewrite append_assoc, IH. reflexivity.
Qed.

Lemma sample_push k s :
  indent s = Sample.tabs k ->
  indent (@pushIndent Demo.collaborators s) = Sample.tabs (S k).
Proof. intros H. cbn [pushIndent Demo.collaborators indent set_indent]. rewrite H. apply tabs_snoc. Qed.

Lemma sample_pop k s :
  indent s = Sample.tabs (S k) ->
  indent (@popIndent Demo.collaborators s) = Sample.tabs k.
Proof. intros H. cbn [popIndent Demo.collaborators indent set_indent]. now rewrite H. Qed.

(** The sample routines write neither the indentation, nor the hoist
    stack, nor the flag of the runtime library. *)
Lemma sample_preserves {X} (proj : TranspilerState -> X) (x : X) node :
  (forall s, proj (fst (Demo.newId s)) = proj s) ->
  (forall name s, proj (fst (Demo.export name node s)) = proj s) ->
  @Preserves Demo.collaborators (fun s => proj s = x) node.
Proof.
  intros Hid Hexport. constructor.
  - intros s s' name Hp H. change (Demo.newId s = (s', Ok name)) in H.
    rewrite <- Hp, <- (Hid s), H. reflexivity.
  - intros name s s' Hp H. change (Demo.export name node s = (s', Ok tt)) in H.
    rewrite <- Hp, <- (Hexport name s), H. reflexivity.
  - intros e s s' v Hp H. now destruct (f_equal fst H : s = s').
  - intros m s s' v Hp H. now destruct (f_equal fst H : s = s').
  - intros m name s s' v Hp H. now destruct (f_equal fst H : s = s').
  - intros id c inits inherits s s' v Hp H. now destruct (f_equal fst H : s = s').
Qed.

Lemma indentation_restored_witness :
  exists st' out,
    @transpileClass Demo.collaborators Demo.vec Demo.start = (st', Ok out)
    /\ indent st' = EmptyString.
Proof.
  destruct (@transpileClass Demo.collaborators Demo.vec Demo.start)
    as [st' [out|e]] eqn:Hrun; [|vm_compute in Hrun; discriminate Hrun].
  exists st', out. split; [reflexivity|].
  exact (@indentation_restored Demo.collaborators Sample.tabs Demo.vec Demo.start 0
           sample_push sample_pop
           (fun k => sample_preserves indent (Sample.tabs k) Demo.vec
                       (fun _ => eq_refl) (fun _ _ => eq_refl))
           eq_refl eq_refl st' out Hrun).
Defined.

Lemma indentation_left_by_undefinable_witness :
  exists st3 message,
    @transpileClass Demo.collaborators Demo.indexer Demo.start
    = (st3, Throw (TranspilerError message (ClassNodeOf Demo.indexer)
                                   UndefinableMetamethod))
    /\ indent Demo.start = EmptyString /\ indent st3 = TAB.
Proof.
  destruct (@indentation_left_by_undefinable
              Demo.collaborators Sample.tabs Demo.indexer Demo.start 0 "__index"
              _ _ _ _ _ _
              sample_push sample_pop
              (fun k => sample_preserves indent (Sample.tabs k) Demo.indexer
                          (fun _ => eq_refl) (fun _ _ => eq_refl))
              eq_refl eq_refl eq_refl ltac:(discriminate) eq_refl eq_refl eq_refl)
    as ((message & Hthrow) & Hindent).
  eexists _, message. split; [exact Hthrow|]. split; [reflexivity | exact Hindent].
Defined.

Lemma class_declaration_hoisted_witness :
  exists st' out,
    @transpileClass Demo.collaborators Demo.vec Demo.start = (st', Ok out)
    /\ hoistStack Demo.start = [[]] /\ hoistStack st' = [["Vec"]].
Proof.
  destruct (@transpileClass Demo.collaborators Demo.vec Demo.start)
    as [st' [out|e]] eqn:Hrun; [|vm_compute in Hrun; discriminate Hrun].
  exists st', out. split; [reflexivity|]. split; [reflexivity|].
  exact (@class_declaration_hoisted Demo.collaborators Demo.vec Demo.start _ "Vec"
           (fun _ => eq_refl) (fun _ => eq_refl)
           (fun h => sample_preserves hoistStack h Demo.vec
                       (fun _ => eq_refl) (fun _ _ => eq_refl))
           eq_refl eq_refl st' out Hrun).
Defined.

Lemma class_lowering_frame_witness :
  exists st' out,
    @transpileClass Demo.collaborators Demo.vec Demo.start = (st', Ok out)
    /\ usesTSLibrary st' = false.
Proof.
  destruct (@transpileClass Demo.collaborators Demo.vec Demo.start)
    as [st' [out|e]] eqn:Hrun; [|vm_compute in Hrun; discriminate Hrun].
  exists st', out. split; [reflexivity|].
  exact (@class_lowering_frame Demo.collaborators (fun s => usesTSLibrary s = false)
           Demo.vec Demo.start
           (fun _ H => H) (fun _ H => H) (fun _ _ H => H)
           (sample_preserves usesTSLibrary false Demo.vec
              (fun _ => eq_refl) (fun _ _ => eq_refl))
           eq_refl eq_refl st' out Hrun).
Defined.

Lemma accessor_table_forms_witness :
  (declaresInstanceAccessor GetAccessor Demo.vec
   /\ ~ inheritsInstanceAccessor GetAccessor Demo.vec
   /\ exists st' out ind entries,
       @transpileClass Demo.collaborators Demo.vec Demo.start = (st', Ok out)
       /\ occursIn (render (plainAccessorTable "Vec" "_getters" ind entries)) out)
  /\ (~ declaresInstanceAccessor GetAccessor Sample.vec2
      /\ inheritsInstanceAccessor GetAccessor Sample.vec2
      /\ exists st' out ind,
          @transpileClass Demo.collaborators Sample.vec2 Demo.start = (st', Ok out)
          /\ occursIn (render (sharedAccessorTable "Vec2" "_getters" ind)) out).
Proof.
  assert (Hvec : declaresInstanceAccessor GetAccessor Demo.vec).
  { exists (Demo.accessor GetAccessor "len" false).
    split; [vm_compute; tauto | split; reflexivity]. }
  assert (Hroot : ~ inheritsInstanceAccessor GetAccessor Demo.vec)
    by (intros (a & [] & _)).
  assert (Hnone : ~ declaresInstanceAccessor GetAccessor Sample.vec2)
    by (intros (m & [] & _)).
  assert (Hinh : inheritsInstanceAccessor GetAccessor Sample.vec2)
    by (exists Demo.vec; split; [now left | exact Hvec]).
  split.
  - split; [exact Hvec|]. split; [exact Hroot|].
    destruct (@transpileClass Demo.collaborators Demo.vec Demo.start)
      as [st' [out|e]] eqn:Hrun; [|vm_compute in Hrun; discriminate Hrun].
    destruct (@accessor_table_forms Demo.collaborators Demo.vec Demo.start
                eq_refl st' out Hrun)
      as (toks & name & st1 & _ & _ & Hname & (Hplain & _) & _).
    vm_compute in Hname. inversion Hname; subst name.
    destruct (Hplain Hvec Hroot) as (ind & entries & _ & pre & post & _ & Hocc).
    exists st', out, ind, entries. split; [reflexivity | exact Hocc].
  - split; [exact Hnone|]. split; [exact Hinh|].
    destruct (@transpileClass Demo.collaborators Sample.vec2 Demo.start)
      as [st' [out|e]] eqn:Hrun; [|vm_compute in Hrun; discriminate Hrun].
    destruct (@accessor_table_forms Demo.collaborators Sample.vec2 Demo.start
                eq_refl st' out Hrun)
      as (toks & name & st1 & _ & _ & Hname & (_ & _ & Hshared & _) & _).
    vm_compute in Hname. inversion Hname; subst name.
    destruct (Hshared Hnone Hinh) as (ind & pre & post & _ & Hocc).
    exists st', out, ind. split; [reflexivity | exact Hocc].
Defined.

Lemma static_property_assignments_witness :
  exists st' out,
    @transpileClass Demo.collaborators Sample.settings Demo.start = (st', Ok out)
    /\ occursIn ("Settings.version = 1;" +:+ LF) out
    /\ occursIn ("Settings.cache = nil;" +:+ LF) out
    /\ occursIn ("Settings.size = nil;" +:+ LF) out.
Proof.
  destruct (@transpileClass Demo.collaborators Sample.settings Demo.start)
    as [st' [out|e]] eqn:Hrun; [|vm_compute in Hrun; discriminate Hrun].
  destruct (@static_property_assignments Demo.collaborators Sample.settings Demo.start
              eq_refl st' out Hrun)
    as (toks & name & st1 & pre & post & assignments
        & _ & _ & Hname & _ & _ & Hnil & Hinit & _).
  vm_compute in Hname. inversion Hname; subst name.
  exists st', out. split; [reflexivity|]. split; [|split].
  - destruct (Hinit (Demo.field "version" true (Some (Demo.ident "1"))))
      as (initializer & v & s & s' & Hi & Hv & Hocc);
      [vm_compute; tauto | reflexivity|].
    injection Hi as <-. injection Hv as _ <-. exact Hocc.
  - apply (Hnil (Demo.field "cache" true None)); [vm_compute; tauto | reflexivity].
  - apply (Hnil (Demo.accessor GetAccessor "size" true));
      [vm_compute; tauto | reflexivity].
Defined.

Lemma first_undefinable_reported_witness :
  exists st3,
    @transpileClass Demo.collaborators Demo.indexer Demo.start
    = (st3, Throw (TranspilerError
                     "Cannot use undefinable Lua metamethod as identifier '__index' for a class"
                     (ClassNodeOf Demo.indexer) UndefinableMetamethod)).
Proof.
  eexists.
  exact (@first_undefinable_reported Demo.collaborators Demo.indexer Demo.start "__index"
           _ _ _ _ _ _ eq_refl eq_refl eq_refl eq_refl eq_refl).
Defined.

Lemma field_initializers_witness :
  exists st' out s s' text,
    @transpileClass Demo.collaborators Demo.vec Demo.start = (st', Ok out)
    /\ @transpileConstructorDeclaration Demo.collaborators "Vec" None
                                         ["self.x = 0;" +:+ LF] false s
       = (s', Ok text)
    /\ occursIn text out.
Proof.
  destruct (@transpileClass Demo.collaborators Demo.vec Demo.start)
    as [st' [out|e]] eqn:Hrun; [|vm_compute in Hrun; discriminate Hrun].
  destruct (@field_initializers Demo.collaborators Demo.vec Demo.start eq_refl st' out Hrun)
    as (name & st1 & inits & s & s' & text & Hname & Hinits & Hctor & Hocc).
  vm_compute in Hname. inversion Hname; subst name st1.
  assert (Hi : inits = ["self.x = 0;" +:+ LF]).
  { vm_compute in Hinits.
    inversion Hinits as [|p i ps rest Hhead Hrest]; subst.
    inversion Hrest; subst.
    destruct Hhead as (initializer & v & t & t' & Hinit & Hv & ->).
    injection Hinit as <-. injection Hv as _ <-. reflexivity. }
  subst inits.
  exists st', out, s, s', text. split; [reflexivity|]. split; [exact Hctor | exact Hocc].
Defined.
